(** * raftexample: the replicated key-value store and its HTTP front end

    A shallow embedding of the two Go packages of the repository,
    [store] (the [KvStore]: apply loop, proposals, snapshots) and [httpd]
    (the REST handler), together with the parts of the Go standard library
    they rely on: [unicode/utf8], [unicode/utf16], [encoding/json] for the
    snapshot payload and [encoding/gob] for the entries on the wire.

    Conventions.
    - A Go [string] is a Rocq [string]: a sequence of bytes, not of
      characters.  A Go [[]byte] is a [list ascii].  The conversions
      [[]byte(s)] and [string(b)] are [bytes_of_string] and
      [string_of_bytes].
    - A Go [map[string]string] is an [option (gmap string string)]: [None]
      is the nil map, which can be read and deleted from but not assigned
      to.
    - Channels are lists of the messages sent on them, oldest first.
    - The reader/writer lock of [KvStore] is not modelled: every function
      below is one critical section, executed without interleaving. *)

From Stdlib Require Import Ascii NArith ZArith Bool Lia.
From stdpp Require Import base option list gmap strings sorting.

Local Open Scope N_scope.

Abbreviation bytes := (list ascii).

Definition bytes_of_string : string → bytes := String.list_ascii_of_string.
Definition string_of_bytes : bytes → string := String.string_of_list_ascii.

(** The numeric value of a byte, and Go's truncating conversion [byte(x)]. *)
Definition code (b : ascii) : N := N_of_ascii b.
Definition byte (n : N) : ascii := ascii_of_N (n mod 256).

(** [p[i]] for an index the caller has checked to be in range. *)
Definition at_ (p : bytes) (i : nat) : N := code (nth i p zero).

(** ** unicode/utf8 *)

Module utf8.

Definition RuneError : N := 0xFFFD.
Definition RuneSelf : N := 0x80.
Definition MaxRune : N := 0x10FFFF.

Definition surrogateMin : N := 0xD800.
Definition surrogateMax : N := 0xDFFF.

Definition tx : N := 0x80.
Definition t2 : N := 0xC0.
Definition t3 : N := 0xE0.
Definition t4 : N := 0xF0.

Definition maskx : N := 0x3F.
Definition mask2 : N := 0x1F.
Definition mask3 : N := 0x0F.
Definition mask4 : N := 0x07.

Definition rune1Max : N := 0x7F.
Definition rune2Max : N := 0x7FF.
Definition rune3Max : N := 0xFFFF.

Definition locb : N := 0x80.
Definition hicb : N := 0xBF.

(** Information about the first byte of an encoding: the low three bits
    are the length, the high four bits index [acceptRanges]. *)
Definition xx : N := 0xF1.
Definition as_ : N := 0xF0.
Definition s1 : N := 0x02.
Definition s2 : N := 0x13.
Definition s3 : N := 0x03.
Definition s4 : N := 0x23.
Definition s5 : N := 0x34.
Definition s6 : N := 0x04.
Definition s7 : N := 0x44.

(** The table [first[256]], row by row. *)
Definition first (b : N) : N :=
  if b <? 0x80 then as_
  else if b <? 0xC2 then xx
  else if b <? 0xE0 then s1
  else if b =? 0xE0 then s2
  else if b <? 0xED then s3
  else if b =? 0xED then s4
  else if b <? 0xF0 then s3
  else if b =? 0xF0 then s5
  else if b <? 0xF4 then s6
  else if b =? 0xF4 then s7
  else xx.

(** The table [acceptRanges[16]]; the entries after the fifth are zero. *)
Definition acceptRanges (i : N) : N * N :=
  match i with
  | 0 => (locb, hicb)
  | 1 => (0xA0, hicb)
  | 2 => (locb, 0x9F)
  | 3 => (0x90, hicb)
  | 4 => (locb, 0x8F)
  | _ => (0, 0)
  end.

(** [DecodeRune] (and [DecodeRuneInString]): the rune at the head of [p]
    and its width in bytes; [(RuneError, 1)] for an invalid encoding,
    [(RuneError, 0)] for the empty input. *)
Definition DecodeRune (p : bytes) : N * nat :=
  let n := length p in
  if (n <? 1)%nat then (RuneError, 0%nat) else
  let p0 := at_ p 0 in
  let x := first p0 in
  if as_ <=? x then
    (* mask is all ones exactly when the low bit of x is set (x = xx) *)
    (if N.testbit x 0 then RuneError else p0, 1%nat)
  else
    let sz := N.to_nat (N.land x 7) in
    let accept := acceptRanges (N.shiftr x 4) in
    if (n <? sz)%nat then (RuneError, 1%nat) else
    let b1 := at_ p 1 in
    if (b1 <? accept.1) || (accept.2 <? b1) then (RuneError, 1%nat) else
    if (sz <=? 2)%nat then
      (N.lor (N.shiftl (N.land p0 mask2) 6) (N.land b1 maskx), 2%nat)
    else
    let b2 := at_ p 2 in
    if (b2 <? locb) || (hicb <? b2) then (RuneError, 1%nat) else
    if (sz <=? 3)%nat then
      (N.lor (N.lor (N.shiftl (N.land p0 mask3) 12)
                    (N.shiftl (N.land b1 maskx) 6))
             (N.land b2 maskx), 3%nat)
    else
    let b3 := at_ p 3 in
    if (b3 <? locb) || (hicb <? b3) then (RuneError, 1%nat) else
    (N.lor (N.lor (N.lor (N.shiftl (N.land p0 mask4) 18)
                         (N.shiftl (N.land b1 maskx) 12))
                  (N.shiftl (N.land b2 maskx) 6))
           (N.land b3 maskx), 4%nat).

(** [EncodeRune], returning the bytes it writes.  Runes here are never
    negative, so the conversion to [uint32] is the identity. *)
Definition encode3 (r : N) : bytes :=
  [ byte (N.lor t3 (N.shiftr r 12 mod 256));
    byte (N.lor tx (N.land (N.shiftr r 6 mod 256) maskx));
    byte (N.lor tx (N.land (r mod 256) maskx)) ].

Definition EncodeRune (r : N) : bytes :=
  if r <=? rune1Max then [ byte r ]
  else if r <=? rune2Max then
    [ byte (N.lor t2 (N.shiftr r 6 mod 256));
      byte (N.lor tx (N.land (r mod 256) maskx)) ]
  else if (MaxRune <? r) || ((surrogateMin <=? r) && (r <=? surrogateMax))
  then encode3 RuneError
  else if r <=? rune3Max then encode3 r
  else
    [ byte (N.lor t4 (N.shiftr r 18 mod 256));
      byte (N.lor tx (N.land (N.shiftr r 12 mod 256) maskx));
      byte (N.lor tx (N.land (N.shiftr r 6 mod 256) maskx));
      byte (N.lor tx (N.land (r mod 256) maskx)) ].

(** [Valid] / [ValidString]: no position decodes to an encoding error. *)
Fixpoint valid_go (fuel : nat) (p : bytes) : bool :=
  match fuel with
  | O => true
  | S fuel =>
      match p with
      | [] => true
      | _ :: _ =>
          let '(r, size) := DecodeRune p in
          if (r =? RuneError) && (size =? 1)%nat then false
          else valid_go fuel (drop size p)
      end
  end.

Definition Valid (p : bytes) : bool := valid_go (length p) p.
Definition ValidString (s : string) : bool := Valid (bytes_of_string s).

End utf8.

(** ** unicode/utf16 *)

Module utf16.

Definition replacementChar : N := 0xFFFD.
Definition surr1 : N := 0xD800.
Definition surr2 : N := 0xDC00.
Definition surr3 : N := 0xE000.
Definition surrSelf : N := 0x10000.

Definition IsSurrogate (r : N) : bool := (surr1 <=? r) && (r <? surr3).

(** [DecodeRune r1 r2]: the code point of a surrogate pair, or U+FFFD.
    [r2] is [None] for the [-1] that [getu4] returns on failure. *)
Definition DecodeRune (r1 : N) (r2 : option N) : N :=
  match r2 with
  | Some r2 =>
      if (surr1 <=? r1) && (r1 <? surr2) && (surr2 <=? r2) && (r2 <? surr3)
      then N.lor (N.shiftl (r1 - surr1) 10) (r2 - surr2) + surrSelf
      else replacementChar
  | None => replacementChar
  end.

End utf16.

(** ** encoding/json, as far as [map[string]string] needs it *)

Module json.

Definition lit (s : string) : bytes := bytes_of_string s.

Definition dquote : ascii := "034".
Definition backslash : ascii := "092".

Definition hex (n : N) : ascii := nth (N.to_nat n) (lit "0123456789abcdef") zero.

(** *** Encoding *)

(** The body of [encodeState.string] with [escapeHTML] set, between
    the two quotes.  Go copies the unescaped stretches lazily
    ([start..i]); here every byte is emitted when it is visited.  The
    bytes 0x08 and 0x0C are written as [\u0008] and [\u000c]; later
    releases of Go write the two-byte escapes instead, which the decoder
    reads alike. *)
Fixpoint string_go (fuel : nat) (s : bytes) : bytes :=
  match fuel with
  | O => []
  | S fuel =>
      match s with
      | [] => []
      | b0 :: rest =>
          let b := code b0 in
          if b <? utf8.RuneSelf then
            if (0x20 <=? b) && negb (b =? 0x5C) && negb (b =? 0x22)
               && negb (b =? 0x3C) && negb (b =? 0x3E) && negb (b =? 0x26)
            then b0 :: string_go fuel rest
            else
              (if (b =? 0x5C) || (b =? 0x22) then [backslash; b0]
               else if b =? 0x0A then lit "\n"
               else if b =? 0x0D then lit "\r"
               else if b =? 0x09 then lit "\t"
               else lit "\u00" ++ [hex (N.shiftr b 4); hex (N.land b 0xF)])
              ++ string_go fuel rest
          else
            let '(c, size) := utf8.DecodeRune s in
            if (c =? utf8.RuneError) && (size =? 1)%nat then
              (backslash :: lit "ufffd") ++ string_go fuel (drop size s)
            else if (c =? 0x2028) || (c =? 0x2029) then
              lit "\u202" ++ [hex (N.land c 0xF)] ++ string_go fuel (drop size s)
            else take size s ++ string_go fuel (drop size s)
      end
  end.

Definition encodeString (s : string) : bytes :=
  let p := bytes_of_string s in
  [dquote] ++ string_go (length p) p ++ [dquote].

(** [mapEncoder.encode] after the nil test: the keys, in whatever order
    [MapKeys] returned them, are sorted bytewise, and each is written
    with the value [MapIndex] finds for it. *)
Definition encodeMember (m : gmap string string) (k : string) : bytes :=
  encodeString k ++ lit ":" ++ encodeString (default EmptyString (m !! k)).

Fixpoint joinMembers (ms : list bytes) : bytes :=
  match ms with
  | [] => []
  | [x] => x
  | x :: ms => x ++ lit "," ++ joinMembers ms
  end.

Definition encodeMap (keys : list string) (m : gmap string string) : bytes :=
  lit "{" ++ joinMembers (encodeMember m <$> merge_sort String.le keys) ++ lit "}".

(** [MapKeys]: the keys of the map, in an order Go leaves unspecified. *)
Definition MapKeys (m : gmap string string) : list string := (map_to_list m).*1.

(** [json.Marshal(m)] for [m] of type [map[string]string]; it has no
    error case for this type. *)
Definition Marshal (m : option (gmap string string)) : bytes :=
  match m with
  | None => lit "null"
  | Some m => encodeMap (MapKeys m) m
  end.

(** *** Decoding *)

Definition isSpace (c : N) : bool :=
  (c =? 0x20) || (c =? 0x09) || (c =? 0x0D) || (c =? 0x0A).

Fixpoint skipSpace (s : bytes) : bytes :=
  match s with
  | b :: r => if isSpace (code b) then skipSpace r else s
  | [] => []
  end.

Definition isHex (c : N) : bool :=
  ((0x30 <=? c) && (c <=? 0x39)) || ((0x61 <=? c) && (c <=? 0x66))
  || ((0x41 <=? c) && (c <=? 0x46)).

(** The scanner inside a string literal ([stateInString] and the escape
    states): from just after the opening quote, the raw contents of the
    literal and the input after its closing quote. *)
Fixpoint scanString (s : bytes) : option (bytes * bytes) :=
  match s with
  | [] => None
  | b :: r =>
      let c := code b in
      if c =? 0x22 then Some ([], r)
      else if c =? 0x5C then
        match r with
        | [] => None
        | e :: r1 =>
            let ec := code e in
            if (ec =? 0x62) || (ec =? 0x66) || (ec =? 0x6E) || (ec =? 0x72)
               || (ec =? 0x74) || (ec =? 0x5C) || (ec =? 0x2F) || (ec =? 0x22)
            then prod_map (λ l, b :: e :: l) id <$> scanString r1
            else if ec =? 0x75 then
              match r1 with
              | h1 :: h2 :: h3 :: h4 :: r2 =>
                  if isHex (code h1) && isHex (code h2)
                     && isHex (code h3) && isHex (code h4)
                  then prod_map (λ l, b :: e :: h1 :: h2 :: h3 :: h4 :: l) id
                         <$> scanString r2
                  else None
              | _ => None
              end
            else None
        end
      else if c <? 0x20 then None
      else prod_map (λ l, b :: l) id <$> scanString r
  end.

Definition hexVal (c : N) : option N :=
  if (0x30 <=? c) && (c <=? 0x39) then Some (c - 0x30)
  else if (0x61 <=? c) && (c <=? 0x66) then Some (c - 0x61 + 10)
  else if (0x41 <=? c) && (c <=? 0x46) then Some (c - 0x41 + 10)
  else None.

(** [getu4]: the value of a [\uXXXX] escape at the head of [s]; [None]
    is Go's [-1]. *)
Definition getu4 (s : bytes) : option N :=
  match s with
  | b0 :: b1 :: h1 :: h2 :: h3 :: h4 :: _ =>
      if (code b0 =? 0x5C) && (code b1 =? 0x75) then
        d1 ← hexVal (code h1); d2 ← hexVal (code h2);
        d3 ← hexVal (code h3); d4 ← hexVal (code h4);
        Some (((d1 * 16 + d2) * 16 + d3) * 16 + d4)
      else None
  | _ => None
  end.

(** The loop of [unquoteBytes] over the contents of a literal.  (Go first
    tries to return the contents unchanged when they hold nothing but
    plain, well-formed characters; the loop gives the same bytes then.) *)
Fixpoint unquote_go (fuel : nat) (s : bytes) : option bytes :=
  match s with
  | [] => Some []
  | b :: r =>
      match fuel with
      | O => None
      | S fuel =>
          let c := code b in
          if c =? 0x5C then
            match r with
            | [] => None
            | e :: r1 =>
                let ec := code e in
                if (ec =? 0x22) || (ec =? 0x5C) || (ec =? 0x2F) || (ec =? 0x27)
                then (e ::.) <$> unquote_go fuel r1
                else if ec =? 0x62 then (byte 0x08 ::.) <$> unquote_go fuel r1
                else if ec =? 0x66 then (byte 0x0C ::.) <$> unquote_go fuel r1
                else if ec =? 0x6E then (byte 0x0A ::.) <$> unquote_go fuel r1
                else if ec =? 0x72 then (byte 0x0D ::.) <$> unquote_go fuel r1
                else if ec =? 0x74 then (byte 0x09 ::.) <$> unquote_go fuel r1
                else if ec =? 0x75 then
                  match getu4 s with
                  | None => None
                  | Some rr =>
                      let s6 := drop 6 s in
                      if utf16.IsSurrogate rr then
                        let dec := utf16.DecodeRune rr (getu4 s6) in
                        if negb (dec =? utf16.replacementChar)
                        then (utf8.EncodeRune dec ++.) <$> unquote_go fuel (drop 6 s6)
                        else (utf8.EncodeRune utf16.replacementChar ++.)
                               <$> unquote_go fuel s6
                      else (utf8.EncodeRune rr ++.) <$> unquote_go fuel s6
                  end
                else None
            end
          else if (c =? 0x22) || (c <? 0x20) then None
          else if c <? utf8.RuneSelf then (b ::.) <$> unquote_go fuel r
          else
            let '(rr, size) := utf8.DecodeRune s in
            (utf8.EncodeRune rr ++.) <$> unquote_go fuel (drop size s)
      end
  end.

Definition unquote (s : bytes) : option bytes := unquote_go (length s) s.

(** A string literal at the head of [s]: its value and the rest. *)
Definition parseString (s : bytes) : option (string * bytes) :=
  match s with
  | q :: r =>
      if code q =? 0x22 then
        '(raw, rest) ← scanString r;
        v ← unquote raw;
        Some (string_of_bytes v, rest)
      else None
  | [] => None
  end.

(** A value stored into a Go [string]: a string literal, or [null],
    which leaves the zero value.  Any other JSON value is an error: a
    syntax error, or an [UnmarshalTypeError] that [Unmarshal] reports
    when it is done. *)
Definition parseElem (s : bytes) : option (string * bytes) :=
  match s with
  | c0 :: c1 :: c2 :: c3 :: rest =>
      if (code c0 =? 0x6E) && (code c1 =? 0x75) && (code c2 =? 0x6C) && (code c3 =? 0x6C)
      then Some (EmptyString, rest)
      else parseString s
  | _ => parseString s
  end.

(** The members of an object, from the first byte of a key; a repeated
    key keeps the last value. *)
Fixpoint parseMembers (fuel : nat) (s : bytes) (m : gmap string string)
  : option (gmap string string * bytes) :=
  match fuel with
  | O => None
  | S fuel =>
      '(k, s1) ← parseString s;
      match skipSpace s1 with
      | c :: s2 =>
          if code c =? 0x3A then
            '(v, s3) ← parseElem (skipSpace s2);
            let m' := <[k := v]> m in
            match skipSpace s3 with
            | d :: s4 =>
                if code d =? 0x2C then parseMembers fuel (skipSpace s4) m'
                else if code d =? 0x7D then Some (m', s4)
                else None
            | [] => None
            end
          else None
      | [] => None
      end
  end.

(** An object, from just after its opening brace. *)
Definition parseObject (s : bytes) : option (gmap string string * bytes) :=
  match skipSpace s with
  | c :: r =>
      if code c =? 0x7D then Some (∅, r)
      else parseMembers (length s) (skipSpace s) ∅
  | [] => None
  end.

(** [json.Unmarshal(data, &store)] for a nil [store] of type
    [map[string]string].  [None] is a non-nil error; [Some None] is
    success with [store] still nil (the input was [null]); [Some (Some m)]
    is success with a freshly made map. *)
Definition Unmarshal (data : bytes) : option (option (gmap string string)) :=
  match skipSpace data with
  | c :: r =>
      if code c =? 0x7B then
        '(m, rest) ← parseObject r;
        match skipSpace rest with [] => Some (Some m) | _ => None end
      else
        match skipSpace data with
        | c0 :: c1 :: c2 :: c3 :: rest =>
            if (code c0 =? 0x6E) && (code c1 =? 0x75)
               && (code c2 =? 0x6C) && (code c3 =? 0x6C)
            then match skipSpace rest with [] => Some None | _ => None end
            else None
        | _ => None
        end
  | [] => None
  end.

End json.

(** ** package store: the entry type *)

(** [type kv struct { Key, Val, Opt string }]: one proposed update. *)
Record kv := Build_kv { Key : string; Val : string; Opt : string }.

Global Instance kv_eq_dec : EqDecision kv.
Proof. solve_decision. Defined.

(** ** encoding/gob, as far as a value of type [kv] needs it

    A gob stream is a sequence of messages, each a length followed by
    that many bytes.  A message starts with a type id: negative for the
    definition of a type, positive for a value of an already defined type.
    A fresh [Encoder] given a [kv] sends the definition of the struct type
    and then the value; zero-valued fields are not sent.

    The encoder side is complete for [kv].  The decoder side follows Go's
    decoder for a receiver of type [kv], for streams whose type
    definitions are struct types.  A field of the sender that [kv] lacks
    is skipped when its type is builtin (bool, int, uint, float, bytes,
    string, complex).  The other kinds of type definition (arrays,
    slices, maps, encoder hooks) and the skipping of a value of an
    interface type or of a type the stream defines are not modelled and
    are rejected here.  Nothing below relies on a rejection by this
    decoder. *)

Module gob.

Local Open Scope Z_scope.

Definition uint64Size : nat := 8.
Definition firstUserId : Z := 64.
Definition tBool : Z := 1.
Definition tInt : Z := 2.
Definition tUint : Z := 3.
Definition tFloat : Z := 4.
Definition tBytes : Z := 5.
Definition tString : Z := 6.
Definition tComplex : Z := 7.

(** [tooBig], the bound on the size of a message and of a string, on a
    64-bit platform: [(1 << 30) << (^uint(0) >> 62)]. *)
Definition tooBig : N := (2 ^ 33)%N.

(** *** Integers *)

(** [binary.BigEndian.PutUint64]. *)
Definition be8 (x : N) : bytes :=
  [ byte (N.shiftr x 56); byte (N.shiftr x 48); byte (N.shiftr x 40);
    byte (N.shiftr x 32); byte (N.shiftr x 24); byte (N.shiftr x 16);
    byte (N.shiftr x 8); byte x ].

(** [bits.LeadingZeros64(x) >> 3], read off the eight bytes. *)
Fixpoint leadingZeroBytes (p : bytes) : nat :=
  match p with
  | b :: r => if (code b =? 0)%N then S (leadingZeroBytes r) else O
  | [] => O
  end.

(** [encodeUint]: a value below 128 is one byte; a larger one is its
    minimal big-endian form after a byte holding the negated length
    ([uint8(bc - uint64Size)], which wraps around). *)
Definition encodeUint (x : N) : bytes :=
  if (x <=? 0x7F)%N then [ byte x ]
  else
    let buf := be8 x in
    let bc := leadingZeroBytes buf in
    byte (256 + N.of_nat bc - 8) :: drop bc buf.

(** [encodeInt]: the sign goes to the low bit. *)
Definition encodeInt (i : Z) : bytes :=
  encodeUint (Z.to_N (if i <? 0 then Z.lor (Z.shiftl (Z.lnot i) 1) 1
                      else Z.shiftl i 1)).

(** [decodeUint] (and [decodeUintReader]): the value and the rest. *)
Definition decodeUint (buf : bytes) : option (N * bytes) :=
  match buf with
  | [] => None
  | b :: r =>
      let c := code b in
      if (c <=? 0x7F)%N then Some (c, r)
      else
        let n := N.to_nat (256 - c) in
        if (uint64Size <? n)%nat then None
        else if (length r <? n)%nat then None
        else Some (fold_left (λ x b, N.lor (N.shiftl x 8) (code b)) (take n r) 0%N,
                   drop n r)
  end.

Definition decodeInt (buf : bytes) : option (Z * bytes) :=
  '(x, r) ← decodeUint buf;
  Some (if N.testbit x 0 then Z.lnot (Z.of_N (N.shiftr x 1))
        else Z.of_N (N.shiftr x 1), r).

(** *** Strings *)

Definition encodeString (s : string) : bytes :=
  encodeUint (N.of_nat (String.length s)) ++ bytes_of_string s.

(** [decString]: [getLength] refuses a length that is too big or longer
    than the buffer. *)
Definition decodeString (buf : bytes) : option (string * bytes) :=
  '(n, r) ← decodeUint buf;
  if (tooBig <=? n)%N || (N.of_nat (length r) <? n)%N then None
  else Some (string_of_bytes (take (N.to_nat n) r), drop (N.to_nat n) r).

(** *** Structs *)

(** [decodeStruct]: pairs of a field-number delta and a field value,
    until a zero delta or the end of the buffer.  [ops] is the engine:
    one decoding operation per field number of the sender. *)
Fixpoint decodeStruct {A} (ops : list (A → bytes → option (A * bytes)))
    (fuel : nat) (fieldnum : Z) (a : A) (buf : bytes) : option (A * bytes) :=
  match buf with
  | [] => Some (a, [])
  | _ :: _ =>
      match fuel with
      | O => None
      | S fuel =>
          '(delta, r) ← decodeUint buf;
          if (delta =? 0)%N then Some (a, r)
          else if (2 ^ 63 <=? delta)%N then None
          else
            let fieldnum := fieldnum + Z.of_N delta in
            match ops !! Z.to_nat fieldnum with
            | None => None
            | Some op =>
                '(a, r) ← op a r;
                decodeStruct ops fuel fieldnum a r
            end
      end
  end.

(** *** Type descriptors *)

(** [fieldType], and [CommonType], which has the same two fields. *)
Record fieldType := Build_fieldType { fName : string; fId : Z }.

Record structType := Build_structType
  { sCommon : fieldType; sField : list fieldType }.

(** [wireType], of which only the [StructT] pointer is modelled. *)
Record wireType := Build_wireType { StructT : option structType }.

Definition encodeNameId (name : string) (id : Z) : bytes :=
  encodeUint 1 ++ encodeString name ++ encodeUint 1 ++ encodeInt id ++ encodeUint 0.

(** The descriptor of [kv] under the type id [tid]: field 2 of
    [wireType] ([StructT]), holding a [CommonType] and three fields of
    type [string]. *)
Definition encodeWireType (tid : Z) : bytes :=
  encodeUint 3
    ++ (encodeUint 1 ++ encodeNameId "kv" tid
        ++ encodeUint 1 ++ encodeUint 3
           ++ encodeNameId "Key" tString
           ++ encodeNameId "Val" tString
           ++ encodeNameId "Opt" tString
        ++ encodeUint 0)
    ++ encodeUint 0.

Definition nameIdOps : list (fieldType → bytes → option (fieldType * bytes)) :=
  [ λ a buf, '(s, r) ← decodeString buf; Some (Build_fieldType s (fId a), r);
    λ a buf, '(i, r) ← decodeInt buf; Some (Build_fieldType (fName a) i, r) ].

Definition decodeNameId (buf : bytes) : option (fieldType * bytes) :=
  decodeStruct nameIdOps (length buf) (-1) (Build_fieldType EmptyString 0) buf.

(** [decodeSlice] for [[]*fieldType], after the count. *)
Fixpoint decodeFields (n : nat) (buf : bytes) : option (list fieldType * bytes) :=
  match n with
  | O => Some ([], buf)
  | S n =>
      '(f, r) ← decodeNameId buf;
      '(fs, r) ← decodeFields n r;
      Some (f :: fs, r)
  end.

Definition structTypeOps : list (structType → bytes → option (structType * bytes)) :=
  [ λ a buf, '(c, r) ← decodeNameId buf; Some (Build_structType c (sField a), r);
    λ a buf,
      '(u, r) ← decodeUint buf;
      if (tooBig <? 8 * u)%N then None
      else '(fs, r) ← decodeFields (N.to_nat u) r;
           Some (Build_structType (sCommon a) fs, r) ].

Definition decodeStructType (buf : bytes) : option (structType * bytes) :=
  decodeStruct structTypeOps (length buf) (-1)
    (Build_structType (Build_fieldType EmptyString 0) []) buf.

Definition unmodelled : wireType → bytes → option (wireType * bytes) :=
  λ _ _, None.

Definition wireTypeOps : list (wireType → bytes → option (wireType * bytes)) :=
  [ unmodelled; unmodelled;
    λ _ buf, '(s, r) ← decodeStructType buf; Some (Build_wireType (Some s), r);
    unmodelled; unmodelled; unmodelled; unmodelled ].

Definition decodeWireType (buf : bytes) : option (wireType * bytes) :=
  decodeStruct wireTypeOps (length buf) (-1) (Build_wireType None) buf.

(** *** Messages *)

(** [writeMessage]: the length, then the body; a body of [tooBig] bytes
    or more is an error. *)
Definition writeMessage (body : bytes) : option bytes :=
  if (tooBig <=? N.of_nat (length body))%N then None
  else Some (encodeUint (N.of_nat (length body)) ++ body).

(** [recvMessage]: the body of the next message and the stream after it. *)
Definition recvMessage (stream : bytes) : option (bytes * bytes) :=
  '(nbytes, r) ← decodeUint stream;
  if (tooBig <=? nbytes)%N || (N.of_nat (length r) <? nbytes)%N then None
  else Some (take (N.to_nat nbytes) r, drop (N.to_nat nbytes) r).

(** *** Encoding a [kv] *)

(** [encodeStruct] for [kv]: [encString] sends a field only when it is
    not empty, after the distance from the last field sent. *)
Definition encodeField (st : Z * bytes) (f : Z * string) : Z * bytes :=
  let '(fieldnum, b) := st in
  let '(i, s) := f in
  if (0 <? String.length s)%nat
  then (i, b ++ encodeUint (Z.to_N (i - fieldnum)) ++ encodeString s)
  else (fieldnum, b).

Definition encodeStruct (e : kv) : bytes :=
  (fold_left encodeField [(0, Key e); (1, Val e); (2, Opt e)] (-1, [])).2
    ++ encodeUint 0.

(** [gob.NewEncoder(&buf).Encode(e)] for [e] of type [kv], in a process
    where [kv] has the type id [tid]: the bytes left in [buf], or [None]
    for an error. *)
Definition Encode (tid : Z) (e : kv) : option bytes :=
  m1 ← writeMessage (encodeInt (- tid) ++ encodeWireType tid);
  m2 ← writeMessage (encodeInt tid ++ encodeStruct e);
  Some (m1 ++ m2).

(** *** Decoding a [kv] *)

(** [decodeTypeSequence]: read messages, recording type definitions,
    up to the first value; the id of the value, the types seen and the
    body of the value. *)
Fixpoint decodeTypeSequence (fuel : nat) (types : list (Z * wireType))
    (stream : bytes) : option (Z * list (Z * wireType) * bytes) :=
  match fuel with
  | O => None
  | S fuel =>
      '(buf, stream) ← recvMessage stream;
      '(id, buf) ← decodeInt buf;
      if 0 <=? id then Some (id, types, buf)
      else
        (* recvType *)
        if (- id <? firstUserId) || bool_decide (is_Some (list_find (λ t, t.1 = - id) types))
        then None
        else
          '(wire, buf) ← decodeWireType buf;
          match buf with
          | [] => decodeTypeSequence fuel ((- id, wire) :: types) stream
          | _ :: _ => None
          end
  end.

Definition setField (name : string) (e : kv) (s : string) : option kv :=
  if String.eqb name "Key" then Some (Build_kv s (Val e) (Opt e))
  else if String.eqb name "Val" then Some (Build_kv (Key e) s (Opt e))
  else if String.eqb name "Opt" then Some (Build_kv (Key e) (Val e) s)
  else None.

(** [decIgnoreOpMap]: the operation that skips a value of a builtin
    type ([ignoreUint], [ignoreUint8Array], [ignoreTwoUints]).  [None]
    for the other type ids, whose skipping is not modelled. *)
Definition ignoreOp (id : Z) : option (kv → bytes → option (kv * bytes)) :=
  if (id =? tBool) || (id =? tInt) || (id =? tUint) || (id =? tFloat) then
    Some (λ e buf, '(_, r) ← decodeUint buf; Some (e, r))
  else if (id =? tBytes) || (id =? tString) then
    Some (λ e buf, '(_, r) ← decodeString buf; Some (e, r))
  else if id =? tComplex then
    Some (λ e buf, '(_, r) ← decodeUint buf; '(_, r) ← decodeUint r; Some (e, r))
  else None.

(** Whether [kv] has a field of this name. *)
Definition isField (name : string) : bool :=
  bool_decide
    (is_Some (setField name (Build_kv EmptyString EmptyString EmptyString)
                EmptyString)).

(** [compileDec]: one operation per field of the sender's struct.  A
    field with an empty name or, under a local name, with a type other
    than [string] is an error; a field that [kv] lacks is skipped. *)
Definition fieldOp (f : fieldType) : option (kv → bytes → option (kv * bytes)) :=
  if String.eqb (fName f) EmptyString then None
  else
    match setField (fName f) (Build_kv EmptyString EmptyString EmptyString) EmptyString with
    | None => ignoreOp (fId f)
    | Some _ =>
        if fId f =? tString then
          Some (λ e buf, '(s, r) ← decodeString buf;
                         e ← setField (fName f) e s; Some (e, r))
        else None
    end.

(** The engine for a value of type [id]; a sender's struct that has
    fields, none of which [kv] has, is an error ([decodeValue]). *)
Definition compileDec (types : list (Z * wireType)) (id : Z)
  : option (list (kv → bytes → option (kv * bytes))) :=
  if id <? firstUserId then None
  else
    '(_, wire) ← snd <$> list_find (λ t, t.1 = id) types;
    st ← StructT wire;
    ops ← mapM fieldOp (sField st);
    if forallb (λ f, negb (isField (fName f))) (sField st)
       && (0 <? length (sField st))%nat
    then None
    else Some ops.

(** [dec.Decode(&dataKv)] on a fresh [Decoder] over [stream], with
    [dataKv] the zero [kv]: the decoded value, or [None] for an error. *)
Definition Decode (stream : bytes) : option kv :=
  '(id, types, buf) ← decodeTypeSequence (S (length stream)) [] stream;
  ops ← compileDec types id;
  fst <$> decodeStruct ops (length buf) (-1)
            (Build_kv EmptyString EmptyString EmptyString) buf.

End gob.

(** ** The collaborators of the store *)

(** [github.com/coreos/etcd/snap]: what [Snapshotter.Load] can answer. *)
Module snap.

Record Snapshot := Build_Snapshot { Term : N; Index : N; Data : bytes }.

Inductive LoadResult :=
| Loaded (snapshot : Snapshot)
| ErrNoSnapshot
| LoadFailed (err : string).

(** The snapshot directory is outside the program: a [Snapshotter] is
    the sequence of answers it gives to the successive calls of [Load],
    and the number of calls made so far. *)
Record Snapshotter := Build_Snapshotter
  { answers : nat → LoadResult; calls : nat }.

Definition Load (sn : Snapshotter) : LoadResult * Snapshotter :=
  (answers sn (calls sn), Build_Snapshotter (answers sn) (S (calls sn))).

End snap.

(** The gob encoder and decoder the store calls.  [gobEncode e] is
    [gob.NewEncoder(&buf).Encode(e)] followed by [buf.Bytes()];
    [gobDecode b] is [gob.NewDecoder(b).Decode(&dataKv)].  [None] is a
    non-nil error. *)
Class GobCodec := Build_GobCodec
  { gobEncode : kv → option bytes;
    gobDecode : bytes → option kv }.

(** The codec of [encoding/gob], in a process where [kv] has type id [tid]. *)
Definition gobWire (tid : Z) : GobCodec :=
  {| gobEncode := gob.Encode tid; gobDecode := gob.Decode |}.

(** What is waiting on the error channel when it is received from. *)
Inductive errorChan :=
| ErrValue (err : string)   (* an error was sent *)
| ErrClosed                 (* closed and empty *)
| ErrOpen.                  (* open and empty: the receive blocks *)

(** ** package store *)

Module store.

(** [KvStore].  [proposeC] holds the proposals sent so far; [kvStore] is
    the map of committed pairs. *)
Record KvStore := Build_KvStore
  { proposeC : list string;
    kvStore : option (gmap string string);
    snapshotter : snap.Snapshotter }.

Definition set_kvStore (s : KvStore) (m : option (gmap string string)) : KvStore :=
  Build_KvStore (proposeC s) m (snapshotter s).

(** How a call that reads the commit channel ends. *)
Inductive outcome :=
| Returned (s : KvStore) (commitC : list (option string))
    (* the function returned, leaving [commitC] unread *)
| Blocked (s : KvStore)
    (* it waits for the next message of an open, empty channel *)
| Fatal (s : KvStore)
    (* [log.Fatal]: the process exited with status 1 *)
| Panicked (s : KvStore).
    (* [log.Panic], or a run-time panic *)

(** [Lookup]. *)
Definition Lookup (s : KvStore) (key : string) : string * bool :=
  match kvStore s with
  | Some m =>
      match m !! key with
      | Some v => (v, true)
      | None => (EmptyString, false)
      end
  | None => (EmptyString, false)
  end.

(** [GetSnapshot]: the result of [json.Marshal], and the store after the
    call. *)
Definition GetSnapshot (s : KvStore) : (bytes * option string) * KvStore :=
  ((json.Marshal (kvStore s), None), s).

(** [recoverFromSnapshot]: the error returned, and the store after the
    call. *)
Definition recoverFromSnapshot (s : KvStore) (snapshot : bytes)
  : option string * KvStore :=
  match json.Unmarshal snapshot with
  | None => (Some "json: cannot unmarshal"%string, s)
  | Some store => (None, set_kvStore s store)
  end.

(** The [switch dataKv.Opt] of [readCommits], under the lock.  [None] is
    the run-time panic of an assignment to an entry of a nil map. *)
Definition applyEntry (s : KvStore) (dataKv : kv) : option KvStore :=
  if String.eqb (Opt dataKv) "SET" then
    match kvStore s with
    | Some m => Some (set_kvStore s (Some (<[Key dataKv := Val dataKv]> m)))
    | None => None
    end
  else if String.eqb (Opt dataKv) "DEL" then
    Some (set_kvStore s (delete (Key dataKv) <$> kvStore s))
  else Some s.

Section with_codec.
Context `{GobCodec}.

(** [Propose]; [None] is [log.Fatal].  The line written to standard
    output is not modelled. *)
Definition Propose (s : KvStore) (k v op : string) : option KvStore :=
  match gobEncode (Build_kv k v op) with
  | None => None
  | Some buf =>
      Some (Build_KvStore (proposeC s ++ [string_of_bytes buf])
              (kvStore s) (snapshotter s))
  end.

(** [readCommits].  [commitC] holds the messages waiting on the commit
    channel ([None] is the nil pointer) and [closed] tells whether the
    channel is closed behind them. *)
Fixpoint readCommits (s : KvStore) (commitC : list (option string))
    (closed : bool) (errorC : errorChan) : outcome :=
  match commitC with
  | [] =>
      if closed then
        match errorC with
        | ErrValue _ => Fatal s
        | ErrClosed => Returned s []
        | ErrOpen => Blocked s
        end
      else Blocked s
  | None :: commitC =>
      let '(res, sn) := snap.Load (snapshotter s) in
      let s := Build_KvStore (proposeC s) (kvStore s) sn in
      match res with
      | snap.ErrNoSnapshot => Returned s commitC
      | snap.LoadFailed _ => Panicked s
      | snap.Loaded snapshot =>
          match recoverFromSnapshot s (snap.Data snapshot) with
          | (Some _, s) => Panicked s
          | (None, s) => readCommits s commitC closed errorC
          end
      end
  | Some data :: commitC =>
      match gobDecode (bytes_of_string data) with
      | None => Fatal s
      | Some dataKv =>
          match applyEntry s dataKv with
          | None => Panicked s
          | Some s => readCommits s commitC closed errorC
          end
      end
  end.

(** [NewKVStore]: the replaying call of [readCommits], and then the
    call started as a goroutine, which goes on with what the first
    call left on the channel.  The result is how the second call ends,
    or how the first one does when it does not return. *)
Definition NewKVStore (snapshotter : snap.Snapshotter) (proposeC : list string)
    (commitC : list (option string)) (closed : bool) (errorC : errorChan)
  : outcome :=
  let s := Build_KvStore proposeC (Some ∅) snapshotter in
  match readCommits s commitC closed errorC with
  | Returned s commitC => readCommits s commitC closed errorC
  | o => o
  end.

End with_codec.

End store.

(** ** package httpd *)

(** [net/http], as far as the handler uses it. *)
Module http.

Definition StatusOK : nat := 200.
Definition StatusNoContent : nat := 204.
Definition StatusBadRequest : nat := 400.
Definition StatusNotFound : nat := 404.
Definition StatusMethodNotAllowed : nat := 405.

(** A request: [Body] is what [ioutil.ReadAll(r.Body)] returns, [None]
    for an error. *)
Record Request := Build_Request
  { Method : string; RequestURI : string; Body : option bytes }.

(** A [ResponseWriter] that records what the handler does with it, as
    the recorder of [net/http/httptest] does: the header map the handler
    edits, the status and header sent by the first [WriteHeader], and the
    body written.  What a server adds on the wire (the date, the length)
    is not part of it. *)
Record ResponseWriter := Build_ResponseWriter
  { Header : gmap string (list string);
    wrote : option (nat * gmap string (list string));
    body : bytes }.

Definition newResponseWriter : ResponseWriter := Build_ResponseWriter ∅ None [].

(** [Header.Set] and [Header.Add], for keys already in canonical form. *)
Definition Set_ (k v : string) (w : ResponseWriter) : ResponseWriter :=
  Build_ResponseWriter (<[k := [v]]> (Header w)) (wrote w) (body w).

Definition Add (k v : string) (w : ResponseWriter) : ResponseWriter :=
  Build_ResponseWriter (<[k := default [] (Header w !! k) ++ [v]]> (Header w))
    (wrote w) (body w).

(** [WriteHeader]: only the first call counts. *)
Definition WriteHeader (code : nat) (w : ResponseWriter) : ResponseWriter :=
  match wrote w with
  | Some _ => w
  | None => Build_ResponseWriter (Header w) (Some (code, Header w)) (body w)
  end.

(** [Header.Get]: the first value under a key, or the empty string. *)
Definition Get (k : string) (h : gmap string (list string)) : string :=
  default EmptyString (h !! k ≫= head).

(** [http.DetectContentType]: the content type sniffed from the first
    bytes of a body (it looks at 512 of them at most).  The algorithm is
    outside the program; the handler is verified for every such
    function. *)
Class ContentSniffer := Build_ContentSniffer
  { DetectContentType : bytes → string }.

(** What [Write] does to the header before sending it, as the
    documentation of [ResponseWriter.Write] has it: a header without a
    Content-Type line (and without a Transfer-Encoding) gets the content
    type sniffed from the data.  Once a header was sent, nothing is
    added. *)
Definition sniffed {sniffer : ContentSniffer} (b : bytes) (w : ResponseWriter)
  : ResponseWriter :=
  match wrote w with
  | Some _ => w
  | None =>
      match Header w !! "Content-Type"%string with
      | Some _ => w
      | None =>
          if String.eqb (Get "Transfer-Encoding" (Header w)) EmptyString
          then Set_ "Content-Type" (DetectContentType b) w
          else w
      end
  end.

(** [Write]: if no header was sent yet, sends one with status 200, with
    the sniffed Content-Type where the handler set none; then writes the
    data. *)
Definition Write {sniffer : ContentSniffer} (b : bytes) (w : ResponseWriter)
  : ResponseWriter :=
  let w := WriteHeader StatusOK (sniffed b w) in
  Build_ResponseWriter (Header w) (wrote w) (body w ++ b).

(** [http.Error]. *)
Definition Error {sniffer : ContentSniffer} (w : ResponseWriter) (error : string)
    (code : nat) : ResponseWriter :=
  let w := Set_ "Content-Type" "text/plain; charset=utf-8" w in
  let w := Set_ "X-Content-Type-Options" "nosniff" w in
  let w := WriteHeader code w in
  Write (bytes_of_string error ++ [byte 0x0A]) w.

(** The status and header of the response once the handler returned. *)
Definition response (w : ResponseWriter) : nat * gmap string (list string) :=
  default (StatusOK, Header w) (wrote w).

End http.

(** [github.com/coreos/etcd/raft/raftpb]. *)
Module raftpb.

Inductive ConfChangeType := ConfChangeAddNode | ConfChangeRemoveNode.

Record ConfChange := Build_ConfChange
  { Type_ : ConfChangeType; NodeID : N; Context_ : bytes }.

End raftpb.

Module httpd.

(** [HttpKVAPI]; [confChangeC] holds the changes sent so far. *)
Record HttpKVAPI := Build_HttpKVAPI
  { store_ : store.KvStore;
    confChangeC : list raftpb.ConfChange }.

(** How a call of the handler ends. *)
Inductive result :=
| Served (h : HttpKVAPI) (w : http.ResponseWriter)
| HandlerFatal       (* [log.Fatal] inside [Propose] *)
| HandlerPanic.      (* a run-time panic, here of [key[1:]] *)

Section with_env.
Context `{GobCodec} {sniffer : http.ContentSniffer}.
(** [strconv.ParseUint(s, 0, 64)]; [None] is an error. *)
Variable ParseUint : string → option N.

(** [ServeHTTP]. *)
Definition ServeHTTP (h : HttpKVAPI) (w : http.ResponseWriter)
    (r : http.Request) : result :=
  let key := http.RequestURI r in
  if String.eqb (http.Method r) "PUT" then
    match http.Body r with
    | None => Served h (http.Error w "Failed on PUT" http.StatusBadRequest)
    | Some v =>
        match store.Propose (store_ h) key (string_of_bytes v) "SET" with
        | None => HandlerFatal
        | Some s =>
            Served (Build_HttpKVAPI s (confChangeC h))
              (http.WriteHeader http.StatusNoContent w)
        end
    end
  else if String.eqb (http.Method r) "GET" then
    match store.Lookup (store_ h) key with
    | (v, true) => Served h (http.Write (bytes_of_string v) w)
    | (_, false) => Served h (http.Error w "Failed to GET" http.StatusNotFound)
    end
  else if String.eqb (http.Method r) "POST" then
    match http.Body r with
    | None => Served h (http.Error w "Failed on POST" http.StatusBadRequest)
    | Some url =>
        match key with
        | EmptyString => HandlerPanic
        | String _ key1 =>
            match ParseUint key1 with
            | None => Served h (http.Error w "Failed on POST" http.StatusBadRequest)
            | Some nodeId =>
                let cc := raftpb.Build_ConfChange raftpb.ConfChangeAddNode nodeId url in
                Served (Build_HttpKVAPI (store_ h) (confChangeC h ++ [cc]))
                  (http.WriteHeader http.StatusNoContent w)
            end
        end
    end
  else if String.eqb (http.Method r) "DELETE" then
    match store.Propose (store_ h) key EmptyString "DEL" with
    | None => HandlerFatal
    | Some s => Served (Build_HttpKVAPI s (confChangeC h)) w
    end
  else
    let w := http.Set_ "Allow" "PUT" w in
    let w := http.Add "Allow" "GET" w in
    let w := http.Add "Allow" "POST" w in
    let w := http.Add "Allow" "DELETE" w in
    Served h (http.Error w "Method not allowed" http.StatusMethodNotAllowed).

End with_env.

End httpd.

(** ** The operations of an entry, and what a history of entries says *)

(** The operation tags.  The store tests [Opt] against two tags; the
    deleting one is spelled DEL on the wire, and every other tag is an
    entry without effect. *)
Module Op.
Definition SET : string := "SET".
Definition DELETE : string := "DEL".
End Op.

(** The effect of one entry on a table. *)
Definition applyOp (m : gmap string string) (e : kv) : gmap string string :=
  if String.eqb (Opt e) Op.SET then <[Key e := Val e]> m
  else if String.eqb (Opt e) Op.DELETE then delete (Key e) m
  else m.

(** What an entry does to the key [k]: [Some (Some v)] sets it to [v],
    [Some None] deletes it, [None] does not touch it. *)
Definition operationOn (k : string) (e : kv) : option (option string) :=
  if String.eqb (Key e) k then
    if String.eqb (Opt e) Op.SET then Some (Some (Val e))
    else if String.eqb (Opt e) Op.DELETE then Some None
    else None
  else None.

(** The last operation of a history on the key [k], if any. *)
Definition lastOperation (k : string) (es : list kv) : option (option string) :=
  last (omap (operationOn k) es).

(** What a lookup of [k] must answer after the history [es], read off the
    history alone: the value of the last SET of [k] when no DELETE of [k]
    follows it, and not found otherwise. *)
Definition expectedLookup (k : string) (es : list kv) : string * bool :=
  match lastOperation k es with
  | Some (Some v) => (v, true)
  | Some None | None => (EmptyString, false)
  end.

(** A table all of whose keys and values are well-formed UTF-8. *)
Definition utf8Table (m : gmap string string) : Prop :=
  map_Forall (λ k v, utf8.ValidString k = true ∧ utf8.ValidString v = true) m.

(** A store whose table, if allocated, is such a table. *)
Definition utf8Store (s : store.KvStore) : Prop :=
  match store.kvStore s with
  | Some m => utf8Table m
  | None => True
  end.

(** The messages [msgs] are encodings of the entries [es]. *)
Definition decodesTo `{GobCodec} (msgs : list string) (es : list kv) : Prop :=
  Forall2 (λ msg e, gobDecode (bytes_of_string msg) = Some e) msgs es.

(** ** Auxiliary definitions of the proofs about gob *)

(** One step of the loop of [decodeUint]. *)
Definition ustep (x : N) (b : ascii) : N := N.lor (N.shiftl x 8) (code b).

(** The descriptor a fresh encoder sends for [kv], and the decoding
    engine [compileDec] builds from it. *)
Definition kvFields : list gob.fieldType :=
  [ gob.Build_fieldType "Key" gob.tString;
    gob.Build_fieldType "Val" gob.tString;
    gob.Build_fieldType "Opt" gob.tString ].

Definition kvStructType (tid : Z) : gob.structType :=
  gob.Build_structType (gob.Build_fieldType "kv" tid) kvFields.

Definition kvOps : list (kv → bytes → option (kv * bytes)) :=
  (λ name, λ e buf, '(s, r) ← gob.decodeString buf;
                    e ← gob.setField name e s; Some (e, r))
    <$> ["Key"%string; "Val"%string; "Opt"%string].

(** ** Auxiliary definitions of the proofs about UTF-8 and JSON *)

(** [EncodeRune] before the conversion of each value to a byte. *)
Definition encode3N (r : N) : list N :=
  [ N.lor utf8.t3 (N.shiftr r 12 mod 256);
    N.lor utf8.tx (N.land (N.shiftr r 6 mod 256) utf8.maskx);
    N.lor utf8.tx (N.land (r mod 256) utf8.maskx) ].

Definition encodeRuneN (r : N) : list N :=
  if r <=? utf8.rune1Max then [ r ]
  else if r <=? utf8.rune2Max then
    [ N.lor utf8.t2 (N.shiftr r 6 mod 256);
      N.lor utf8.tx (N.land (r mod 256) utf8.maskx) ]
  else if (utf8.MaxRune <? r)
          || ((utf8.surrogateMin <=? r) && (r <=? utf8.surrogateMax))
  then encode3N utf8.RuneError
  else if r <=? utf8.rune3Max then encode3N r
  else
    [ N.lor utf8.t4 (N.shiftr r 18 mod 256);
      N.lor utf8.tx (N.land (N.shiftr r 12 mod 256) utf8.maskx);
      N.lor utf8.tx (N.land (N.shiftr r 6 mod 256) utf8.maskx);
      N.lor utf8.tx (N.land (r mod 256) utf8.maskx) ].

Definition allBytes : list N := N.of_nat <$> seq 0 256.

Fixpoint eqNs (l1 l2 : list N) : bool :=
  match l1, l2 with
  | [], [] => true
  | x :: l1, y :: l2 => (x =? y) && eqNs l1 l2
  | _, _ => false
  end.

Definition size_of (p0 : N) : nat := N.to_nat (N.land (utf8.first p0) 7).

Definition inAccept (p0 b1 : N) : bool :=
  let accept := utf8.acceptRanges (N.shiftr (utf8.first p0) 4) in
  negb ((b1 <? accept.1) || (accept.2 <? b1)).

Definition isCont (b : N) : bool := negb ((b <? utf8.locb) || (utf8.hicb <? b)).

Definition rune2 (p0 b1 : N) : N :=
  N.lor (N.shiftl (N.land p0 utf8.mask2) 6) (N.land b1 utf8.maskx).
Definition rune3 (p0 b1 b2 : N) : N :=
  N.lor (N.lor (N.shiftl (N.land p0 utf8.mask3) 12)
               (N.shiftl (N.land b1 utf8.maskx) 6))
        (N.land b2 utf8.maskx).
(** The rune of a four-byte encoding without the bits of its last byte. *)
Definition rune4hi (p0 b1 b2 : N) : N :=
  N.lor (N.lor (N.shiftl (N.land p0 utf8.mask4) 12)
               (N.shiftl (N.land b1 utf8.maskx) 6))
        (N.land b2 utf8.maskx).

Definition checkFirst : bool :=
  forallb (λ p0,
    if utf8.as_ <=? utf8.first p0
    then N.testbit (utf8.first p0) 0 || (p0 <? 0x80)
    else (0x80 <=? p0) && (2 <=? size_of p0)%nat && (size_of p0 <=? 4)%nat
         && forallb (λ b1, implb (inAccept p0 b1) (isCont b1)) allBytes) allBytes.

Definition check2 : bool :=
  forallb (λ p0,
    if (utf8.as_ <=? utf8.first p0) || negb (size_of p0 <=? 2)%nat then true
    else forallb (λ b1, implb (inAccept p0 b1)
                          (eqNs (encodeRuneN (rune2 p0 b1)) [p0; b1])) allBytes)
    allBytes.

Definition check3 : bool :=
  forallb (λ p0,
    if (utf8.as_ <=? utf8.first p0) || (size_of p0 <=? 2)%nat
       || negb (size_of p0 <=? 3)%nat then true
    else forallb (λ b1,
           if inAccept p0 b1 then
             forallb (λ b2, implb (isCont b2)
                              (eqNs (encodeRuneN (rune3 p0 b1 b2)) [p0; b1; b2]))
               allBytes
           else true) allBytes)
    allBytes.

Definition check4 : bool :=
  forallb (λ p0,
    if (utf8.as_ <=? utf8.first p0) || (size_of p0 <=? 3)%nat then true
    else forallb (λ b1,
           if inAccept p0 b1 then
             forallb (λ b2, implb (isCont b2)
               (let R := rune4hi p0 b1 b2 in
                (0x400 <=? R) && (R <=? 0x43FF)
                && eqNs [ N.lor utf8.t4 (N.shiftr R 12 mod 256);
                          N.lor utf8.tx (N.land (N.shiftr R 6 mod 256) utf8.maskx);
                          N.lor utf8.tx (N.land (R mod 256) utf8.maskx) ]
                        [p0; b1; b2]))
               allBytes
           else true) allBytes)
    allBytes.

Definition checkCont : bool :=
  forallb (λ b, implb (isCont b)
                  (N.lor utf8.tx (N.land b utf8.maskx) =? b)) allBytes.

(** [DecodeRune] as a function of the length and of the first four bytes. *)
Definition decodeRune4 (n : nat) (p0 b1 b2 b3 : N) : N * nat :=
  if (n <? 1)%nat then (utf8.RuneError, 0%nat) else
  let x := utf8.first p0 in
  if utf8.as_ <=? x then
    (if N.testbit x 0 then utf8.RuneError else p0, 1%nat)
  else
    let sz := N.to_nat (N.land x 7) in
    let accept := utf8.acceptRanges (N.shiftr x 4) in
    if (n <? sz)%nat then (utf8.RuneError, 1%nat) else
    if (b1 <? accept.1) || (accept.2 <? b1) then (utf8.RuneError, 1%nat) else
    if (sz <=? 2)%nat then
      (N.lor (N.shiftl (N.land p0 utf8.mask2) 6) (N.land b1 utf8.maskx), 2%nat)
    else
    if (b2 <? utf8.locb) || (utf8.hicb <? b2) then (utf8.RuneError, 1%nat) else
    if (sz <=? 3)%nat then
      (N.lor (N.lor (N.shiftl (N.land p0 utf8.mask3) 12)
                    (N.shiftl (N.land b1 utf8.maskx) 6))
             (N.land b2 utf8.maskx), 3%nat)
    else
    if (b3 <? utf8.locb) || (utf8.hicb <? b3) then (utf8.RuneError, 1%nat) else
    (N.lor (N.lor (N.lor (N.shiftl (N.land p0 utf8.mask4) 18)
                         (N.shiftl (N.land b1 utf8.maskx) 12))
                  (N.shiftl (N.land b2 utf8.maskx) 6))
           (N.land b3 utf8.maskx), 4%nat).

Definition isError (d : N * nat) : bool := (d.1 =? utf8.RuneError) && (d.2 =? 1)%nat.

(** What a successful [DecodeRune] guarantees, on byte values. *)
Record decoded (n : nat) (p0 b1 b2 b3 r : N) (size : nat) : Prop := Build_decoded
  { decoded_size : (1 ≤ size ≤ 4)%nat;
    decoded_fits : (size ≤ n)%nat;
    decoded_encode : encodeRuneN r = take size [p0; b1; b2; b3];
    decoded_high : 0x80 ≤ p0 → Forall (λ b, 0x80 ≤ b) (take size [p0; b1; b2; b3]);
    decoded_ascii : p0 < 0x80 → r = p0 ∧ size = 1%nat;
    decoded_local : ∀ n' c1 c2 c3,
      (size ≤ n')%nat →
      take size [p0; c1; c2; c3] = take size [p0; b1; b2; b3] →
      decodeRune4 n' p0 c1 c2 c3 = (r, size) }.

(** What a successful [DecodeRune] guarantees. *)
Record decodedAt (p : bytes) (r : N) (size : nat) : Prop := Build_decodedAt
  { at_size : (1 ≤ size ≤ length p)%nat;
    at_encode : utf8.EncodeRune r = take size p;
    at_high : 0x80 ≤ at_ p 0 → Forall (λ b, 0x80 ≤ code b) (take size p);
    at_ascii : at_ p 0 < 0x80 → r = at_ p 0 ∧ size = 1%nat;
    at_local : ∀ t, utf8.DecodeRune (take size p ++ t) = (r, size) }.

(** What [string_go] emits for an ASCII byte. *)
Definition asciiOut (b0 : ascii) : bytes :=
  let b := code b0 in
  if (0x20 <=? b) && negb (b =? 0x5C) && negb (b =? 0x22)
     && negb (b =? 0x3C) && negb (b =? 0x3E) && negb (b =? 0x26)
  then [b0]
  else if (b =? 0x5C) || (b =? 0x22) then [json.backslash; b0]
  else if b =? 0x0A then json.lit "\n"
  else if b =? 0x0D then json.lit "\r"
  else if b =? 0x09 then json.lit "\t"
  else json.lit "\u00" ++ [json.hex (N.shiftr b 4); json.hex (N.land b 0xF)].

(** What [string_go] emits for the head of [s], and how many bytes of [s]
    that accounts for. *)
Definition chunk (s : bytes) : bytes * nat :=
  match s with
  | [] => ([], 0%nat)
  | b0 :: _ =>
      if code b0 <? utf8.RuneSelf then (asciiOut b0, 1%nat)
      else
        let '(c, size) := utf8.DecodeRune s in
        if (c =? utf8.RuneError) && (size =? 1)%nat then
          (json.backslash :: json.lit "ufffd", size)
        else if (c =? 0x2028) || (c =? 0x2029) then
          (json.lit "\u202" ++ [json.hex (N.land c 0xF)], size)
        else (take size s, size)
  end.

(** A stretch of a string literal that the scanner passes over whole. *)
Definition scanned (q : bytes) : Prop :=
  ∀ t, json.scanString (q ++ t) = prod_map (q ++.) id <$> json.scanString t.

(** The head of [s] decodes to a rune. *)
Definition headValid (s : bytes) : Prop :=
  isError (utf8.DecodeRune s) = false.

(** The value [mapEncoder] writes for a key. *)
Definition valueOf (m : gmap string string) (k : string) : string :=
  default EmptyString (m !! k).

Definition validMember (m : gmap string string) (k : string) : Prop :=
  utf8.ValidString k = true ∧ utf8.ValidString (valueOf m k) = true.

(** ** Sample data *)

Module Sample.

(** The codec of a process in which [kv] is the first type gob meets. *)
Definition codec : GobCodec := gobWire 65.

(** A snapshot directory that stays empty. *)
Definition noSnapshot : snap.Snapshotter :=
  snap.Build_Snapshotter (λ _, snap.ErrNoSnapshot) 0.

(** The store as [NewKVStore] makes it, before any commit. *)
Definition fresh : store.KvStore := store.Build_KvStore [] (Some ∅) noSnapshot.

Definition setA1 : kv := Build_kv "a" "1" Op.SET.
Definition delA : kv := Build_kv "a" EmptyString Op.DELETE.

(** The message [Propose] sends for an entry. *)
Definition message (e : kv) : string :=
  string_of_bytes (default [] (gob.Encode 65 e)).

(** A table with one value that is not UTF-8: the single byte 0xFF. *)
Definition binaryTable : gmap string string :=
  {[ "a"%string := String (byte 0xFF) EmptyString ]}.

Definition binaryStore : store.KvStore :=
  store.Build_KvStore [] (Some binaryTable) noSnapshot.

Definition textTable : gmap string string :=
  <[ "b"%string := "x<y"%string ]> {[ "a"%string := "1"%string ]}.

Definition textStore : store.KvStore :=
  store.Build_KvStore [] (Some textTable) noSnapshot.

End Sample.

(** ** The claims that the code does not satisfy, as stated *)

(** C4 as stated: restoring what was captured succeeds and gives back a
    table with the same keys and the same values, for every table. *)
Definition snapshot_round_trip : Prop :=
  ∀ s : store.KvStore,
    ∃ s', store.recoverFromSnapshot s (store.GetSnapshot s).1.1 = (None, s')
          ∧ ∀ k, store.Lookup s' k = store.Lookup s k.

(** ** What a run of the apply loop leaves behind *)

(** The store an outcome ends in. *)
Definition finalStore (o : store.outcome) : store.KvStore :=
  match o with
  | store.Returned s _ | store.Blocked s | store.Fatal s | store.Panicked s => s
  end.

(** The number of nil messages of a feed. *)
Definition sentinels (commitC : list (option string)) : nat :=
  length (filter (λ d, d = None) commitC).

(** A snapshot directory that never fails and whose snapshots all hold
    data that [json.Unmarshal] decodes into a table: the JSON text of an
    object whose members are all strings (or null).  Neither the text
    null nor an object with a member of another kind, a number say, is
    such data. *)
Definition soundSnapshots (sn : snap.Snapshotter) : Prop :=
  ∀ n, snap.answers sn n = snap.ErrNoSnapshot
       ∨ ∃ snapshot m, snap.answers sn n = snap.Loaded snapshot
                       ∧ json.Unmarshal (snap.Data snapshot) = Some (Some m).

(** Stores, snapshot directories and requests to run the code on. *)
Module Scenario.

(** A directory whose first [Load] answers [r], and which is empty
    afterwards. *)
Definition answering (r : snap.LoadResult) : snap.Snapshotter :=
  snap.Build_Snapshotter
    (λ n, match n with O => r | S _ => snap.ErrNoSnapshot end) 0.

(** The snapshot a store with the table [Sample.textTable] saves. *)
Definition saved : snap.Snapshot :=
  snap.Build_Snapshot 1 1 (store.GetSnapshot Sample.textStore).1.1.

Definition restoring : snap.Snapshotter := answering (snap.Loaded saved).

Definition failing : snap.Snapshotter :=
  answering (snap.LoadFailed "snap: crc mismatch").

(** A snapshot whose data is the JSON text null. *)
Definition null : snap.Snapshotter :=
  answering (snap.Loaded (snap.Build_Snapshot 1 1 (bytes_of_string "null"))).

(** The store as [NewKVStore] makes it over a directory. *)
Definition over (sn : snap.Snapshotter) : store.KvStore :=
  store.Build_KvStore [] (Some ∅) sn.

Definition setB2 : kv := Build_kv "b" "2" Op.SET.

(** The handler over a store with the table [Sample.textTable]. *)
Definition api : httpd.HttpKVAPI := httpd.Build_HttpKVAPI Sample.textStore [].

(** A stand-in for [http.DetectContentType] that takes every body for
    plain text. *)
Definition plainText : http.ContentSniffer :=
  http.Build_ContentSniffer (λ _, "text/plain; charset=utf-8"%string).

(** A stand-in for [strconv.ParseUint] that knows the text 2 only. *)
Definition parseTwo (s : string) : option N :=
  if String.eqb s "2" then Some 2 else None.

End Scenario.

(** ** C6 as stated, and the inputs [recoverFromSnapshot] is tried on *)

(** A valid serialization of a State Table: the bytes [GetSnapshot]
    returns for a store that holds a table. *)
Definition validSerialization (b : bytes) : Prop :=
  ∃ (s : store.KvStore) (m : gmap string string),
    store.kvStore s = Some m ∧ b = (store.GetSnapshot s).1.1.

(** C6 as stated: bytes that are not a valid serialization give a decode
    error and leave the store as it was, and a valid serialization gives
    success and a replaced table. *)
Definition restore_refuses_invalid : Prop :=
  ∀ (s : store.KvStore) (b : bytes),
    (¬ validSerialization b →
     ∃ err, store.recoverFromSnapshot s b = (Some err, s))
    ∧ (validSerialization b →
       ∃ m, store.recoverFromSnapshot s b = (None, store.set_kvStore s (Some m))).

(** Only JSON white space: space, tab, carriage return, line feed. *)
Definition blank (b : bytes) : Prop :=
  Forall (λ c, c ∈ [" "%char; "009"%char; "013"%char; "010"%char]) b.

(** Ways in which bytes fail to be a serialization: nothing but white
    space; a first byte that opens neither an object nor the word null;
    a serialization cut short; a serialization followed by more text. *)
Inductive malformed : bytes → Prop :=
| malformed_blank (ws : bytes) :
    blank ws → malformed ws
| malformed_head (ws : bytes) (c : ascii) (r : bytes) :
    blank ws → ¬ blank [c] → c ≠ "{"%char → c ≠ "n"%char →
    malformed (ws ++ c :: r)
| malformed_truncated (b q : bytes) :
    validSerialization (b ++ q) → q ≠ [] →
    malformed b
| malformed_trailing (b ws : bytes) (c : ascii) (r : bytes) :
    validSerialization b → blank ws → ¬ blank [c] →
    malformed (b ++ ws ++ c :: r).

(** More inputs to run the code on. *)
Module Damaged.

(** The JSON text of an object whose member n is null. *)
Definition nullMember : bytes :=
  json.lit "{" ++ [json.dquote] ++ json.lit "n" ++ [json.dquote] ++ json.lit ":null}".

(** The snapshot of [Sample.textStore] without its last byte. *)
Definition truncated : bytes :=
  removelast (store.GetSnapshot Sample.textStore).1.1.

End Damaged.

(** * Properties *)

(** ** Strings and bytes *)

Lemma bytes_of_string_of_bytes (b : bytes) : bytes_of_string (string_of_bytes b) = b.
Proof. apply String.list_ascii_of_string_of_list_ascii. Qed.

Lemma string_of_bytes_of_string (s : string) : string_of_bytes (bytes_of_string s) = s.
Proof. apply String.string_of_list_ascii_of_string. Qed.

Lemma eqb_string_true (a b : string) : String.eqb a b = true ↔ a = b.
Proof. apply String.eqb_eq. Qed.

Lemma eqb_string_false (a b : string) : String.eqb a b = false ↔ a ≠ b.
Proof. apply String.eqb_neq. Qed.

(** ** The gob wire format *)

Lemma code_byte (n : N) : code (byte n) = n mod 256.
Proof.
  unfold code, byte. apply N_ascii_embedding. by apply N.mod_lt.
Qed.

Lemma code_lt (b : ascii) : code b < 256.
Proof. apply N_ascii_bounded. Qed.

Lemma byte_code (b : ascii) : byte (code b) = b.
Proof.
  unfold byte, code. rewrite N.mod_small by apply N_ascii_bounded.
  apply ascii_N_embedding.
Qed.

Lemma lor_shiftl_add (a b n : N) : b < 2 ^ n → N.lor (N.shiftl a n) b = a * 2 ^ n + b.
Proof.
  intros Hb. rewrite N.shiftl_mul_pow2.
  rewrite <- N.lxor_lor, <- N.add_nocarry_lxor; [done| |].
  all: apply N.bits_inj_0; intros m; rewrite N.land_spec.
  all: destruct (decide (m < n)) as [Hm|Hm].
  all: try (rewrite N.mul_pow2_bits_low by done; done).
  all: rewrite andb_comm.
  all: destruct (decide (b = 0)) as [->|Hb0]; [by rewrite N.bits_0|].
  all: rewrite (N.bits_above_log2 b m); [done|].
  all: apply N.log2_lt_pow2; [lia|].
  all: eapply N.lt_le_trans; [exact Hb|apply N.pow_le_mono_r; lia].
Qed.


Lemma ustep_add (x : N) (b : ascii) : ustep x b = x * 256 + code b.
Proof. unfold ustep. rewrite (lor_shiftl_add x (code b) 8); [done|apply code_lt]. Qed.

Lemma fold_be8 (x : N) : x < 2 ^ 64 → fold_left ustep (gob.be8 x) 0 = x.
Proof.
  intros Hx. unfold gob.be8. simpl fold_left.
  rewrite !ustep_add, !code_byte, !N.shiftr_div_pow2.
  change (2 ^ 56) with (256 * 256 * 256 * 256 * 256 * 256 * 256).
  change (2 ^ 48) with (256 * 256 * 256 * 256 * 256 * 256).
  change (2 ^ 40) with (256 * 256 * 256 * 256 * 256).
  change (2 ^ 32) with (256 * 256 * 256 * 256).
  change (2 ^ 24) with (256 * 256 * 256).
  change (2 ^ 16) with (256 * 256).
  change (2 ^ 8) with 256.
  rewrite <- !N.Div0.div_div.
  change (2 ^ 64) with 18446744073709551616 in Hx.
  pose proof (N.div_mod x 256 ltac:(done)) as H0.
  pose proof (N.mod_lt x 256 ltac:(done)) as H0'.
  set (q1 := x / 256) in *.
  pose proof (N.div_mod q1 256 ltac:(done)) as H1.
  pose proof (N.mod_lt q1 256 ltac:(done)) as H1'.
  set (q2 := q1 / 256) in *.
  pose proof (N.div_mod q2 256 ltac:(done)) as H2.
  pose proof (N.mod_lt q2 256 ltac:(done)) as H2'.
  set (q3 := q2 / 256) in *.
  pose proof (N.div_mod q3 256 ltac:(done)) as H3.
  pose proof (N.mod_lt q3 256 ltac:(done)) as H3'.
  set (q4 := q3 / 256) in *.
  pose proof (N.div_mod q4 256 ltac:(done)) as H4.
  pose proof (N.mod_lt q4 256 ltac:(done)) as H4'.
  set (q5 := q4 / 256) in *.
  pose proof (N.div_mod q5 256 ltac:(done)) as H5.
  pose proof (N.mod_lt q5 256 ltac:(done)) as H5'.
  set (q6 := q5 / 256) in *.
  pose proof (N.div_mod q6 256 ltac:(done)) as H6.
  pose proof (N.mod_lt q6 256 ltac:(done)) as H6'.
  set (q7 := q6 / 256) in *.
  pose proof (N.div_mod q7 256 ltac:(done)) as H7.
  pose proof (N.mod_lt q7 256 ltac:(done)) as H7'.
  set (q8 := q7 / 256) in *.
  clearbody q1 q2 q3 q4 q5 q6 q7 q8.
  generalize dependent (x mod 256). generalize dependent (q1 mod 256).
  generalize dependent (q2 mod 256). generalize dependent (q3 mod 256).
  generalize dependent (q4 mod 256). generalize dependent (q5 mod 256).
  generalize dependent (q6 mod 256). generalize dependent (q7 mod 256).
  intros.
  assert (q8 = 0) by lia.
  lia.
Qed.

Lemma leadingZeroBytes_le (p : bytes) : (gob.leadingZeroBytes p ≤ length p)%nat.
Proof. induction p as [|b p IH]; simpl; [lia|]. destruct (code b =? 0); simpl; lia. Qed.

Lemma fold_drop_leadingZero (p : bytes) :
  fold_left ustep (drop (gob.leadingZeroBytes p) p) 0 = fold_left ustep p 0.
Proof.
  induction p as [|b p IH]; simpl; [done|].
  destruct (code b =? 0) eqn:Hb; simpl; [|done].
  apply N.eqb_eq in Hb. rewrite ustep_add, Hb. simpl. done.
Qed.

Lemma leadingZeroBytes_all (p : bytes) :
  gob.leadingZeroBytes p = length p → fold_left ustep p 0 = 0.
Proof.
  induction p as [|b p IH]; simpl; [done|].
  destruct (code b =? 0) eqn:Hb; simpl; [|lia].
  apply N.eqb_eq in Hb. rewrite ustep_add, Hb. simpl. intros; apply IH; lia.
Qed.

Lemma encodeUint_nonempty (x : N) : ∃ b r, gob.encodeUint x = b :: r.
Proof. unfold gob.encodeUint. destruct (x <=? 127); eauto. Qed.

Lemma leadingZeroBytes_be8 (x : N) :
  x < 2 ^ 64 → 127 < x → (gob.leadingZeroBytes (gob.be8 x) < 8)%nat.
Proof.
  intros Hx Hbig.
  pose proof (leadingZeroBytes_le (gob.be8 x)) as Hle.
  change (length (gob.be8 x)) with 8%nat in Hle.
  destruct (decide (gob.leadingZeroBytes (gob.be8 x) = 8%nat)) as [Heq|Hne].
  - pose proof (leadingZeroBytes_all (gob.be8 x) Heq) as Hall.
    rewrite (fold_be8 x Hx) in Hall. subst x. by apply N.nlt_0_r in Hbig.
  - generalize dependent (gob.leadingZeroBytes (gob.be8 x)). intros; lia.
Qed.

Lemma decodeUint_encodeUint (x : N) (r : bytes) :
  x < 2 ^ 64 → gob.decodeUint (gob.encodeUint x ++ r) = Some (x, r).
Proof.
  intros Hx. unfold gob.encodeUint.
  destruct (x <=? 127) eqn:Hsmall.
  - apply N.leb_le in Hsmall. simpl.
    rewrite code_byte, N.mod_small by lia.
    apply N.leb_le in Hsmall. by rewrite Hsmall.
  - apply N.leb_gt in Hsmall.
    pose proof (leadingZeroBytes_be8 x Hx Hsmall) as Hbc.
    pose proof (fold_drop_leadingZero (gob.be8 x)) as Hfold.
    rewrite (fold_be8 x Hx) in Hfold.
    assert (length (gob.be8 x) = 8%nat) as Hlen by done.
    generalize dependent (gob.be8 x). intros buf Hbc Hfold Hlen.
    generalize dependent (gob.leadingZeroBytes buf). intros bc Hbc Hfold.
    cbn [gob.decodeUint app].
    rewrite code_byte.
    rewrite N.mod_small by lia.
    destruct (256 + N.of_nat bc - 8 <=? 127) eqn:Hc; [apply N.leb_le in Hc; lia|].
    replace (N.to_nat (256 - (256 + N.of_nat bc - 8))) with (8 - bc)%nat by lia.
    assert (length (drop bc buf) = (8 - bc)%nat) as Hd by (rewrite length_drop; lia).
    unfold gob.uint64Size.
    destruct (8 <? 8 - bc)%nat eqn:H8; [apply Nat.ltb_lt in H8; lia|].
    destruct (length (drop bc buf ++ r) <? 8 - bc)%nat eqn:Hl.
    { apply Nat.ltb_lt in Hl. rewrite length_app in Hl. lia. }
    rewrite take_app_length', drop_app_length' by done.
    do 2 f_equal. exact Hfold.
Qed.

Lemma encodeInt_nonneg (i : Z) :
  (0 ≤ i)%Z → gob.encodeInt i = gob.encodeUint (2 * Z.to_N i).
Proof.
  intros Hi. unfold gob.encodeInt.
  destruct (i <? 0)%Z eqn:Hneg; [apply Z.ltb_lt in Hneg; lia|].
  f_equal. rewrite Z.shiftl_mul_pow2 by lia. lia.
Qed.

Lemma encodeInt_neg (i : Z) :
  (i < 0)%Z → gob.encodeInt i = gob.encodeUint (2 * Z.to_N (- i - 1) + 1).
Proof.
  intros Hi. unfold gob.encodeInt.
  destruct (i <? 0)%Z eqn:Hneg; [|apply Z.ltb_ge in Hneg; lia].
  f_equal. unfold Z.lnot. replace (Z.pred (- i)) with (Z.of_N (Z.to_N (- i - 1))) by lia.
  set (a := Z.to_N (- i - 1)).
  change (Z.lor (Z.shiftl (Z.of_N a) 1) 1)
    with (Z.lor (Z.shiftl (Z.of_N a) (Z.of_N 1)) (Z.of_N 1)).
  rewrite <- N2Z.inj_shiftl, <- N2Z.inj_lor, N2Z.id.
  rewrite (lor_shiftl_add a 1 1) by done. lia.
Qed.

Lemma decodeInt_encodeInt (i : Z) (r : bytes) :
  (- 2 ^ 62 ≤ i < 2 ^ 62)%Z → gob.decodeInt (gob.encodeInt i ++ r) = Some (i, r).
Proof.
  intros Hi. unfold gob.decodeInt.
  destruct (decide (i < 0)%Z) as [Hneg|Hpos].
  - rewrite encodeInt_neg by done. set (a := Z.to_N (- i - 1)).
    assert (a < 2 ^ 62) by (unfold a; lia).
    rewrite decodeUint_encodeUint by (change (2 ^ 64) with (4 * 2 ^ 62); lia).
    simpl. rewrite N.testbit_odd_0. f_equal. f_equal.
    rewrite N.shiftr_div_pow2. change (2 ^ 1) with 2.
    replace ((2 * a + 1) / 2) with a.
    + unfold Z.lnot, a. lia.
    + apply (N.div_unique _ 2 a 1); lia.
  - rewrite encodeInt_nonneg by lia. set (a := Z.to_N i).
    assert (a < 2 ^ 62) by (unfold a; lia).
    rewrite decodeUint_encodeUint by (change (2 ^ 64) with (4 * 2 ^ 62); lia).
    simpl. rewrite N.testbit_even_0. f_equal. f_equal.
    rewrite N.shiftr_div_pow2. change (2 ^ 1) with 2.
    replace (2 * a / 2) with a.
    + unfold a. lia.
    + apply (N.div_unique _ 2 a 0); lia.
Qed.

Lemma length_bytes_of_string (s : string) : length (bytes_of_string s) = String.length s.
Proof. induction s; simpl; [done|by f_equal]. Qed.

Lemma decodeString_encodeString (s : string) (r : bytes) :
  N.of_nat (String.length s) < gob.tooBig →
  gob.decodeString (gob.encodeString s ++ r) = Some (s, r).
Proof.
  intros Hs. unfold gob.decodeString, gob.encodeString.
  unfold gob.tooBig in *.
  rewrite <- app_assoc, decodeUint_encodeUint
    by (eapply N.lt_trans; [exact Hs|done]).
  simpl.
  destruct (2 ^ 33 <=? N.of_nat (String.length s)) eqn:Hbig;
    [apply N.leb_le in Hbig; lia|].
  rewrite length_app, length_bytes_of_string.
  destruct (N.of_nat (String.length s + length r) <? N.of_nat (String.length s)) eqn:Hl;
    [apply N.ltb_lt in Hl; lia|].
  simpl. rewrite Nat2N.id.
  rewrite <- (length_bytes_of_string s).
  rewrite take_app_length, drop_app_length.
  by rewrite string_of_bytes_of_string.
Qed.

Lemma length_encodeUint_pos (x : N) : (0 < length (gob.encodeUint x))%nat.
Proof. destruct (encodeUint_nonempty x) as (b & r & ->). simpl. lia. Qed.

Section decodeStruct.
Context {A : Type} (ops : list (A → bytes → option (A * bytes))).

Lemma decodeStruct_end (fuel : nat) (fieldnum : Z) (a : A) (r : bytes) :
  gob.decodeStruct ops (S fuel) fieldnum a (gob.encodeUint 0 ++ r) = Some (a, r).
Proof. done. Qed.

Lemma decodeStruct_field (fuel : nat) (fieldnum : Z) (a : A) (delta : N) (r : bytes)
    (op : A → bytes → option (A * bytes)) (a' : A) (r' : bytes) :
  0 < delta < 2 ^ 63 →
  ops !! Z.to_nat (fieldnum + Z.of_N delta) = Some op →
  op a r = Some (a', r') →
  gob.decodeStruct ops (S fuel) fieldnum a (gob.encodeUint delta ++ r)
  = gob.decodeStruct ops fuel (fieldnum + Z.of_N delta) a' r'.
Proof.
  intros [Hpos Hlt] Hop Hrun.
  destruct (encodeUint_nonempty delta) as (b & t & Henc).
  rewrite Henc. cbn [gob.decodeStruct app].
  change (b :: t ++ r) with ((b :: t) ++ r). rewrite <- Henc.
  rewrite decodeUint_encodeUint
    by (eapply N.lt_trans; [exact Hlt|done]).
  cbn [mbind option_bind].
  destruct (delta =? 0) eqn:H0; [apply N.eqb_eq in H0; lia|].
  destruct (2 ^ 63 <=? delta) eqn:H63; [apply N.leb_le in H63; lia|].
  rewrite Hop, Hrun. done.
Qed.

Lemma decodeStruct_mono (fuel fuel' : nat) (fieldnum : Z) (a : A) (buf : bytes)
    (res : A * bytes) :
  (fuel ≤ fuel')%nat →
  gob.decodeStruct ops fuel fieldnum a buf = Some res →
  gob.decodeStruct ops fuel' fieldnum a buf = Some res.
Proof.
  revert fuel' fieldnum a buf.
  induction fuel as [|fuel IH]; intros fuel' fieldnum a buf Hle Hrun.
  - destruct buf; [|done]. by destruct fuel'.
  - destruct fuel' as [|fuel']; [lia|].
    destruct buf as [|b buf]; [done|].
    cbn [gob.decodeStruct] in *.
    destruct (gob.decodeUint (b :: buf)) as [[delta r]|]; [|done].
    cbn [mbind option_bind] in *.
    destruct (delta =? 0); [done|].
    destruct (2 ^ 63 <=? delta); [done|].
    destruct (ops !! Z.to_nat (fieldnum + Z.of_N delta)) as [op|]; [|done].
    destruct (op a r) as [[a' r']|]; [|done].
    cbn [mbind option_bind] in *. apply IH; [lia|done].
Qed.
End decodeStruct.

Lemma decodeStruct_nameId (fuel : nat) (name : string) (id : Z) (r : bytes) :
  N.of_nat (String.length name) < gob.tooBig →
  (- 2 ^ 62 ≤ id < 2 ^ 62)%Z →
  gob.decodeStruct gob.nameIdOps (S (S (S fuel))) (-1)
    (gob.Build_fieldType EmptyString 0) (gob.encodeNameId name id ++ r)
  = Some (gob.Build_fieldType name id, r).
Proof.
  intros Hname Hid. unfold gob.encodeNameId.
  rewrite <- !app_assoc.
  erewrite (decodeStruct_field gob.nameIdOps); [|done|reflexivity|]; last first.
  { cbn beta. rewrite decodeString_encodeString by done. reflexivity. }
  erewrite (decodeStruct_field gob.nameIdOps); [|done|reflexivity|]; last first.
  { cbn beta. rewrite decodeInt_encodeInt by done. reflexivity. }
  apply decodeStruct_end.
Qed.

Lemma length_encodeNameId (name : string) (id : Z) :
  (3 ≤ length (gob.encodeNameId name id))%nat.
Proof.
  unfold gob.encodeNameId. rewrite !length_app.
  pose proof (length_encodeUint_pos 1). pose proof (length_encodeUint_pos 0).
  unfold gob.encodeInt.
  pose proof (length_encodeUint_pos
    (Z.to_N (if (id <? 0)%Z then Z.lor (Z.shiftl (Z.lnot id) 1) 1 else Z.shiftl id 1))).
  lia.
Qed.

Lemma decodeNameId_encode (name : string) (id : Z) (r : bytes) :
  N.of_nat (String.length name) < gob.tooBig →
  (- 2 ^ 62 ≤ id < 2 ^ 62)%Z →
  gob.decodeNameId (gob.encodeNameId name id ++ r)
  = Some (gob.Build_fieldType name id, r).
Proof.
  intros Hname Hid. unfold gob.decodeNameId.
  apply (decodeStruct_mono gob.nameIdOps 3); [|by apply decodeStruct_nameId].
  rewrite length_app. pose proof (length_encodeNameId name id). lia.
Qed.



Lemma decodeStructType_encode (tid : Z) (r : bytes) :
  (- 2 ^ 62 ≤ tid < 2 ^ 62)%Z →
  gob.decodeStructType
    (gob.encodeUint 1 ++ gob.encodeNameId "kv" tid
       ++ gob.encodeUint 1 ++ gob.encodeUint 3
       ++ gob.encodeNameId "Key" gob.tString
       ++ gob.encodeNameId "Val" gob.tString
       ++ gob.encodeNameId "Opt" gob.tString
       ++ gob.encodeUint 0 ++ r)
  = Some (kvStructType tid, r).
Proof.
  intros Htid. unfold gob.decodeStructType.
  apply (decodeStruct_mono gob.structTypeOps 3).
  { rewrite !length_app.
    pose proof (length_encodeUint_pos 1). pose proof (length_encodeUint_pos 3).
    pose proof (length_encodeNameId "kv" tid). lia. }
  erewrite (decodeStruct_field gob.structTypeOps); [|done|reflexivity|]; last first.
  { cbn beta. rewrite decodeNameId_encode by done. reflexivity. }
  erewrite (decodeStruct_field gob.structTypeOps); [|done|reflexivity|]; last first.
  { cbn beta. rewrite decodeUint_encodeUint by done. cbn [mbind option_bind].
    change (gob.tooBig <? 8 * 3) with false. cbn iota.
    change (N.to_nat 3) with 3%nat. cbn [gob.decodeFields].
    repeat (rewrite decodeNameId_encode by done; cbn [mbind option_bind]).
    reflexivity. }
  apply decodeStruct_end.
Qed.

Lemma decodeWireType_encode (tid : Z) :
  (- 2 ^ 62 ≤ tid < 2 ^ 62)%Z →
  gob.decodeWireType (gob.encodeWireType tid)
  = Some (gob.Build_wireType (Some (kvStructType tid)), []).
Proof.
  intros Htid. unfold gob.decodeWireType, gob.encodeWireType.
  apply (decodeStruct_mono gob.wireTypeOps 2).
  { rewrite !length_app.
    pose proof (length_encodeUint_pos 3). pose proof (length_encodeUint_pos 1). lia. }
  rewrite <- !app_assoc.
  erewrite (decodeStruct_field gob.wireTypeOps); [|done|reflexivity|]; last first.
  { cbn beta. rewrite decodeStructType_encode by done. reflexivity. }
  rewrite <- (app_nil_r (gob.encodeUint 0)). apply decodeStruct_end.
Qed.


Lemma compile_kvFields : mapM gob.fieldOp kvFields = Some kvOps.
Proof. reflexivity. Qed.

Lemma matched_kvFields :
  forallb (λ f, negb (gob.isField (gob.fName f))) kvFields
  && (0 <? length kvFields)%nat = false.
Proof. reflexivity. Qed.

Lemma string_length_0 (s : string) : (0 <? String.length s)%nat = false → s = EmptyString.
Proof. by destruct s. Qed.

Ltac note_lengths :=
  repeat match goal with
    | |- context [length (gob.encodeUint ?x)] =>
        lazymatch goal with
        | _ : (0 < length (gob.encodeUint x))%nat |- _ => fail
        | _ => pose proof (length_encodeUint_pos x)
        end
    end.

Lemma decodeStruct_kv (e : kv) :
  N.of_nat (String.length (Key e)) < gob.tooBig →
  N.of_nat (String.length (Val e)) < gob.tooBig →
  N.of_nat (String.length (Opt e)) < gob.tooBig →
  gob.decodeStruct kvOps (length (gob.encodeStruct e)) (-1)
    (Build_kv EmptyString EmptyString EmptyString) (gob.encodeStruct e)
  = Some (e, []).
Proof.
  destruct e as [k v o]. cbn [Key Val Opt]. intros Hk Hv Ho.
  unfold gob.encodeStruct. cbn [fold_left Key Val Opt]. unfold gob.encodeField.
  destruct (0 <? String.length k)%nat eqn:Ek;
    [|apply string_length_0 in Ek; subst k];
  (destruct (0 <? String.length v)%nat eqn:Ev;
    [|apply string_length_0 in Ev; subst v]);
  (destruct (0 <? String.length o)%nat eqn:Eo;
    [|apply string_length_0 in Eo; subst o]).
  all: cbn -[gob.encodeUint gob.encodeString String.length gob.decodeStruct kvOps].
  all: rewrite <- ?app_assoc; rewrite <- (app_nil_r (gob.encodeUint 0)).
  all: try apply Nat.ltb_lt in Ek; try apply Nat.ltb_lt in Ev; try apply Nat.ltb_lt in Eo.
  all: match goal with
       | |- gob.decodeStruct _ ?f _ _ ?buf = _ =>
           first
             [ apply (decodeStruct_mono kvOps 4);
               [rewrite ?length_app; unfold gob.encodeString;
                rewrite ?length_app, ?length_bytes_of_string; note_lengths; lia|]
             | apply (decodeStruct_mono kvOps 1);
               [rewrite ?length_app; note_lengths; lia|] ]
       end.
  all: repeat (erewrite (decodeStruct_field kvOps);
               [|done|reflexivity
                |cbn beta; rewrite decodeString_encodeString by done; reflexivity]).
  all: apply decodeStruct_end.
Qed.

Lemma writeMessage_Some (body msg : bytes) :
  gob.writeMessage body = Some msg →
  N.of_nat (length body) < gob.tooBig
  ∧ msg = gob.encodeUint (N.of_nat (length body)) ++ body.
Proof.
  unfold gob.writeMessage.
  destruct (gob.tooBig <=? N.of_nat (length body)) eqn:Hbig; [done|].
  apply N.leb_gt in Hbig. by intros [= <-].
Qed.

Lemma recvMessage_writeMessage (body msg rest : bytes) :
  gob.writeMessage body = Some msg →
  gob.recvMessage (msg ++ rest) = Some (body, rest).
Proof.
  intros [Hlen ->]%writeMessage_Some. unfold gob.recvMessage.
  rewrite <- app_assoc.
  rewrite decodeUint_encodeUint
    by (eapply N.lt_trans; [exact Hlen|done]).
  cbn [mbind option_bind].
  destruct (gob.tooBig <=? N.of_nat (length body)) eqn:Hbig;
    [apply N.leb_le in Hbig; lia|].
  destruct (N.of_nat (length (body ++ rest)) <? N.of_nat (length body)) eqn:Hshort.
  { apply N.ltb_lt in Hshort. rewrite length_app in Hshort. lia. }
  cbn [orb]. rewrite Nat2N.id. by rewrite take_app_length, drop_app_length.
Qed.

Lemma length_encodeStruct_ge (e : kv) :
  (String.length (Key e) ≤ length (gob.encodeStruct e)
   ∧ String.length (Val e) ≤ length (gob.encodeStruct e)
   ∧ String.length (Opt e) ≤ length (gob.encodeStruct e))%nat.
Proof.
  destruct e as [k v o]. unfold gob.encodeStruct.
  cbn [fold_left Key Val Opt]. unfold gob.encodeField.
  destruct (0 <? String.length k)%nat eqn:Ek;
    [|apply string_length_0 in Ek; subst k];
  (destruct (0 <? String.length v)%nat eqn:Ev;
    [|apply string_length_0 in Ev; subst v]);
  (destruct (0 <? String.length o)%nat eqn:Eo;
    [|apply string_length_0 in Eo; subst o]).
  all: cbn -[gob.encodeUint gob.encodeString String.length].
  all: unfold gob.encodeString;
       rewrite ?length_app, ?length_bytes_of_string; cbn [String.length]; lia.
Qed.

(** Whatever [Encode] produces for an entry, [Decode] reads the entry back. *)
Lemma Decode_Encode (tid : Z) (e : kv) (b : bytes) :
  (64 ≤ tid < 2 ^ 31)%Z →
  gob.Encode tid e = Some b →
  gob.Decode b = Some e.
Proof.
  intros Htid. unfold gob.Encode.
  destruct (gob.writeMessage (gob.encodeInt (- tid) ++ gob.encodeWireType tid))
    as [m1|] eqn:Hm1; [|done].
  destruct (gob.writeMessage (gob.encodeInt tid ++ gob.encodeStruct e))
    as [m2|] eqn:Hm2; [|done].
  cbn [mbind option_bind]. intros [= <-].
  assert (N.of_nat (length (gob.encodeStruct e)) < gob.tooBig) as Hlen.
  { apply writeMessage_Some in Hm2 as [Hlen _]. rewrite length_app in Hlen. lia. }
  destruct (length_encodeStruct_ge e) as (Hk & Hv & Ho).
  unfold gob.Decode.
  assert (∃ f, length (m1 ++ m2) = S f) as [f ->].
  { apply writeMessage_Some in Hm1 as [_ ->].
    destruct (encodeUint_nonempty
                (N.of_nat (length (gob.encodeInt (- tid) ++ gob.encodeWireType tid))))
      as (c & t & ->). simpl. eauto. }
  cbn [gob.decodeTypeSequence].
  rewrite (recvMessage_writeMessage _ _ _ Hm1). cbn [mbind option_bind].
  rewrite decodeInt_encodeInt by lia. cbn [mbind option_bind].
  destruct (0 <=? - tid)%Z eqn:Hsign; [apply Z.leb_le in Hsign; lia|].
  rewrite Z.opp_involutive.
  destruct (tid <? gob.firstUserId)%Z eqn:Hfirst;
    [apply Z.ltb_lt in Hfirst; unfold gob.firstUserId in Hfirst; lia|].
  cbn [orb list_find bool_decide decide_rel]. 
  rewrite bool_decide_eq_false_2 by (by intros [? ?]).
  rewrite decodeWireType_encode by lia. cbn [mbind option_bind].
  rewrite <- (app_nil_r m2).
  rewrite (recvMessage_writeMessage _ _ _ Hm2). cbn [mbind option_bind].
  rewrite <- (app_nil_r (gob.encodeInt tid ++ gob.encodeStruct e)), <- app_assoc.
  rewrite decodeInt_encodeInt by lia. cbn [mbind option_bind].
  destruct (0 <=? tid)%Z eqn:Hsign'; [|apply Z.leb_gt in Hsign'; lia].
  rewrite app_nil_r. cbn [mbind option_bind].
  unfold gob.compileDec. rewrite Hfirst.
  cbn [list_find fst]. rewrite decide_True by done.
  cbn [fmap option_fmap option_map snd mbind option_bind gob.StructT
       kvStructType gob.sField].
  rewrite compile_kvFields. cbn [mbind option_bind].
  rewrite matched_kvFields. cbn [mbind option_bind].
  rewrite decodeStruct_kv by lia. done.
Qed.

(** A sender whose struct has one more field, of type int, before the
    three the store knows: the decoder skips it. *)
Example Decode_skips_field :
  let wire :=
    gob.encodeUint 3
      ++ (gob.encodeUint 1 ++ gob.encodeNameId "kv" 65
          ++ gob.encodeUint 1 ++ gob.encodeUint 4
             ++ gob.encodeNameId "Rev" gob.tInt
             ++ gob.encodeNameId "Key" gob.tString
             ++ gob.encodeNameId "Val" gob.tString
             ++ gob.encodeNameId "Opt" gob.tString
          ++ gob.encodeUint 0)
      ++ gob.encodeUint 0 in
  let value :=
    gob.encodeUint 1 ++ gob.encodeInt 7
      ++ gob.encodeUint 1 ++ gob.encodeString "a"
      ++ gob.encodeUint 2 ++ gob.encodeString "SET"
      ++ gob.encodeUint 0 in
  (m1 ← gob.writeMessage (gob.encodeInt (- 65) ++ wire);
   m2 ← gob.writeMessage (gob.encodeInt 65 ++ value);
   gob.Decode (m1 ++ m2))
  = Some (Build_kv "a" EmptyString "SET").
Proof. vm_compute. reflexivity. Qed.

(** A sender whose struct shares no field with [kv] is refused. *)
Example Decode_no_field_matched :
  let wire :=
    gob.encodeUint 3
      ++ (gob.encodeUint 1 ++ gob.encodeNameId "kv" 65
          ++ gob.encodeUint 1 ++ gob.encodeUint 1
             ++ gob.encodeNameId "Rev" gob.tInt
          ++ gob.encodeUint 0)
      ++ gob.encodeUint 0 in
  (m1 ← gob.writeMessage (gob.encodeInt (- 65) ++ wire);
   m2 ← gob.writeMessage (gob.encodeInt 65 ++ gob.encodeUint 1 ++ gob.encodeInt 7
                            ++ gob.encodeUint 0);
   gob.Decode (m1 ++ m2))
  = None.
Proof. vm_compute. reflexivity. Qed.

(** ** UTF-8 and the JSON text of a table *)

Lemma checkFirst_true : checkFirst = true.
Proof. vm_compute. reflexivity. Qed.
Lemma check2_true : check2 = true.
Proof. vm_compute. reflexivity. Qed.
Lemma check3_true : check3 = true.
Proof. vm_compute. reflexivity. Qed.
Lemma check4_true : check4 = true.
Proof. vm_compute. reflexivity. Qed.
Lemma checkCont_true : checkCont = true.
Proof. vm_compute. reflexivity. Qed.

Lemma allBytes_forall (f : N → bool) :
  forallb f allBytes = true → ∀ b, b < 256 → f b = true.
Proof.
  intros Hall b Hb. rewrite forallb_forall in Hall. apply Hall.
  unfold allBytes. apply in_map_iff. exists (N.to_nat b). split; [lia|].
  apply in_seq. lia.
Qed.

Lemma eqNs_eq (l1 l2 : list N) : eqNs l1 l2 = true → l1 = l2.
Proof.
  revert l2. induction l1 as [|x l1 IH]; intros [|y l2]; simpl; try done.
  intros [Hx Hl]%andb_true_iff. apply N.eqb_eq in Hx. f_equal; auto.
Qed.

Lemma shiftr_lor_shiftl (R D : N) :
  D < 64 → N.shiftr (N.lor (N.shiftl R 6) D) 6 = R.
Proof.
  intros HD. rewrite N.shiftr_lor, N.shiftr_shiftl_l by done.
  rewrite N.sub_diag, N.shiftl_0_r.
  rewrite (N.shiftr_eq_0 D 6); [by rewrite N.lor_0_r|].
  destruct (decide (D = 0)) as [->|]; [done|].
  apply N.log2_lt_pow2; [lia|done].
Qed.

Lemma land_lor_shiftl_low (R D : N) :
  D < 64 → N.land (N.lor (N.shiftl R 6) D mod 256) utf8.maskx = D.
Proof.
  intros HD. change 256 with (2 ^ 8). rewrite <- N.land_ones.
  rewrite <- N.land_assoc. change (N.land (N.ones 8) utf8.maskx) with (N.ones 6).
  rewrite N.land_lor_distr_l, !N.land_ones.
  rewrite N.shiftl_mul_pow2, N.Div0.mod_mul, N.lor_0_l.
  by apply N.mod_small.
Qed.

(** The encoding of a four-byte rune, from its high part and the six
    bits of its last byte. *)
Lemma encodeRuneN_four (R D : N) :
  0x400 ≤ R → R ≤ 0x43FF → D < 64 →
  encodeRuneN (N.lor (N.shiftl R 6) D)
  = [ N.lor utf8.t4 (N.shiftr R 12 mod 256);
      N.lor utf8.tx (N.land (N.shiftr R 6 mod 256) utf8.maskx);
      N.lor utf8.tx (N.land (R mod 256) utf8.maskx);
      N.lor utf8.tx D ].
Proof.
  intros Hlo Hhi HD.
  pose proof (shiftr_lor_shiftl R D HD) as Hshr.
  pose proof (land_lor_shiftl_low R D HD) as Hland.
  assert (N.lor (N.shiftl R 6) D = R * 64 + D) as Hval
    by (by rewrite (lor_shiftl_add R D 6)).
  unfold encodeRuneN.
  replace (N.shiftr (N.lor (N.shiftl R 6) D) 18)
    with (N.shiftr (N.shiftr (N.lor (N.shiftl R 6) D) 6) 12)
    by (by rewrite N.shiftr_shiftr).
  replace (N.shiftr (N.lor (N.shiftl R 6) D) 12)
    with (N.shiftr (N.shiftr (N.lor (N.shiftl R 6) D) 6) 6)
    by (by rewrite N.shiftr_shiftr).
  rewrite Hshr, Hland.
  generalize dependent (N.lor (N.shiftl R 6) D). intros r _ _ ->.
  unfold utf8.rune1Max, utf8.rune2Max, utf8.rune3Max, utf8.MaxRune,
    utf8.surrogateMin, utf8.surrogateMax.
  destruct (R * 64 + D <=? 127) eqn:H1; [apply N.leb_le in H1; lia|].
  destruct (R * 64 + D <=? 2047) eqn:H2; [apply N.leb_le in H2; lia|].
  destruct (1114111 <? R * 64 + D) eqn:H3; [apply N.ltb_lt in H3; lia|].
  destruct (R * 64 + D <=? 57343) eqn:H4; [apply N.leb_le in H4; lia|].
  rewrite andb_false_r. cbn [orb].
  destruct (R * 64 + D <=? 65535) eqn:H5; [apply N.leb_le in H5; lia|].
  done.
Qed.

Lemma rune4_split (p0 b1 b2 b3 : N) :
  N.lor (N.lor (N.lor (N.shiftl (N.land p0 utf8.mask4) 18)
                      (N.shiftl (N.land b1 utf8.maskx) 12))
               (N.shiftl (N.land b2 utf8.maskx) 6))
        (N.land b3 utf8.maskx)
  = N.lor (N.shiftl (rune4hi p0 b1 b2) 6) (N.land b3 utf8.maskx).
Proof.
  unfold rune4hi. rewrite !N.shiftl_lor, !N.shiftl_shiftl. done.
Qed.

Lemma land_maskx_lt (b : N) : N.land b utf8.maskx < 64.
Proof.
  change utf8.maskx with (N.ones 6). rewrite N.land_ones. by apply N.mod_lt.
Qed.

Lemma DecodeRune_decodeRune4 (p : bytes) :
  utf8.DecodeRune p
  = decodeRune4 (length p) (at_ p 0) (at_ p 1) (at_ p 2) (at_ p 3).
Proof. reflexivity. Qed.

Lemma isCont_ge (b : N) : isCont b = true → 0x80 ≤ b.
Proof.
  unfold isCont, utf8.locb. intros [H1 _]%negb_true_iff%orb_false_iff.
  by apply N.ltb_ge in H1.
Qed.

Lemma decodeRune4_decoded (n : nat) (p0 b1 b2 b3 r : N) (size : nat) :
  p0 < 256 → b1 < 256 → b2 < 256 → b3 < 256 →
  decodeRune4 n p0 b1 b2 b3 = (r, size) →
  isError (r, size) = false →
  (1 ≤ n)%nat →
  decoded n p0 b1 b2 b3 r size.
Proof.
  intros H0 H1 H2 H3 Hdec Herr Hn.
  pose proof (allBytes_forall _ checkFirst_true p0 H0) as Hfirst.
  cbv beta in Hfirst.
  unfold decodeRune4 in Hdec.
  destruct (n <? 1)%nat eqn:En; [apply Nat.ltb_lt in En; lia|].
  cbv zeta in Hdec.
  destruct (utf8.as_ <=? utf8.first p0) eqn:Eas.
  - (* one byte *)
    destruct (N.testbit (utf8.first p0) 0) eqn:Ebit.
    { injection Hdec as <- <-. done. }
    injection Hdec as <- <-. cbn [orb] in Hfirst.
    apply N.ltb_lt in Hfirst.
    split; cbn [take]; [lia|lia|..].
    + unfold encodeRuneN, utf8.rune1Max.
      destruct (p0 <=? 127) eqn:E; [done|apply N.leb_gt in E; exfalso; lia].
    + intros; exfalso; lia.
    + done.
    + intros n' c1 c2 c3 Hn' _. unfold decodeRune4.
      destruct (n' <? 1)%nat eqn:En'; [apply Nat.ltb_lt in En'; lia|].
      cbv zeta. by rewrite Eas, Ebit.
  - (* several bytes *)
    apply andb_true_iff in Hfirst as [Hfirst Hacc].
    apply andb_true_iff in Hfirst as [Hfirst Hsz4].
    apply andb_true_iff in Hfirst as [Hhigh Hsz2].
    apply N.leb_le in Hhigh. apply Nat.leb_le in Hsz2, Hsz4.
    fold (size_of p0) in Hdec.
    destruct (n <? size_of p0)%nat eqn:Efit; [by injection Hdec as <- <-|].
    apply Nat.ltb_ge in Efit.
    pose proof (allBytes_forall _ Hacc b1 H1) as Hcont1. cbv beta in Hcont1.
    unfold inAccept in Hcont1. cbv zeta in Hcont1.
    destruct ((b1 <? (utf8.acceptRanges (N.shiftr (utf8.first p0) 4)).1)
              || ((utf8.acceptRanges (N.shiftr (utf8.first p0) 4)).2 <? b1)) eqn:Eacc;
      [by injection Hdec as <- <-|].
    cbn [negb implb] in Hcont1. apply isCont_ge in Hcont1.
    destruct (size_of p0 <=? 2)%nat eqn:E2.
    { (* two bytes *)
      injection Hdec as <- <-.
      pose proof (allBytes_forall _ check2_true p0 H0) as Hc2. cbv beta in Hc2.
      rewrite Eas, E2 in Hc2. cbn [negb orb] in Hc2.
      pose proof (allBytes_forall _ Hc2 b1 H1) as Henc. cbv beta in Henc.
      unfold inAccept in Henc. cbv zeta in Henc.
      rewrite Eacc in Henc. cbn [negb implb] in Henc. apply eqNs_eq in Henc.
      clear Hc2 Hacc. apply Nat.leb_le in E2.
      split; cbn [take]; [lia|lia|..].
      - exact Henc.
      - intros _. repeat constructor; done.
      - intros; exfalso; lia.
      - intros n' c1 c2 c3 Hn' [= ->]. unfold decodeRune4.
        destruct (n' <? 1)%nat eqn:En'; [apply Nat.ltb_lt in En'; lia|].
        cbv zeta. rewrite Eas. fold (size_of p0).
        destruct (n' <? size_of p0)%nat eqn:Efit';
          [apply Nat.ltb_lt in Efit'; lia|].
        rewrite Eacc. apply Nat.leb_le in E2. by rewrite E2. }
    destruct ((b2 <? utf8.locb) || (utf8.hicb <? b2)) eqn:Ec2;
      [by injection Hdec as <- <-|].
    assert (isCont b2 = true) as Hcont2 by (unfold isCont; by rewrite Ec2).
    pose proof (isCont_ge b2 Hcont2) as Hge2.
    destruct (size_of p0 <=? 3)%nat eqn:E3.
    { (* three bytes *)
      injection Hdec as <- <-.
      pose proof (allBytes_forall _ check3_true p0 H0) as Hc3. cbv beta in Hc3.
      rewrite Eas, E2, E3 in Hc3. cbn [negb orb] in Hc3.
      pose proof (allBytes_forall _ Hc3 b1 H1) as Henc. cbv beta in Henc.
      unfold inAccept in Henc. cbv zeta in Henc.
      rewrite Eacc in Henc. cbn [negb] in Henc.
      pose proof (allBytes_forall _ Henc b2 H2) as Henc2. cbv beta in Henc2.
      rewrite Hcont2 in Henc2. cbn [implb] in Henc2. apply eqNs_eq in Henc2.
      clear Hc3 Henc Hacc. apply Nat.leb_le in E3.
      assert (2 < size_of p0)%nat as Hgt2 by (by apply Nat.leb_gt).
      split; cbn [take]; [lia|lia|..].
      - exact Henc2.
      - intros _. repeat constructor; done.
      - intros; exfalso; lia.
      - intros n' c1 c2 c3 Hn' [= -> ->]. unfold decodeRune4.
        destruct (n' <? 1)%nat eqn:En'; [apply Nat.ltb_lt in En'; lia|].
        cbv zeta. rewrite Eas. fold (size_of p0).
        destruct (n' <? size_of p0)%nat eqn:Efit';
          [apply Nat.ltb_lt in Efit'; lia|].
        rewrite Eacc, E2, Ec2. apply Nat.leb_le in E3. by rewrite E3. }
    destruct ((b3 <? utf8.locb) || (utf8.hicb <? b3)) eqn:Ec3;
      [by injection Hdec as <- <-|].
    assert (isCont b3 = true) as Hcont3 by (unfold isCont; by rewrite Ec3).
    pose proof (isCont_ge b3 Hcont3) as Hge3.
    (* four bytes *)
    injection Hdec as <- <-.
    pose proof (allBytes_forall _ check4_true p0 H0) as Hc4. cbv beta in Hc4.
    rewrite Eas, E3 in Hc4. cbn [orb] in Hc4.
    pose proof (allBytes_forall _ Hc4 b1 H1) as Henc. cbv beta in Henc.
    unfold inAccept in Henc. cbv zeta in Henc.
    rewrite Eacc in Henc. cbn [negb] in Henc.
    pose proof (allBytes_forall _ Henc b2 H2) as Henc2. cbv beta in Henc2.
    rewrite Hcont2 in Henc2. cbn [implb] in Henc2. cbv zeta in Henc2.
    apply andb_true_iff in Henc2 as [Hrange Hbytes].
    apply andb_true_iff in Hrange as [Hlo Hhi].
    apply N.leb_le in Hlo, Hhi. apply eqNs_eq in Hbytes.
    pose proof (allBytes_forall _ checkCont_true b3 H3) as Hlast. cbv beta in Hlast.
    rewrite Hcont3 in Hlast. cbn [implb] in Hlast. apply N.eqb_eq in Hlast.
    clear Hc4 Henc Hacc.
    assert (3 < size_of p0)%nat as Hgt3 by (by apply Nat.leb_gt).
    split; cbn [take]; [lia|lia|..].
    + rewrite rune4_split.
      rewrite (encodeRuneN_four _ _ Hlo Hhi (land_maskx_lt b3)).
      injection Hbytes as -> -> ->. by rewrite Hlast.
    + intros _. repeat constructor; done.
    + intros; exfalso; lia.
    + intros n' c1 c2 c3 Hn' [= -> -> ->]. unfold decodeRune4.
      destruct (n' <? 1)%nat eqn:En'; [apply Nat.ltb_lt in En'; lia|].
      cbv zeta. rewrite Eas. fold (size_of p0).
      destruct (n' <? size_of p0)%nat eqn:Efit';
        [apply Nat.ltb_lt in Efit'; lia|].
      by rewrite Eacc, E2, Ec2, E3, Ec3.
Qed.

Lemma EncodeRune_encodeRuneN (r : N) : utf8.EncodeRune r = byte <$> encodeRuneN r.
Proof.
  unfold utf8.EncodeRune, encodeRuneN.
  repeat match goal with |- context [if ?c then _ else _] => destruct c end; done.
Qed.

Lemma DecodeRune_decodedAt (p : bytes) (r : N) (size : nat) :
  p ≠ [] →
  utf8.DecodeRune p = (r, size) →
  isError (r, size) = false →
  decodedAt p r size.
Proof.
  intros Hp Hdec Herr. rewrite DecodeRune_decodeRune4 in Hdec.
  assert (1 ≤ length p)%nat as Hlen by (destruct p; [done|simpl; lia]).
  destruct (decodeRune4_decoded _ _ _ _ _ _ _
              (code_lt _) (code_lt _) (code_lt _) (code_lt _) Hdec Herr Hlen)
    as [Hsize Hfits Henc Hhigh Hascii Hlocal].
  assert (take size p
          = byte <$> take size [at_ p 0; at_ p 1; at_ p 2; at_ p 3]) as Htake.
  { destruct p as [|a0 [|a1 [|a2 [|a3 p']]]]; simpl in Hfits |- *;
      destruct size as [|[|[|[|[|?]]]]]; simpl; unfold at_; simpl;
      rewrite ?byte_code; try done; lia. }
  split.
  - lia.
  - by rewrite EncodeRune_encodeRuneN, Henc.
  - intros Hge. rewrite Htake. apply Forall_fmap.
    assert (Forall (λ b, b < 256) (take size [at_ p 0; at_ p 1; at_ p 2; at_ p 3]))
      as Hall by (apply Forall_take; repeat constructor; apply code_lt).
    pose proof (proj2 (Forall_and _ _) (conj (Hhigh Hge) Hall)) as Hboth.
    eapply Forall_impl; [exact Hboth|].
    intros b [Hb Hlt]. simpl. by rewrite code_byte, N.mod_small.
  - exact Hascii.
  - intros t. rewrite DecodeRune_decodeRune4.
    assert (at_ (take size p ++ t) 0 = at_ p 0) as ->.
    { destruct p; [done|]. destruct size; [lia|]. done. }
    apply Hlocal.
    + rewrite length_app, length_take. lia.
    + destruct p as [|a0 [|a1 [|a2 [|a3 p']]]]; simpl in Hfits |- *;
        destruct size as [|[|[|[|[|?]]]]]; simpl; unfold at_; simpl;
        try done; lia.
Qed.

Lemma string_go_chunk (fuel : nat) (b0 : ascii) (rest : bytes) :
  json.string_go (S fuel) (b0 :: rest)
  = (chunk (b0 :: rest)).1
      ++ json.string_go fuel (drop (chunk (b0 :: rest)).2 (b0 :: rest)).
Proof.
  cbn [json.string_go chunk]. unfold asciiOut. cbv zeta.
  destruct (code b0 <? utf8.RuneSelf).
  - destruct ((32 <=? code b0) && negb (code b0 =? 92) && negb (code b0 =? 34)
              && negb (code b0 =? 60) && negb (code b0 =? 62)
              && negb (code b0 =? 38)); [done|].
    done.
  - destruct (utf8.DecodeRune (b0 :: rest)) as [c size].
    destruct ((c =? utf8.RuneError) && (size =? 1)%nat); [done|].
    destruct ((c =? 8232) || (c =? 8233)); done.
Qed.

Lemma scanned_nil : scanned [].
Proof. intros t. cbn [app]. by destruct (json.scanString t) as [[??]|]. Qed.

Lemma scanned_app (q1 q2 : bytes) : scanned q1 → scanned q2 → scanned (q1 ++ q2).
Proof.
  intros H1 H2 t. rewrite <- app_assoc, H1, H2.
  destruct (json.scanString t) as [[??]|]; simpl; [|done].
  by rewrite app_assoc.
Qed.

Lemma scanned_high (b : ascii) : 0x80 ≤ code b → scanned [b].
Proof.
  intros Hb t. cbn [app json.scanString].
  destruct (code b =? 34) eqn:E1; [apply N.eqb_eq in E1; lia|].
  destruct (code b =? 92) eqn:E2; [apply N.eqb_eq in E2; lia|].
  destruct (code b <? 32) eqn:E3; [apply N.ltb_lt in E3; lia|].
  done.
Qed.

Lemma scanned_Forall_high (q : bytes) :
  Forall (λ b, 0x80 ≤ code b) q → scanned q.
Proof.
  induction 1 as [|b q Hb _ IH]; [apply scanned_nil|].
  apply (scanned_app [b] q); [by apply scanned_high|done].
Qed.

Lemma scanned_asciiOut (b0 : ascii) : code b0 < 0x80 → scanned (asciiOut b0).
Proof.
  destruct b0 as [[] [] [] [] [] [] [] []]; intros Hlt t;
    try (by vm_compute in Hlt);
    cbn; by destruct (json.scanString t) as [[??]|].
Qed.

Lemma unquote_asciiOut (b0 : ascii) (fuel : nat) (t : bytes) :
  code b0 < 0x80 →
  json.unquote_go (S fuel) (asciiOut b0 ++ t) = (b0 ::.) <$> json.unquote_go fuel t.
Proof.
  destruct b0 as [[] [] [] [] [] [] [] []]; intros Hlt;
    try (by vm_compute in Hlt); reflexivity.
Qed.

Lemma chunk_size (s : bytes) :
  s ≠ [] → headValid s → (1 ≤ (chunk s).2 ≤ length s)%nat.
Proof.
  intros Hs Hv. destruct s as [|b0 rest]; [done|]. unfold chunk.
  destruct (code b0 <? utf8.RuneSelf); [simpl; lia|].
  unfold headValid in Hv.
  destruct (utf8.DecodeRune (b0 :: rest)) as [c size] eqn:Hdec.
  destruct (DecodeRune_decodedAt _ _ _ Hs Hdec Hv) as [Hsize _ _ _ _].
  unfold isError in Hv. cbn [fst snd] in Hv. rewrite Hv.
  by destruct ((c =? 8232) || (c =? 8233)).
Qed.

Lemma chunk_nonempty (s : bytes) :
  s ≠ [] → headValid s → (1 ≤ length (chunk s).1)%nat.
Proof.
  intros Hs Hv. destruct s as [|b0 rest]; [done|]. unfold chunk.
  destruct (code b0 <? utf8.RuneSelf).
  { unfold asciiOut. cbv zeta.
    repeat match goal with |- context [if ?c then _ else _] => destruct c end;
      simpl; lia. }
  unfold headValid in Hv.
  destruct (utf8.DecodeRune (b0 :: rest)) as [c size] eqn:Hdec.
  destruct (DecodeRune_decodedAt _ _ _ Hs Hdec Hv) as [Hsize _ _ _ _].
  unfold isError in Hv. cbn [fst snd] in Hv. rewrite Hv.
  destruct ((c =? 8232) || (c =? 8233)); [simpl; lia|].
  cbn [fst]. rewrite length_take. lia.
Qed.

Lemma chunk_scanned (s : bytes) : headValid s → scanned (chunk s).1.
Proof.
  intros Hv. destruct s as [|b0 rest]; [apply scanned_nil|]. unfold chunk.
  destruct (code b0 <? utf8.RuneSelf) eqn:Hascii.
  { apply N.ltb_lt in Hascii. by apply scanned_asciiOut. }
  apply N.ltb_ge in Hascii.
  unfold headValid in Hv.
  destruct (utf8.DecodeRune (b0 :: rest)) as [c size] eqn:Hdec.
  destruct (DecodeRune_decodedAt (b0 :: rest) c size ltac:(done) Hdec Hv) as [_ _ Hhigh _ _].
  unfold isError in Hv. cbn [fst snd] in Hv. rewrite Hv.
  destruct ((c =? 8232) || (c =? 8233)) eqn:Hsep.
  - apply orb_true_iff in Hsep as [->%N.eqb_eq| ->%N.eqb_eq];
      intros t; cbn; by destruct (json.scanString t) as [[??]|].
  - cbn [fst]. apply scanned_Forall_high, Hhigh. exact Hascii.
Qed.

Lemma chunk_unquote (s : bytes) (fuel : nat) (t : bytes) :
  s ≠ [] → headValid s →
  json.unquote_go (S fuel) ((chunk s).1 ++ t)
  = (take (chunk s).2 s ++.) <$> json.unquote_go fuel t.
Proof.
  intros Hs Hv. destruct s as [|b0 rest]; [done|]. unfold chunk.
  destruct (code b0 <? utf8.RuneSelf) eqn:Hascii.
  { apply N.ltb_lt in Hascii. cbn [fst snd take]. by apply unquote_asciiOut. }
  apply N.ltb_ge in Hascii. unfold utf8.RuneSelf in Hascii.
  unfold headValid in Hv.
  destruct (utf8.DecodeRune (b0 :: rest)) as [c size] eqn:Hdec.
  destruct (DecodeRune_decodedAt (b0 :: rest) c size ltac:(done) Hdec Hv)
    as [Hsize Henc _ _ Hlocal].
  unfold isError in Hv. cbn [fst snd] in Hv. rewrite Hv.
  destruct ((c =? 8232) || (c =? 8233)) eqn:Hsep.
  - cbn [fst snd]. rewrite <- Henc.
    apply orb_true_iff in Hsep as [->%N.eqb_eq| ->%N.eqb_eq]; reflexivity.
  - cbn [fst snd].
    destruct size as [|size]; [lia|]. cbn [take app json.unquote_go].
    destruct (code b0 =? 92) eqn:E1; [apply N.eqb_eq in E1; lia|].
    destruct (code b0 =? 34) eqn:E2; [apply N.eqb_eq in E2; lia|].
    destruct (code b0 <? 32) eqn:E3; [apply N.ltb_lt in E3; lia|].
    destruct (code b0 <? utf8.RuneSelf) eqn:E4;
      [apply N.ltb_lt in E4; unfold utf8.RuneSelf in E4; lia|].
    cbn [orb].
    change (b0 :: take size rest ++ t) with (take (S size) (b0 :: rest) ++ t).
    rewrite Hlocal, Henc.
    rewrite drop_app_length'; [done|].
    rewrite length_take. lia.
Qed.

Lemma chunk_consumes (s : bytes) :
  s ≠ [] → headValid s → (chunk s).2 = (utf8.DecodeRune s).2.
Proof.
  intros Hs Hv. destruct s as [|b0 rest]; [done|]. unfold chunk.
  unfold headValid in Hv.
  destruct (utf8.DecodeRune (b0 :: rest)) as [c size] eqn:Hdec.
  destruct (DecodeRune_decodedAt (b0 :: rest) c size ltac:(done) Hdec Hv)
    as [_ _ _ Hascii _].
  destruct (code b0 <? utf8.RuneSelf) eqn:E.
  { apply N.ltb_lt in E. by destruct (Hascii E) as [_ ->]. }
  unfold isError in Hv. cbn [fst snd] in Hv. rewrite Hv.
  by destruct ((c =? 8232) || (c =? 8233)).
Qed.

Lemma valid_go_cons (n : nat) (b0 : ascii) (rest : bytes) :
  utf8.valid_go (S n) (b0 :: rest) = true →
  headValid (b0 :: rest)
  ∧ utf8.valid_go n (drop (utf8.DecodeRune (b0 :: rest)).2 (b0 :: rest)) = true.
Proof.
  cbn [utf8.valid_go]. unfold headValid, isError.
  destruct (utf8.DecodeRune (b0 :: rest)) as [c size]. cbn [fst snd].
  by destruct ((c =? utf8.RuneError) && (size =? 1)%nat).
Qed.

(** The body that [string_go] writes for well-formed UTF-8 is passed over
    whole by the scanner and unquoted to the bytes it was written from. *)
Lemma string_go_round (n : nat) (p : bytes) :
  (length p ≤ n)%nat →
  utf8.valid_go n p = true →
  scanned (json.string_go n p)
  ∧ ∀ fuel, (length (json.string_go n p) ≤ fuel)%nat →
            json.unquote_go fuel (json.string_go n p) = Some p.
Proof.
  revert p. induction n as [|n IH]; intros p Hlen Hvalid.
  { destruct p; [|simpl in Hlen; lia]. split; [apply scanned_nil|].
    by intros [|fuel]. }
  destruct p as [|b0 rest].
  { split; [apply scanned_nil|]. by intros [|fuel]. }
  apply valid_go_cons in Hvalid as [Hhead Hrest].
  rewrite <- (chunk_consumes (b0 :: rest)) in Hrest by done.
  pose proof (chunk_size (b0 :: rest) ltac:(done) Hhead) as Hsize.
  pose proof (chunk_nonempty (b0 :: rest) ltac:(done) Hhead) as Hne.
  rewrite string_go_chunk.
  destruct (IH (drop (chunk (b0 :: rest)).2 (b0 :: rest))) as [Hscan Hunq].
  { rewrite length_drop. cbn [length] in Hlen, Hsize |- *.
    generalize dependent (chunk (b0 :: rest)).2. intros; lia. }
  { exact Hrest. }
  split.
  - apply scanned_app; [by apply chunk_scanned|done].
  - intros fuel Hfuel. rewrite length_app in Hfuel.
    destruct fuel as [|fuel];
      [exfalso; generalize dependent (length (chunk (b0 :: rest)).1); intros; lia|].
    rewrite chunk_unquote by done.
    rewrite Hunq
      by (generalize dependent (length (chunk (b0 :: rest)).1); intros; lia).
    cbn [fmap option_fmap option_map].
    by rewrite take_drop.
Qed.

Lemma valid_of_ValidString (s : string) :
  utf8.ValidString s = true →
  utf8.valid_go (length (bytes_of_string s)) (bytes_of_string s) = true.
Proof. done. Qed.

(** A string literal written by [encodeString] for a well-formed string
    is read back by [parseString]. *)
Lemma parseString_encodeString (s : string) (t : bytes) :
  utf8.ValidString s = true →
  json.parseString (json.encodeString s ++ t) = Some (s, t).
Proof.
  intros Hv. unfold json.encodeString. cbv zeta.
  destruct (string_go_round _ _ (Nat.le_refl _) (valid_of_ValidString s Hv))
    as [Hscan Hunq].
  cbn [app json.parseString].
  change (code json.dquote =? 34) with true. cbn iota.
  rewrite <- app_assoc, Hscan. cbn [app json.scanString].
  change (code json.dquote =? 34) with true. cbn iota.
  cbn [fmap option_fmap option_map prod_map fst snd mbind option_bind id].
  rewrite app_nil_r. unfold json.unquote. rewrite Hunq by done.
  cbn [mbind option_bind]. by rewrite string_of_bytes_of_string.
Qed.

Lemma parseElem_dquote (x : bytes) :
  json.parseElem (json.dquote :: x) = json.parseString (json.dquote :: x).
Proof. destruct x as [|c1 [|c2 [|c3 rest]]]; reflexivity. Qed.

Lemma parseElem_string (s : string) (t : bytes) :
  utf8.ValidString s = true →
  json.parseElem (json.encodeString s ++ t) = Some (s, t).
Proof.
  intros Hv. rewrite <- (parseString_encodeString s t Hv).
  unfold json.encodeString. cbv zeta. cbn [app]. apply parseElem_dquote.
Qed.

Lemma skipSpace_encodeString (s : string) (t : bytes) :
  json.skipSpace (json.encodeString s ++ t) = json.encodeString s ++ t.
Proof. reflexivity. Qed.

Lemma encodeString_cons (s : string) :
  ∃ q, json.encodeString s = json.dquote :: q.
Proof. unfold json.encodeString. cbv zeta. cbn [app]. eauto. Qed.

Lemma parseMembers_round (m : gmap string string) (ks : list string) :
  ks ≠ [] →
  Forall (validMember m) ks →
  ∀ fuel acc t,
    (length ks ≤ fuel)%nat →
    json.parseMembers fuel
      (json.joinMembers (json.encodeMember m <$> ks) ++ json.lit "}" ++ t) acc
    = Some (foldl (λ a k, <[k := valueOf m k]> a) acc ks, t).
Proof.
  induction ks as [|k ks IH]; [done|]. intros _ Hvalid fuel acc t Hfuel.
  apply Forall_cons in Hvalid as [[Hk Hv] Hvalid].
  destruct fuel as [|fuel]; [simpl in Hfuel; lia|].
  assert (∀ rest,
    json.parseMembers (S fuel) (json.encodeMember m k ++ rest) acc
    = match json.skipSpace rest with
      | d :: s4 =>
          if code d =? 0x2C
          then json.parseMembers fuel (json.skipSpace s4) (<[k := valueOf m k]> acc)
          else if code d =? 0x7D then Some (<[k := valueOf m k]> acc, s4)
          else None
      | [] => None
      end) as Hstep.
  { intros rest. unfold json.encodeMember. fold (valueOf m k).
    cbn [json.parseMembers]. rewrite <- !app_assoc.
    rewrite parseString_encodeString by done. cbn [mbind option_bind].
    change (json.skipSpace (json.lit ":" ++ json.encodeString (valueOf m k) ++ rest))
      with (json.lit ":" ++ json.encodeString (valueOf m k) ++ rest).
    cbn [json.lit bytes_of_string String.list_ascii_of_string app].
    change (code ":" =? 58) with true. cbn iota.
    rewrite skipSpace_encodeString, parseElem_string by done.
    cbn [mbind option_bind]. done. }
  destruct ks as [|k' ks].
  - cbn [fmap list_fmap json.joinMembers foldl]. rewrite Hstep. reflexivity.
  - change (json.joinMembers (json.encodeMember m <$> k :: k' :: ks))
      with (json.encodeMember m k ++ json.lit ","
              ++ json.joinMembers (json.encodeMember m <$> k' :: ks)).
    rewrite <- !app_assoc, Hstep.
    cbn [json.lit bytes_of_string String.list_ascii_of_string app json.skipSpace].
    change (json.isSpace (code ",")) with false. cbn iota.
    change (code "," =? 44) with true. cbn iota.
    assert (json.skipSpace
              (json.joinMembers (json.encodeMember m <$> k' :: ks) ++ "}"%char :: t)
            = json.joinMembers (json.encodeMember m <$> k' :: ks) ++ "}"%char :: t)
      as ->.
    { destruct ks; reflexivity. }
    change ("}"%char :: t) with (json.lit "}" ++ t).
    rewrite (IH ltac:(done) Hvalid fuel) by (simpl in Hfuel |- *; lia).
    done.
Qed.

Lemma lookup_foldl_insert (m : gmap string string) (ks : list string) (i : string) :
  ∀ acc : gmap string string,
    foldl (λ a k, <[k := valueOf m k]> a) acc ks !! i
    = if decide (i ∈ ks) then Some (valueOf m i) else acc !! i.
Proof.
  induction ks as [|k ks IH]; intros acc; cbn [foldl].
  - by rewrite decide_False by apply not_elem_of_nil.
  - rewrite IH. destruct (decide (i ∈ ks)) as [Hin|Hnin].
    + by rewrite decide_True by (by right).
    + destruct (decide (i = k)) as [->|Hne].
      * rewrite decide_True by left. by rewrite lookup_insert_eq.
      * rewrite decide_False by (by intros [?|?]%elem_of_cons).
        by rewrite lookup_insert_ne.
Qed.

Lemma elem_of_MapKeys (m : gmap string string) (k : string) :
  k ∈ json.MapKeys m ↔ is_Some (m !! k).
Proof.
  unfold json.MapKeys. rewrite list_elem_of_fmap. split.
  - intros ([k' v] & -> & Hin). apply elem_of_map_to_list in Hin. by eexists.
  - intros [v Hv]. exists (k, v). split; [done|]. by apply elem_of_map_to_list.
Qed.

Lemma foldl_insert_keys (m : gmap string string) (ks : list string) :
  ks ≡ₚ json.MapKeys m →
  foldl (λ a k, <[k := valueOf m k]> a) ∅ ks = m.
Proof.
  intros Hp. apply map_eq. intros i. rewrite lookup_foldl_insert.
  destruct (decide (i ∈ ks)) as [Hin|Hnin].
  - rewrite Hp in Hin. apply elem_of_MapKeys in Hin as [v Hv].
    unfold valueOf. by rewrite Hv.
  - rewrite Hp in Hnin. rewrite lookup_empty. symmetry.
    apply eq_None_not_Some. by rewrite <- elem_of_MapKeys.
Qed.

Lemma length_joinMembers_ge (m : gmap string string) (ks : list string) :
  (length ks ≤ length (json.joinMembers (json.encodeMember m <$> ks)))%nat.
Proof.
  assert (∀ k, (1 ≤ length (json.encodeMember m k))%nat) as Hone.
  { intros k. unfold json.encodeMember.
    destruct (encodeString_cons k) as [q ->]. simpl. lia. }
  induction ks as [|k [|k' ks] IH]; [simpl; lia| |].
  - cbn [fmap list_fmap json.joinMembers length]. apply Hone.
  - change (json.joinMembers (json.encodeMember m <$> k :: k' :: ks))
      with (json.encodeMember m k ++ json.lit ","
              ++ json.joinMembers (json.encodeMember m <$> k' :: ks)).
    rewrite !length_app. pose proof (Hone k) as Hk. clear Hone.
    change (length (json.lit ",")) with 1%nat.
    cbn [length] in IH |- *.
    generalize dependent (length (json.joinMembers (json.encodeMember m <$> k' :: ks))).
    generalize dependent (length (json.encodeMember m k)).
    intros; lia.
Qed.

(** [Unmarshal] reads back what [Marshal] wrote for a table of
    well-formed strings. *)
Lemma Unmarshal_Marshal (m : gmap string string) :
  utf8Table m →
  json.Unmarshal (json.Marshal (Some m)) = Some (Some m).
Proof.
  intros Hutf. unfold json.Marshal, json.encodeMap.
  set (ks := merge_sort String.le (json.MapKeys m)).
  assert (ks ≡ₚ json.MapKeys m) as Hp by apply merge_sort_Permutation.
  assert (Forall (validMember m) ks) as Hvalid.
  { apply Forall_forall. intros k Hk. rewrite Hp in Hk.
    apply elem_of_MapKeys in Hk as [v Hv]. unfold validMember, valueOf.
    rewrite Hv. by apply (Hutf k v). }
  pose proof (foldl_insert_keys m ks Hp) as Hfold.
  pose proof (length_joinMembers_ge m ks) as Hlen.
  clearbody ks.
  unfold json.Unmarshal.
  change (json.skipSpace (json.lit "{" ++ ?x)) with (json.lit "{" ++ x).
  cbn [json.lit bytes_of_string String.list_ascii_of_string app].
  change (code "{" =? 123) with true. cbn iota.
  unfold json.parseObject.
  destruct ks as [|k ks].
  { cbn [foldl] in Hfold. subst m. reflexivity. }
  assert (json.skipSpace
            (json.joinMembers (json.encodeMember ∅ <$> []) ++ ["}"%char]) ≠ [])
    as _ by done.
  assert (∃ q, json.joinMembers (json.encodeMember m <$> k :: ks) ++ ["}"%char]
               = json.dquote :: q) as [q Hq].
  { destruct ks; eexists; reflexivity. }
  rewrite Hq. cbn [json.skipSpace]. change (json.isSpace (code json.dquote)) with false.
  cbn iota. change (code json.dquote =? 125) with false. cbn iota.
  rewrite <- Hq.
  change ["}"%char] with (json.lit "}" ++ []).
  rewrite (parseMembers_round m (k :: ks) ltac:(done) Hvalid).
  - cbn [mbind option_bind json.skipSpace]. by rewrite Hfold.
  - rewrite length_app.
    generalize dependent (length (json.joinMembers (json.encodeMember m <$> k :: ks))).
    intros; lia.
Qed.

(** ** The apply loop *)

Section apply_loop.
Context `{GobCodec}.

Lemma applyEntry_allocated (s : store.KvStore) (m : gmap string string) (e : kv) :
  store.kvStore s = Some m →
  store.applyEntry s e = Some (store.set_kvStore s (Some (applyOp m e))).
Proof.
  intros Hm. unfold store.applyEntry, applyOp, Op.SET, Op.DELETE.
  rewrite Hm. simpl.
  destruct (String.eqb (Opt e) "SET"); [done|].
  destruct (String.eqb (Opt e) "DEL"); [done|].
  destruct s; simpl in *. by subst.
Qed.

(** A run of entries in front of the channel is applied in order, and
    the loop goes on with what follows. *)
Lemma readCommits_entries (msgs : list string) (es : list kv) :
  decodesTo msgs es →
  ∀ (s : store.KvStore) (m : gmap string string) rest closed errorC,
    store.kvStore s = Some m →
    store.readCommits s ((Some <$> msgs) ++ rest) closed errorC
    = store.readCommits (store.set_kvStore s (Some (foldl applyOp m es)))
        rest closed errorC.
Proof.
  induction 1 as [|msg e msgs es Hdec _ IH]; intros s m rest closed errorC Hm.
  - simpl. destruct s; simpl in *. by subst.
  - simpl. rewrite Hdec, (applyEntry_allocated s m e Hm).
    rewrite (IH _ (applyOp m e)) by done. by destruct s.
Qed.

Lemma lookup_foldl_applyOp (k : string) (es : list kv) (m : gmap string string) :
  foldl applyOp m es !! k
  = match lastOperation k es with
    | Some o => o
    | None => m !! k
    end.
Proof.
  unfold lastOperation.
  induction es as [|e es IH] using rev_ind; [done|].
  rewrite foldl_app, omap_app. simpl.
  unfold applyOp at 1, operationOn at 2.
  destruct (String.eqb (Key e) k) eqn:Hk.
  - apply eqb_string_true in Hk as <-.
    destruct (String.eqb (Opt e) Op.SET).
    { simpl. by rewrite last_snoc, lookup_insert_eq. }
    destruct (String.eqb (Opt e) Op.DELETE).
    { simpl. by rewrite last_snoc, lookup_delete_eq. }
    simpl. by rewrite app_nil_r.
  - apply eqb_string_false in Hk.
    simpl. rewrite app_nil_r, <- IH.
    destruct (String.eqb (Opt e) Op.SET); [by rewrite lookup_insert_ne|].
    destruct (String.eqb (Opt e) Op.DELETE); [by rewrite lookup_delete_ne|done].
Qed.

Lemma Lookup_foldl_empty (s : store.KvStore) (k : string) (es : list kv) :
  store.Lookup (store.set_kvStore s (Some (foldl applyOp ∅ es))) k
  = expectedLookup k es.
Proof.
  unfold store.Lookup, expectedLookup. simpl.
  rewrite lookup_foldl_applyOp.
  destruct (lastOperation k es) as [[v|]|]; by rewrite ?lookup_empty.
Qed.

(** C1. Whatever entries E1..En the commit channel delivers to the
    apply loop of a store whose table was created empty, the loop
    applies them all and then waits for more; a lookup of any key then
    answers the value of the last SET of that key when no DELETE of it
    follows, and not found when the last operation on the key was a
    DELETE or when no entry set or deleted it. *)
Theorem C1_apply_order (msgs : list string) (es : list kv)
    (s : store.KvStore) (errorC : errorChan) :
  decodesTo msgs es →
  store.kvStore s = Some ∅ →
  ∃ s', store.readCommits s (Some <$> msgs) false errorC = store.Blocked s'
        ∧ ∀ k, store.Lookup s' k = expectedLookup k es.
Proof.
  intros Hdec Hs.
  exists (store.set_kvStore s (Some (foldl applyOp ∅ es))). split.
  - rewrite <- (app_nil_r (Some <$> msgs)).
    by rewrite (readCommits_entries msgs es Hdec s ∅).
  - intros k. apply Lookup_foldl_empty.
Qed.

End apply_loop.

Lemma C1_apply_order_witness :
  ∃ s', store.readCommits (H:=Sample.codec) Sample.fresh
          (Some <$> [Sample.message Sample.setA1; Sample.message Sample.delA;
                     Sample.message Sample.setA1])
          false ErrOpen = store.Blocked s'
        ∧ ∀ k, store.Lookup s' k
               = expectedLookup k [Sample.setA1; Sample.delA; Sample.setA1].
Proof.
  apply (C1_apply_order (H:=Sample.codec)
           [Sample.message Sample.setA1; Sample.message Sample.delA;
            Sample.message Sample.setA1]
           [Sample.setA1; Sample.delA; Sample.setA1] Sample.fresh ErrOpen).
  - repeat constructor; vm_compute; reflexivity.
  - reflexivity.
Defined.

Section entries.
Context `{GobCodec}.


(** C7. Two DELETE entries for the same key in a row are both applied
    without error, on any table; the key is absent afterwards, and the
    second one changes nothing. *)
Theorem C7_delete_twice (s : store.KvStore) (k v1 v2 : string) :
  ∃ s1,
    store.applyEntry s (Build_kv k v1 Op.DELETE) = Some s1
    ∧ store.applyEntry s1 (Build_kv k v2 Op.DELETE) = Some s1
    ∧ store.Lookup s1 k = (EmptyString, false).
Proof.
  exists (store.set_kvStore s (delete k <$> store.kvStore s)).
  split; [done|]. split.
  - unfold store.applyEntry. simpl.
    destruct (store.kvStore s) as [m|]; simpl; [|done].
    by rewrite delete_delete_eq.
  - unfold store.Lookup. simpl.
    destruct (store.kvStore s) as [m|]; simpl; [|done].
    by rewrite lookup_delete_eq.
Qed.

(** The same two entries, seen from the loop: it goes on after them. *)
Lemma readCommits_delete_twice (s : store.KvStore) (k v1 v2 : string)
    (msg1 msg2 : string) rest closed errorC :
  gobDecode (bytes_of_string msg1) = Some (Build_kv k v1 Op.DELETE) →
  gobDecode (bytes_of_string msg2) = Some (Build_kv k v2 Op.DELETE) →
  ∃ s1, store.readCommits s (Some msg1 :: Some msg2 :: rest) closed errorC
        = store.readCommits s1 rest closed errorC
        ∧ store.Lookup s1 k = (EmptyString, false).
Proof.
  intros H1 H2.
  destruct (C7_delete_twice s k v1 v2) as (s1 & Ha & Hb & Hc).
  exists s1. split; [|done]. simpl. by rewrite H1, Ha, H2, Hb.
Qed.

(** C8. When the payload of an entry message does not decode, the loop
    ends in [log.Fatal]: the process exits, the entries delivered before
    it have been applied in order, and neither the corrupt message nor
    anything after it has touched the table. *)
Theorem C8_decode_failure_fatal (msgs : list string) (es : list kv)
    (bad : string) (s : store.KvStore) (m : gmap string string)
    rest closed errorC :
  decodesTo msgs es →
  store.kvStore s = Some m →
  gobDecode (bytes_of_string bad) = None →
  store.readCommits s ((Some <$> msgs) ++ Some bad :: rest) closed errorC
  = store.Fatal (store.set_kvStore s (Some (foldl applyOp m es))).
Proof.
  intros Hdec Hm Hbad.
  rewrite (readCommits_entries msgs es Hdec s m) by done.
  simpl. by rewrite Hbad.
Qed.

(** The sentinel when the snapshot directory is empty: the call of
    [readCommits] returns at once.  The table and the proposals are as
    before and the rest of the channel is left unread. *)
Lemma readCommits_no_snapshot (s : store.KvStore) rest closed errorC :
  snap.answers (store.snapshotter s) (snap.calls (store.snapshotter s))
    = snap.ErrNoSnapshot →
  ∃ s', store.readCommits s (None :: rest) closed errorC = store.Returned s' rest
        ∧ store.kvStore s' = store.kvStore s
        ∧ store.proposeC s' = store.proposeC s.
Proof. intros Hload. simpl. rewrite Hload. eauto. Qed.

(** C3 (amended). When [readCommits] receives the sentinel and the
    snapshot store reports that no snapshot exists, the table is left
    unchanged and the call returns normally, without a crash, leaving
    the following messages on the channel.  In [NewKVStore] the call
    that returns so is the replaying one, and the call started next
    goes on with the following messages. *)
Theorem C3_sentinel_returns (sn : snap.Snapshotter) (proposeC : list string)
    (msgs : list string) (es : list kv) rest closed errorC :
  decodesTo msgs es →
  snap.answers sn (snap.calls sn) = snap.ErrNoSnapshot →
  ∃ s',
    store.readCommits (store.Build_KvStore proposeC (Some ∅) sn)
      ((Some <$> msgs) ++ None :: rest) closed errorC
    = store.Returned s' rest
    ∧ store.kvStore s' = Some (foldl applyOp ∅ es)
    ∧ store.NewKVStore sn proposeC ((Some <$> msgs) ++ None :: rest) closed errorC
      = store.readCommits s' rest closed errorC.
Proof.
  intros Hdec Hload. unfold store.NewKVStore.
  rewrite (readCommits_entries msgs es Hdec _ ∅) by done.
  simpl. rewrite Hload. eauto.
Qed.

End entries.

(** The reading of C3 that the code does not satisfy: after a sentinel
    without snapshot, the same call goes on with the next messages. *)
Definition continues_after_sentinel `{GobCodec} : Prop :=
  ∀ (s : store.KvStore) rest closed errorC,
    snap.answers (store.snapshotter s) (snap.calls (store.snapshotter s))
      = snap.ErrNoSnapshot →
    ∃ s', store.kvStore s' = store.kvStore s
          ∧ store.readCommits s (None :: rest) closed errorC
            = store.readCommits s' rest closed errorC.

(** C3, as stated, fails: with an empty snapshot directory, a sentinel
    followed by the entry SET a 1 makes [readCommits] return with the
    entry unread, where going on would apply it and wait for more.  Two
    sentinels end both calls of [NewKVStore], and the entry is never
    applied. *)
Lemma C3_counterexample :
  ¬ continues_after_sentinel (H:=Sample.codec)
  ∧ store.NewKVStore (H:=Sample.codec) Sample.noSnapshot []
      [None; None; Some (Sample.message Sample.setA1)] false ErrOpen
    = store.Returned
        (store.Build_KvStore [] (Some ∅)
           (snap.Build_Snapshotter (λ _, snap.ErrNoSnapshot) 2))
        [Some (Sample.message Sample.setA1)].
Proof.
  split; [|reflexivity].
  intros Hc.
  destruct (Hc Sample.fresh [Some (Sample.message Sample.setA1)] false ErrOpen eq_refl)
    as (s' & Hkv & Heq).
  destruct s' as [pc kvs sn]. simpl in Hkv. subst kvs.
  vm_compute in Heq. discriminate Heq.
Qed.


Lemma C8_decode_failure_fatal_witness :
  store.readCommits (H:=Sample.codec) Sample.fresh
    ((Some <$> [Sample.message Sample.setA1])
       ++ Some "not gob"%string :: [Some (Sample.message Sample.delA)])
    false ErrOpen
  = store.Fatal (store.set_kvStore Sample.fresh
                   (Some (foldl applyOp ∅ [Sample.setA1]))).
Proof.
  apply (C8_decode_failure_fatal (H:=Sample.codec)
           [Sample.message Sample.setA1] [Sample.setA1] "not gob"
           Sample.fresh ∅ [Some (Sample.message Sample.delA)] false ErrOpen).
  - repeat constructor; vm_compute; reflexivity.
  - reflexivity.
  - vm_compute; reflexivity.
Defined.

Lemma C3_sentinel_returns_witness :
  ∃ s',
    store.readCommits (H:=Sample.codec) (store.Build_KvStore [] (Some ∅) Sample.noSnapshot)
      ((Some <$> [Sample.message Sample.setA1])
         ++ None :: [Some (Sample.message Sample.delA)]) false ErrOpen
    = store.Returned s' [Some (Sample.message Sample.delA)]
    ∧ store.kvStore s' = Some (foldl applyOp ∅ [Sample.setA1])
    ∧ store.NewKVStore (H:=Sample.codec) Sample.noSnapshot []
        ((Some <$> [Sample.message Sample.setA1])
           ++ None :: [Some (Sample.message Sample.delA)]) false ErrOpen
      = store.readCommits (H:=Sample.codec) s'
          [Some (Sample.message Sample.delA)] false ErrOpen.
Proof.
  apply (C3_sentinel_returns (H:=Sample.codec) Sample.noSnapshot []
           [Sample.message Sample.setA1] [Sample.setA1]
           [Some (Sample.message Sample.delA)] false ErrOpen).
  - repeat constructor; vm_compute; reflexivity.
  - reflexivity.
Defined.

(** ** Snapshots: what does not depend on the JSON text *)

(** The snapshot of another table is accepted and replaces every pair. *)
Example restore_replaces :
  let '(err, s) := store.recoverFromSnapshot Sample.textStore
                     (json.Marshal (Some {[ "c"%string := "3"%string ]})) in
  err = None
  ∧ store.Lookup s "a" = (EmptyString, false)
  ∧ store.Lookup s "c" = ("3"%string, true).
Proof. vm_compute. done. Qed.

Lemma merge_sort_keys_Permutation (keys1 keys2 : list string) :
  keys1 ≡ₚ keys2 → merge_sort String.le keys1 = merge_sort String.le keys2.
Proof.
  intros Hp. apply (Sorted_unique String.le).
  - apply Sorted_merge_sort, _.
  - apply Sorted_merge_sort, _.
  - by rewrite !merge_sort_Permutation.
Qed.

(** C10. [GetSnapshot] leaves the store, and so the table, exactly as it
    was; a second call on the unchanged store returns the same bytes; and
    the bytes do not depend on the order in which the map hands out its
    keys, which Go leaves unspecified. *)
Theorem C10_capture_reads_only (s : store.KvStore) :
  (store.GetSnapshot s).2 = s
  ∧ (store.GetSnapshot (store.GetSnapshot s).2).1 = (store.GetSnapshot s).1
  ∧ ∀ m keys, store.kvStore s = Some m → keys ≡ₚ json.MapKeys m →
      (json.encodeMap keys m, None) = (store.GetSnapshot s).1.
Proof.
  split; [done|]. split; [done|].
  intros m keys Hm Hp. unfold store.GetSnapshot. simpl. rewrite Hm. simpl.
  unfold json.encodeMap. by rewrite (merge_sort_keys_Permutation _ _ Hp).
Qed.

Lemma C10_capture_reads_only_witness :
  (store.GetSnapshot Sample.textStore).2 = Sample.textStore
  ∧ (store.GetSnapshot (store.GetSnapshot Sample.textStore).2).1
    = (store.GetSnapshot Sample.textStore).1
  ∧ (json.encodeMap ["b"%string; "a"%string] Sample.textTable, None)
    = (store.GetSnapshot Sample.textStore).1.
Proof.
  destruct (C10_capture_reads_only Sample.textStore) as (H1 & H2 & H3).
  split; [exact H1|]. split; [exact H2|].
  apply (H3 Sample.textTable ["b"%string; "a"%string]).
  - reflexivity.
  - vm_compute. apply perm_swap.
Defined.

(** ** The HTTP handler *)

(** What is sent by the calls the handler makes on a response that has
    sent no header yet. *)
Lemma response_WriteHeader (code : nat) (w : http.ResponseWriter) :
  http.wrote w = None →
  http.response (http.WriteHeader code w) = (code, http.Header w).
Proof. intros Hw. unfold http.response, http.WriteHeader. by rewrite Hw. Qed.

Lemma Error_fresh {sniffer : http.ContentSniffer} (w : http.ResponseWriter)
    (error : string) (code : nat) :
  http.wrote w = None →
  http.Error w error code
  = let hdr := <["X-Content-Type-Options"%string := ["nosniff"%string]]>
                 (<["Content-Type"%string := ["text/plain; charset=utf-8"%string]]>
                    (http.Header w)) in
    http.Build_ResponseWriter hdr (Some (code, hdr))
      (http.body w ++ bytes_of_string error ++ [byte 0x0A]).
Proof.
  intros Hw.
  unfold http.Error, http.Write, http.sniffed, http.WriteHeader, http.Set_.
  cbn. rewrite Hw. reflexivity.
Qed.

Lemma response_Error {sniffer : http.ContentSniffer} (w : http.ResponseWriter)
    (error : string) (code : nat) :
  http.wrote w = None →
  (http.response (http.Error w error code)).1 = code
  ∧ http.body (http.Error w error code)
    = http.body w ++ bytes_of_string error ++ [byte 0x0A].
Proof. intros Hw. by rewrite (Error_fresh w error code Hw). Qed.

Lemma Write_fresh {sniffer : http.ContentSniffer} (b : bytes)
    (w : http.ResponseWriter) :
  http.wrote w = None →
  http.body (http.Write b w) = http.body w ++ b
  ∧ http.response (http.Write b w)
    = (http.StatusOK,
       if bool_decide (http.Header w !! "Content-Type"%string = None
                       ∧ http.Get "Transfer-Encoding" (http.Header w) = EmptyString)
       then <["Content-Type"%string := [http.DetectContentType b]]> (http.Header w)
       else http.Header w).
Proof.
  intros Hw.
  destruct (http.Header w !! "Content-Type"%string) as [t|] eqn:Hct.
  - rewrite bool_decide_eq_false_2 by (by intros [? _]).
    unfold http.Write, http.sniffed, http.WriteHeader, http.response.
    rewrite Hw, Hct, Hw. done.
  - destruct (String.eqb (http.Get "Transfer-Encoding" (http.Header w)) EmptyString)
      eqn:Hte.
    + rewrite bool_decide_eq_true_2 by (by apply eqb_string_true in Hte).
      unfold http.Write, http.sniffed, http.WriteHeader, http.response.
      rewrite Hw, Hct, Hte. cbn [http.Set_ http.wrote]. rewrite Hw. done.
    + rewrite bool_decide_eq_false_2
        by (apply eqb_string_false in Hte; by intros [_ ?]).
      unfold http.Write, http.sniffed, http.WriteHeader, http.response.
      rewrite Hw, Hct, Hte, Hw. done.
Qed.

Section handler.
Context `{GobCodec} {sniffer : http.ContentSniffer}.
Variable ParseUint : string → option N.

(** C9. A request whose method is none of PUT, GET, POST and DELETE is
    answered with status 405 and an Allow header listing exactly PUT,
    GET, POST and DELETE; the store (its table and its proposals) and
    the configuration changes sent are as before. *)
Theorem C9_method_not_allowed (h : httpd.HttpKVAPI) (w : http.ResponseWriter)
    (r : http.Request) :
  http.Method r ≠ "PUT"%string → http.Method r ≠ "GET"%string →
  http.Method r ≠ "POST"%string → http.Method r ≠ "DELETE"%string →
  http.wrote w = None →
  ∃ w', httpd.ServeHTTP ParseUint h w r = httpd.Served h w'
        ∧ (http.response w').1 = http.StatusMethodNotAllowed
        ∧ (http.response w').2 !! "Allow"%string
          = Some ["PUT"%string; "GET"%string; "POST"%string; "DELETE"%string].
Proof.
  intros H1%eqb_string_false H2%eqb_string_false
         H3%eqb_string_false H4%eqb_string_false Hw.
  unfold httpd.ServeHTTP. rewrite H1, H2, H3, H4.
  eexists. split; [reflexivity|].
  rewrite Error_fresh by exact Hw.
  unfold http.response, http.Set_, http.Add. simpl. split; [done|].
  rewrite lookup_insert_ne by done. rewrite lookup_insert_ne by done.
  rewrite lookup_insert_eq. rewrite !lookup_insert_eq. done.
Qed.

End handler.

Lemma C9_method_not_allowed_witness :
  ∃ w', httpd.ServeHTTP (H:=Sample.codec) (sniffer:=Scenario.plainText) (λ _, None)
          (httpd.Build_HttpKVAPI Sample.textStore []) http.newResponseWriter
          (http.Build_Request "PATCH" "/a" (Some []))
        = httpd.Served (httpd.Build_HttpKVAPI Sample.textStore []) w'
        ∧ (http.response w').1 = http.StatusMethodNotAllowed
        ∧ (http.response w').2 !! "Allow"%string
          = Some ["PUT"%string; "GET"%string; "POST"%string; "DELETE"%string].
Proof.
  apply (C9_method_not_allowed (H:=Sample.codec) (sniffer:=Scenario.plainText)
           (λ _, None)
           (httpd.Build_HttpKVAPI Sample.textStore []) http.newResponseWriter
           (http.Build_Request "PATCH" "/a" (Some []))); done.
Defined.

(** ** Proposals on the wire *)

Lemma length_encodeUint_le (x : N) : (length (gob.encodeUint x) ≤ 9)%nat.
Proof.
  unfold gob.encodeUint. destruct (x <=? 127)%N; cbn [length]; [lia|].
  rewrite length_drop. change (length (gob.be8 x)) with 8%nat.
  generalize (gob.leadingZeroBytes (gob.be8 x)). intros; lia.
Qed.

Ltac bound_lengths :=
  repeat match goal with
    | |- context [length (gob.encodeUint ?x)] =>
        pose proof (length_encodeUint_le x);
        generalize dependent (length (gob.encodeUint x)); intros
    | H : context [length (gob.encodeUint ?x)] |- _ =>
        pose proof (length_encodeUint_le x);
        generalize dependent (length (gob.encodeUint x)); intros
    end.

Lemma length_encodeStruct_le (e : kv) :
  (length (gob.encodeStruct e)
   ≤ String.length (Key e) + String.length (Val e) + String.length (Opt e) + 63)%nat.
Proof.
  destruct e as [k v o]. unfold gob.encodeStruct.
  cbn [fold_left Key Val Opt]. unfold gob.encodeField.
  destruct (0 <? String.length k)%nat; destruct (0 <? String.length v)%nat;
    destruct (0 <? String.length o)%nat.
  all: cbn -[gob.encodeUint gob.encodeString String.length].
  all: unfold gob.encodeString; rewrite ?length_app, ?length_bytes_of_string.
  all: bound_lengths; lia.
Qed.

Lemma length_typeMessage_le (tid : Z) :
  (length (gob.encodeInt (- tid) ++ gob.encodeWireType tid) ≤ 1000)%nat.
Proof.
  unfold gob.encodeWireType, gob.encodeNameId, gob.encodeString, gob.encodeInt.
  rewrite ?length_app, ?length_bytes_of_string. cbn [String.length].
  bound_lengths; lia.
Qed.

(** [Encode] has a result for every entry whose strings fit a message. *)
Lemma Encode_is_Some (tid : Z) (e : kv) :
  (N.of_nat (String.length (Key e) + String.length (Val e) + String.length (Opt e))
   < 2 ^ 32)%N →
  is_Some (gob.Encode tid e).
Proof.
  intros Hlen. unfold gob.Encode, gob.writeMessage.
  pose proof (length_typeMessage_le tid) as H1.
  destruct (gob.tooBig <=? N.of_nat (length (gob.encodeInt (- tid) ++ gob.encodeWireType tid)))%N
    eqn:Hbig1.
  { apply N.leb_le in Hbig1. unfold gob.tooBig in Hbig1.
    change (2 ^ 33)%N with 8589934592%N in Hbig1.
    generalize dependent (length (gob.encodeInt (- tid) ++ gob.encodeWireType tid)).
    intros; lia. }
  cbn [mbind option_bind].
  destruct (gob.tooBig <=? N.of_nat (length (gob.encodeInt tid ++ gob.encodeStruct e)))%N
    eqn:Hbig2; [|by eexists].
  apply N.leb_le in Hbig2. unfold gob.tooBig in Hbig2.
  rewrite length_app in Hbig2.
  pose proof (length_encodeStruct_le e).
  unfold gob.encodeInt in Hbig2.
  change (2 ^ 33)%N with 8589934592%N in Hbig2.
  change (2 ^ 32)%N with 4294967296%N in Hlen.
  bound_lengths. generalize dependent (length (gob.encodeStruct e)). intros; lia.
Qed.

(** C5. In a process where gob gave [kv] the type id [tid], the bytes
    that [Propose] sends for a key, a value and an operation decode, with
    the decoder of the apply loop, to exactly that entry; [Propose] does
    send them whenever the three strings fit a gob message; and after a
    proposal of SET a 1 is delivered on the commit channel, a lookup of a
    answers 1, found. *)
Theorem C5_proposal_round_trip (tid : Z) :
  (64 ≤ tid < 2 ^ 31)%Z →
  (∀ s k v op s',
     store.Propose (H:=gobWire tid) s k v op = Some s' →
     ∃ msg, store.proposeC s' = store.proposeC s ++ [msg]
            ∧ store.kvStore s' = store.kvStore s
            ∧ gob.Decode (bytes_of_string msg) = Some (Build_kv k v op))
  ∧ (∀ s k v op,
       (N.of_nat (String.length k + String.length v + String.length op) < 2 ^ 32)%N →
       is_Some (store.Propose (H:=gobWire tid) s k v op))
  ∧ (∀ s m errorC,
       store.kvStore s = Some m →
       ∃ s1 msg s2,
         store.Propose (H:=gobWire tid) s "a" "1" Op.SET = Some s1
         ∧ store.proposeC s1 = store.proposeC s ++ [msg]
         ∧ store.readCommits (H:=gobWire tid) s1 [Some msg] false errorC
           = store.Blocked s2
         ∧ store.Lookup s2 "a" = ("1"%string, true)).
Proof.
  intros Htid.
  assert (∀ s k v op s',
     store.Propose (H:=gobWire tid) s k v op = Some s' →
     ∃ msg, store.proposeC s' = store.proposeC s ++ [msg]
            ∧ store.kvStore s' = store.kvStore s
            ∧ gob.Decode (bytes_of_string msg) = Some (Build_kv k v op)) as Hsend.
  { intros s k v op s'. unfold store.Propose. cbn [gobEncode gobWire].
    destruct (gob.Encode tid (Build_kv k v op)) as [buf|] eqn:Henc; [|done].
    intros [= <-]. exists (string_of_bytes buf). cbn [store.proposeC store.kvStore].
    split; [done|]. split; [done|].
    rewrite bytes_of_string_of_bytes. by apply (Decode_Encode tid). }
  assert (∀ s k v op,
       (N.of_nat (String.length k + String.length v + String.length op) < 2 ^ 32)%N →
       is_Some (store.Propose (H:=gobWire tid) s k v op)) as Htotal.
  { intros s k v op Hlen. unfold store.Propose. cbn [gobEncode gobWire].
    destruct (Encode_is_Some tid (Build_kv k v op) Hlen) as [buf ->]. by eexists. }
  split; [exact Hsend|]. split; [exact Htotal|].
  intros s m errorC Hm.
  destruct (Htotal s "a"%string "1"%string Op.SET) as [s1 Hs1]; [done|].
  destruct (Hsend _ _ _ _ _ Hs1) as (msg & Hpc & Hkv & Hdec).
  exists s1, msg, (store.set_kvStore s1 (Some (<["a"%string := "1"%string]> m))).
  split; [done|]. split; [done|]. split.
  - cbn [store.readCommits gobDecode gobWire]. rewrite Hdec.
    rewrite (applyEntry_allocated s1 m) by (by rewrite Hkv). done.
  - unfold store.Lookup. cbn [store.kvStore store.set_kvStore].
    by rewrite lookup_insert_eq.
Qed.

Lemma C5_proposal_round_trip_witness :
  (∀ s k v op s',
     store.Propose (H:=gobWire 65) s k v op = Some s' →
     ∃ msg, store.proposeC s' = store.proposeC s ++ [msg]
            ∧ store.kvStore s' = store.kvStore s
            ∧ gob.Decode (bytes_of_string msg) = Some (Build_kv k v op))
  ∧ (∀ s k v op,
       (N.of_nat (String.length k + String.length v + String.length op) < 2 ^ 32)%N →
       is_Some (store.Propose (H:=gobWire 65) s k v op))
  ∧ (∀ s m errorC,
       store.kvStore s = Some m →
       ∃ s1 msg s2,
         store.Propose (H:=gobWire 65) s "a" "1" Op.SET = Some s1
         ∧ store.proposeC s1 = store.proposeC s ++ [msg]
         ∧ store.readCommits (H:=gobWire 65) s1 [Some msg] false errorC
           = store.Blocked s2
         ∧ store.Lookup s2 "a" = ("1"%string, true)).
Proof. apply (C5_proposal_round_trip 65). lia. Defined.

(** The scenario of C5 on the store as created, computed. *)
Example propose_set_a_1 :
  ∃ s1, store.Propose (H:=Sample.codec) Sample.fresh "a" "1" Op.SET = Some s1
        ∧ store.proposeC s1 = [Sample.message Sample.setA1]
        ∧ ∃ s2, store.readCommits (H:=Sample.codec) s1
                  (Some <$> store.proposeC s1) false ErrOpen = store.Blocked s2
                ∧ store.Lookup s2 "a" = ("1"%string, true)
                ∧ ∃ s3, store.readCommits (H:=Sample.codec) s2
                          [Some (Sample.message Sample.delA)] false ErrOpen
                        = store.Blocked s3
                        ∧ store.Lookup s3 "a" = (EmptyString, false).
Proof.
  eexists. split; [vm_compute; reflexivity|]. split; [reflexivity|].
  eexists. split; [vm_compute; reflexivity|]. split; [reflexivity|].
  eexists. split; [vm_compute; reflexivity|]. reflexivity.
Qed.

(** ** Snapshots: the round trip through JSON *)

Lemma Unmarshal_Marshal_nil : json.Unmarshal (json.Marshal None) = Some None.
Proof. reflexivity. Qed.

(** C4 (amended). For every store whose table holds only keys and values
    that are well-formed UTF-8 (or whose table is nil), [GetSnapshot]
    returns bytes without error, and [recoverFromSnapshot] on these bytes,
    in any store, returns no error and makes the table equal to the one
    captured: the same keys with the same values. *)
Theorem C4_snapshot_round_trip (s s' : store.KvStore) :
  utf8Store s →
  (store.GetSnapshot s).1.2 = None
  ∧ store.recoverFromSnapshot s' (store.GetSnapshot s).1.1
    = (None, store.set_kvStore s' (store.kvStore s))
  ∧ ∀ k, store.Lookup (store.set_kvStore s' (store.kvStore s)) k = store.Lookup s k.
Proof.
  intros Hutf. split; [done|]. split; [|done].
  unfold store.GetSnapshot, store.recoverFromSnapshot, utf8Store in *.
  cbn [fst snd].
  destruct (store.kvStore s) as [m|].
  - by rewrite (Unmarshal_Marshal m Hutf).
  - by rewrite Unmarshal_Marshal_nil.
Qed.

Lemma C4_snapshot_round_trip_witness :
  (store.GetSnapshot Sample.textStore).1.2 = None
  ∧ store.recoverFromSnapshot Sample.fresh (store.GetSnapshot Sample.textStore).1.1
    = (None, store.set_kvStore Sample.fresh (store.kvStore Sample.textStore))
  ∧ ∀ k, store.Lookup (store.set_kvStore Sample.fresh (store.kvStore Sample.textStore)) k
         = store.Lookup Sample.textStore k.
Proof.
  apply (C4_snapshot_round_trip Sample.textStore Sample.fresh).
  unfold utf8Store, utf8Table. cbn [store.kvStore Sample.textStore].
  apply (bool_decide_unpack _). vm_compute. exact I.
Defined.

(** C4, as stated, fails: a table whose value under a is the single byte
    0xFF is captured as the JSON text with the escape of U+FFFD in its
    place, and restoring these bytes succeeds with the three bytes of
    U+FFFD under a. *)
Lemma C4_counterexample :
  ¬ snapshot_round_trip
  ∧ string_of_bytes (store.GetSnapshot Sample.binaryStore).1.1
    = String "{" (String json.dquote (String "a" (String json.dquote (String ":"
        (String json.dquote (String json.backslash
           ("ufffd" +:+ String json.dquote (String "}" EmptyString))))))))
  ∧ store.Lookup Sample.binaryStore "a" = (String (byte 0xFF) EmptyString, true)
  ∧ ∃ s', store.recoverFromSnapshot Sample.binaryStore
            (store.GetSnapshot Sample.binaryStore).1.1 = (None, s')
          ∧ store.Lookup s' "a"
            = (String (byte 0xEF) (String (byte 0xBF) (String (byte 0xBD) EmptyString)),
               true).
Proof.
  split; [|split; [|split]].
  - intros Hc. destruct (Hc Sample.binaryStore) as (s' & Hrec & Hlook).
    specialize (Hlook "a"%string).
    vm_compute in Hrec. injection Hrec as <-.
    vm_compute in Hlook. discriminate Hlook.
  - vm_compute. reflexivity.
  - vm_compute. reflexivity.
  - eexists. split; [vm_compute; reflexivity|]. vm_compute. reflexivity.
Qed.

(** ** Snapshots: what [recoverFromSnapshot] accepts and what it refuses *)

(** The decoder reads from left to right: what follows the text it has
    read does not change what it read. *)
Lemma skipSpace_app_cons (s q : bytes) (c : ascii) (r : bytes) :
  json.skipSpace s = c :: r → json.skipSpace (s ++ q) = c :: r ++ q.
Proof.
  induction s as [|b s IH]; [done|]. cbn [json.skipSpace app].
  destruct (json.isSpace (code b)); [exact IH|]. by intros [= <- <-].
Qed.

Lemma skipSpace_app_nil (s q : bytes) :
  json.skipSpace s = [] → json.skipSpace (s ++ q) = json.skipSpace q.
Proof.
  induction s as [|b s IH]; [done|]. cbn [json.skipSpace app].
  by destruct (json.isSpace (code b)).
Qed.

Lemma scanString_app (s q raw rest : bytes) :
  json.scanString s = Some (raw, rest) →
  json.scanString (s ++ q) = Some (raw, rest ++ q).
Proof.
  remember (length s) as n eqn:Hn. revert s raw rest Hn.
  induction n as [n IH] using lt_wf_ind. intros s raw rest Hn.
  destruct s as [|b r]; [done|]. cbn [json.scanString app].
  destruct (code b =? 0x22); [by intros [= <- <-]|].
  destruct (code b =? 0x5C).
  - destruct r as [|e r1]; [done|]. cbn [app].
    destruct (_ || _).
    + destruct (json.scanString r1) as [[raw1 rest1]|] eqn:Hr1; [|done].
      intros [= <- <-].
      rewrite (IH (length r1) ltac:(cbn in Hn; lia) r1 raw1 rest1 eq_refl Hr1). done.
    + destruct (code e =? 0x75); [|done].
      destruct r1 as [|h1 [|h2 [|h3 [|h4 r2]]]]; try done. cbn [app].
      destruct (_ && _); [|done].
      destruct (json.scanString r2) as [[raw1 rest1]|] eqn:Hr2; [|done].
      intros [= <- <-].
      rewrite (IH (length r2) ltac:(cbn in Hn; lia) r2 raw1 rest1 eq_refl Hr2). done.
  - destruct (code b <? 0x20); [done|].
    destruct (json.scanString r) as [[raw1 rest1]|] eqn:Hr; [|done].
    intros [= <- <-].
    rewrite (IH (length r) ltac:(cbn in Hn; lia) r raw1 rest1 eq_refl Hr). done.
Qed.

Lemma parseString_app (s q : bytes) (v : string) (rest : bytes) :
  json.parseString s = Some (v, rest) →
  json.parseString (s ++ q) = Some (v, rest ++ q).
Proof.
  unfold json.parseString. destruct s as [|c r]; [done|]. cbn [app].
  destruct (code c =? 0x22); [|done].
  destruct (json.scanString r) as [[raw rest1]|] eqn:Hr; [|done].
  rewrite (scanString_app r q raw rest1 Hr). cbn.
  destruct (json.unquote raw); [|done]. cbn. by intros [= <- <-].
Qed.

Lemma parseString_head (s : bytes) (v : string) (rest : bytes) :
  json.parseString s = Some (v, rest) → ∃ r, s = json.dquote :: r.
Proof.
  unfold json.parseString. destruct s as [|c r]; [done|].
  destruct (code c =? 0x22) eqn:Hc; [|done]. intros _. exists r.
  apply N.eqb_eq in Hc. f_equal. rewrite <- (byte_code c), Hc. reflexivity.
Qed.

Lemma parseElem_app (s q : bytes) (v : string) (rest : bytes) :
  json.parseElem s = Some (v, rest) →
  json.parseElem (s ++ q) = Some (v, rest ++ q).
Proof.
  intros Hs.
  assert (json.parseString s = Some (v, rest) →
          json.parseElem (s ++ q) = Some (v, rest ++ q)) as Hstr.
  { intros Hp. destruct (parseString_head _ _ _ Hp) as [r ->].
    apply (parseString_app _ q) in Hp. cbn [app] in *.
    unfold json.parseElem.
    destruct (r ++ q) as [|c1 [|c2 [|c3 r']]]; exact Hp. }
  unfold json.parseElem in Hs.
  destruct s as [|c0 [|c1 [|c2 [|c3 r]]]]; try by apply Hstr.
  destruct (_ && _) eqn:Hnull; [|by apply Hstr].
  injection Hs as <- <-. unfold json.parseElem. cbn [app]. by rewrite Hnull.
Qed.

Lemma parseMembers_app (fuel : nat) :
  ∀ (s q : bytes) (m m' : gmap string string) (rest : bytes) (fuel' : nat),
    json.parseMembers fuel s m = Some (m', rest) → (fuel ≤ fuel')%nat →
    json.parseMembers fuel' (s ++ q) m = Some (m', rest ++ q).
Proof.
  induction fuel as [|fuel IH]; intros s q m m' rest fuel' Hs Hle; [done|].
  destruct fuel' as [|fuel']; [lia|].
  cbn [json.parseMembers] in *.
  destruct (json.parseString s) as [[k s1]|] eqn:Hk; [|done].
  rewrite (parseString_app s q k s1 Hk). cbn in *.
  destruct (json.skipSpace s1) as [|c s2] eqn:Hs1; [done|].
  rewrite (skipSpace_app_cons s1 q c s2 Hs1).
  destruct (code c =? 0x3A); [|done].
  destruct (json.skipSpace s2) as [|c' s2'] eqn:Hs2.
  { by destruct s2. }
  rewrite (skipSpace_app_cons s2 q c' s2' Hs2).
  destruct (json.parseElem (c' :: s2')) as [[v s3]|] eqn:Hv; [|done].
  pose proof (parseElem_app (c' :: s2') q v s3 Hv) as Hv'. cbn [app] in Hv'.
  rewrite Hv'. cbn in *.
  destruct (json.skipSpace s3) as [|d s4] eqn:Hs3; [done|].
  rewrite (skipSpace_app_cons s3 q d s4 Hs3).
  destruct (code d =? 0x2C).
  - destruct (json.skipSpace s4) as [|c4 s5] eqn:Hs4.
    + destruct fuel; [done|]. cbn in Hs. done.
    + rewrite (skipSpace_app_cons s4 q c4 s5 Hs4).
      apply (IH (c4 :: s5) q); [done|lia].
  - destruct (code d =? 0x7D); [|done]. by injection Hs as <- <-.
Qed.

Lemma parseObject_app (s q : bytes) (m : gmap string string) (rest : bytes) :
  json.parseObject s = Some (m, rest) →
  json.parseObject (s ++ q) = Some (m, rest ++ q).
Proof.
  unfold json.parseObject.
  destruct (json.skipSpace s) as [|c r] eqn:Hs; [done|].
  rewrite (skipSpace_app_cons s q c r Hs).
  destruct (code c =? 0x7D); [by intros [= <- <-]|].
  intros Hm. apply (parseMembers_app (length s) (c :: r) q); [done|].
  rewrite length_app. lia.
Qed.

(** Text after an accepted text is accepted exactly when it is blank. *)
Lemma Unmarshal_app (p q : bytes) (t : option (gmap string string)) :
  json.Unmarshal p = Some t →
  json.Unmarshal (p ++ q)
  = match json.skipSpace q with [] => Some t | _ :: _ => None end.
Proof.
  unfold json.Unmarshal.
  destruct (json.skipSpace p) as [|c r] eqn:Hp; [done|].
  rewrite (skipSpace_app_cons p q c r Hp).
  destruct (code c =? 0x7B).
  - destruct (json.parseObject r) as [[m rest]|] eqn:Hr; [|done].
    rewrite (parseObject_app r q m rest Hr). cbn.
    destruct (json.skipSpace rest) eqn:Hrest; [|done]. intros [= <-].
    rewrite (skipSpace_app_nil rest q Hrest). by destruct (json.skipSpace q).
  - destruct r as [|c1 [|c2 [|c3 rest]]]; try done. cbn [app].
    destruct (_ && _); [|done].
    destruct (json.skipSpace rest) eqn:Hrest; [|done]. intros [= <-].
    rewrite (skipSpace_app_nil rest q Hrest). by destruct (json.skipSpace q).
Qed.

(** ** Snapshots of arbitrary tables are accepted *)

(** What [string_go] emits for the head of any string is passed over by
    the scanner and unquoted to some bytes: the head itself where it is
    well formed, the three bytes of U+FFFD where it is not. *)
Lemma chunk_any (s : bytes) :
  s ≠ [] →
  (1 ≤ (chunk s).2 ≤ length s)%nat
  ∧ (1 ≤ length (chunk s).1)%nat
  ∧ scanned (chunk s).1
  ∧ ∃ v, ∀ fuel t, json.unquote_go (S fuel) ((chunk s).1 ++ t)
                   = (v ++.) <$> json.unquote_go fuel t.
Proof.
  intros Hs. destruct (isError (utf8.DecodeRune s)) eqn:He.
  - destruct s as [|b0 rest]; [done|]. unfold chunk.
    destruct (code b0 <? utf8.RuneSelf) eqn:Hascii.
    + apply N.ltb_lt in Hascii. cbn [fst snd length]. split; [lia|].
      split; [|split; [by apply scanned_asciiOut|]].
      * unfold asciiOut. cbv zeta.
        repeat match goal with |- context [if ?c then _ else _] => destruct c end;
          simpl; lia.
      * exists [b0]. intros fuel t. by apply unquote_asciiOut.
    + unfold isError in He.
      destruct (utf8.DecodeRune (b0 :: rest)) as [c size]. cbn [fst snd] in He.
      rewrite He. apply andb_true_iff in He as [_ ->%Nat.eqb_eq].
      cbn [fst snd length]. split; [lia|]. split; [lia|]. split.
      * intros t. cbn. by destruct (json.scanString t) as [[??]|].
      * eexists. intros fuel t. reflexivity.
  - split; [by apply chunk_size|]. split; [by apply chunk_nonempty|].
    split; [by apply chunk_scanned|].
    exists (take (chunk s).2 s). intros fuel t. by apply chunk_unquote.
Qed.

Lemma string_go_accepted (n : nat) (p : bytes) :
  (length p ≤ n)%nat →
  scanned (json.string_go n p)
  ∧ ∃ v, ∀ fuel, (length (json.string_go n p) ≤ fuel)%nat →
                 json.unquote_go fuel (json.string_go n p) = Some v.
Proof.
  revert p. induction n as [|n IH]; intros p Hlen.
  { destruct p; [|simpl in Hlen; lia]. split; [apply scanned_nil|].
    exists []. by intros [|fuel]. }
  destruct p as [|b0 rest].
  { split; [apply scanned_nil|]. exists []. by intros [|fuel]. }
  destruct (chunk_any (b0 :: rest) ltac:(done)) as (Hsize & Hne & Hscan & v & Hunq).
  rewrite string_go_chunk.
  destruct (IH (drop (chunk (b0 :: rest)).2 (b0 :: rest))) as [Hscan' [v' Hunq']].
  { rewrite length_drop. cbn [length] in Hlen, Hsize |- *.
    generalize dependent (chunk (b0 :: rest)).2. intros; lia. }
  split; [by apply scanned_app|].
  exists (v ++ v'). intros fuel Hfuel. rewrite length_app in Hfuel.
  destruct fuel as [|fuel];
    [exfalso; generalize dependent (length (chunk (b0 :: rest)).1); intros; lia|].
  rewrite Hunq.
  rewrite Hunq'
    by (generalize dependent (length (chunk (b0 :: rest)).1); intros; lia).
  reflexivity.
Qed.

Lemma parseString_accepted (s : string) :
  ∃ v, ∀ t, json.parseString (json.encodeString s ++ t) = Some (v, t).
Proof.
  unfold json.encodeString. cbv zeta.
  destruct (string_go_accepted _ _ (Nat.le_refl (length (bytes_of_string s))))
    as [Hscan [v Hunq]].
  exists (string_of_bytes v). intros t.
  cbn [app json.parseString].
  change (code json.dquote =? 34) with true. cbn iota.
  rewrite <- app_assoc, Hscan. cbn [app json.scanString].
  change (code json.dquote =? 34) with true. cbn iota.
  cbn [fmap option_fmap option_map prod_map fst snd mbind option_bind id].
  rewrite app_nil_r. unfold json.unquote. rewrite Hunq by done.
  reflexivity.
Qed.

Lemma parseMembers_accepted (m : gmap string string) (ks : list string) :
  ks ≠ [] →
  ∀ fuel acc t,
    (length ks ≤ fuel)%nat →
    ∃ acc',
      json.parseMembers fuel
        (json.joinMembers (json.encodeMember m <$> ks) ++ json.lit "}" ++ t) acc
      = Some (acc', t).
Proof.
  induction ks as [|k ks IH]; [done|]. intros _ fuel acc t Hfuel.
  destruct fuel as [|fuel]; [simpl in Hfuel; lia|].
  destruct (parseString_accepted k) as [k1 Hk1].
  destruct (parseString_accepted (valueOf m k)) as [v1 Hv1].
  assert (∀ rest,
    json.parseMembers (S fuel) (json.encodeMember m k ++ rest) acc
    = match json.skipSpace rest with
      | d :: s4 =>
          if code d =? 0x2C
          then json.parseMembers fuel (json.skipSpace s4) (<[k1 := v1]> acc)
          else if code d =? 0x7D then Some (<[k1 := v1]> acc, s4)
          else None
      | [] => None
      end) as Hstep.
  { intros rest. unfold json.encodeMember. fold (valueOf m k).
    cbn [json.parseMembers]. rewrite <- !app_assoc.
    rewrite Hk1. cbn [mbind option_bind].
    change (json.skipSpace (json.lit ":" ++ json.encodeString (valueOf m k) ++ rest))
      with (json.lit ":" ++ json.encodeString (valueOf m k) ++ rest).
    cbn [json.lit bytes_of_string String.list_ascii_of_string app].
    change (code ":" =? 58) with true. cbn iota.
    rewrite skipSpace_encodeString.
    destruct (encodeString_cons (valueOf m k)) as [q Hq].
    pose proof (Hv1 rest) as Hv. rewrite Hq in Hv |- *. cbn [app] in Hv |- *.
    rewrite parseElem_dquote, Hv.
    cbn [mbind option_bind]. done. }
  destruct ks as [|k' ks].
  - cbn [fmap list_fmap json.joinMembers foldl]. rewrite Hstep. eexists. reflexivity.
  - change (json.joinMembers (json.encodeMember m <$> k :: k' :: ks))
      with (json.encodeMember m k ++ json.lit ","
              ++ json.joinMembers (json.encodeMember m <$> k' :: ks)).
    rewrite <- !app_assoc, Hstep.
    cbn [json.lit bytes_of_string String.list_ascii_of_string app json.skipSpace].
    change (json.isSpace (code ",")) with false. cbn iota.
    change (code "," =? 44) with true. cbn iota.
    assert (json.skipSpace
              (json.joinMembers (json.encodeMember m <$> k' :: ks) ++ "}"%char :: t)
            = json.joinMembers (json.encodeMember m <$> k' :: ks) ++ "}"%char :: t)
      as ->.
    { destruct ks; reflexivity. }
    change ("}"%char :: t) with (json.lit "}" ++ t).
    apply (IH ltac:(done) fuel). simpl in Hfuel |- *. lia.
Qed.

(** [Unmarshal] accepts what [Marshal] wrote for any table, and makes a
    table of it. *)
Lemma Unmarshal_Marshal_accepted (m : gmap string string) :
  ∃ t, json.Unmarshal (json.Marshal (Some m)) = Some (Some t).
Proof.
  unfold json.Marshal, json.encodeMap.
  set (ks := merge_sort String.le (json.MapKeys m)).
  pose proof (length_joinMembers_ge m ks) as Hlen.
  clearbody ks.
  unfold json.Unmarshal.
  change (json.skipSpace (json.lit "{" ++ ?x)) with (json.lit "{" ++ x).
  cbn [json.lit bytes_of_string String.list_ascii_of_string app].
  change (code "{" =? 123) with true. cbn iota.
  unfold json.parseObject.
  destruct ks as [|k ks].
  { eexists. reflexivity. }
  assert (∃ q, json.joinMembers (json.encodeMember m <$> k :: ks) ++ ["}"%char]
               = json.dquote :: q) as [q Hq].
  { destruct ks; eexists; reflexivity. }
  rewrite Hq. cbn [json.skipSpace]. change (json.isSpace (code json.dquote)) with false.
  cbn iota. change (code json.dquote =? 125) with false. cbn iota.
  rewrite <- Hq.
  change ["}"%char] with (json.lit "}" ++ []).
  destruct (parseMembers_accepted m (k :: ks) ltac:(done)
              (length (json.joinMembers (json.encodeMember m <$> k :: ks)
                         ++ json.lit "}" ++ [])) ∅ []) as [acc' Hacc].
  - rewrite length_app.
    generalize dependent (length (json.joinMembers (json.encodeMember m <$> k :: ks))).
    intros; lia.
  - rewrite Hacc. cbn [mbind option_bind json.skipSpace]. by eexists.
Qed.

Lemma isSpace_blank (c : ascii) : json.isSpace (code c) = true ↔ blank [c].
Proof.
  unfold blank. rewrite Forall_singleton. split.
  - unfold json.isSpace. rewrite !orb_true_iff, !N.eqb_eq.
    intros Hc. rewrite <- (byte_code c).
    destruct Hc as [[[-> | ->] | ->] | ->]; set_solver.
  - rewrite !elem_of_cons, elem_of_nil. intros [->|[->|[->|[->|[]]]]]; reflexivity.
Qed.

Lemma skipSpace_blank (ws x : bytes) :
  blank ws → json.skipSpace (ws ++ x) = json.skipSpace x.
Proof.
  induction 1 as [|c ws Hc _ IH]; [done|]. cbn [app json.skipSpace].
  assert (blank [c]) as Hb by (by apply Forall_singleton).
  apply isSpace_blank in Hb. by rewrite Hb.
Qed.

Lemma skipSpace_nil_blank (q : bytes) : json.skipSpace q = [] → blank q.
Proof.
  induction q as [|c q IH]; [constructor|]. cbn [json.skipSpace].
  destruct (json.isSpace (code c)) eqn:Hc; [|done].
  intros Hq. constructor; [|by apply IH].
  apply isSpace_blank in Hc. by apply (proj1 (Forall_singleton _ _)) in Hc.
Qed.

Lemma skipSpace_head (c : ascii) (r : bytes) :
  ¬ blank [c] → json.skipSpace (c :: r) = c :: r.
Proof.
  intros Hc. cbn [json.skipSpace].
  destruct (json.isSpace (code c)) eqn:Hs; [|done].
  by apply isSpace_blank in Hs.
Qed.

Lemma Unmarshal_blank (ws : bytes) : blank ws → json.Unmarshal ws = None.
Proof.
  intros Hws. unfold json.Unmarshal.
  rewrite <- (app_nil_r ws), (skipSpace_blank ws [] Hws). done.
Qed.

Lemma Unmarshal_head (ws : bytes) (c : ascii) (r : bytes) :
  blank ws → ¬ blank [c] → c ≠ "{"%char → c ≠ "n"%char →
  json.Unmarshal (ws ++ c :: r) = None.
Proof.
  intros Hws Hc Hbrace Hn. unfold json.Unmarshal.
  rewrite (skipSpace_blank ws _ Hws), (skipSpace_head c r Hc).
  destruct (code c =? 0x7B) eqn:H1.
  { apply N.eqb_eq in H1. destruct Hbrace. by rewrite <- (byte_code c), H1. }
  destruct r as [|c1 [|c2 [|c3 rest]]]; try done.
  destruct (code c =? 0x6E) eqn:H2; [|done].
  apply N.eqb_eq in H2. destruct Hn. by rewrite <- (byte_code c), H2.
Qed.

Lemma valid_accepted (b : bytes) :
  validSerialization b → ∃ t, json.Unmarshal b = Some (Some t).
Proof.
  intros (s & m & Hm & ->). unfold store.GetSnapshot. cbn [fst]. rewrite Hm.
  apply Unmarshal_Marshal_accepted.
Qed.

Lemma valid_last (b : bytes) : validSerialization b → last b = Some "}"%char.
Proof.
  intros (s & m & Hm & ->). unfold store.GetSnapshot. cbn [fst]. rewrite Hm.
  unfold json.Marshal, json.encodeMap. rewrite app_assoc.
  change (json.lit "}") with ["}"%char]. apply last_snoc.
Qed.

Lemma Unmarshal_truncated (b q : bytes) :
  validSerialization (b ++ q) → q ≠ [] → json.Unmarshal b = None.
Proof.
  intros Hfull Hq.
  destruct (json.Unmarshal b) as [t|] eqn:Hb; [|done]. exfalso.
  pose proof (Unmarshal_app b q t Hb) as Happ.
  destruct (valid_accepted _ Hfull) as [t' Ht']. rewrite Ht' in Happ.
  destruct (json.skipSpace q) as [|c r] eqn:Hsp; [|done].
  apply skipSpace_nil_blank in Hsp.
  pose proof (valid_last _ Hfull) as Hlast.
  rewrite last_app in Hlast.
  destruct (last q) as [c|] eqn:Hc.
  - injection Hlast as ->. apply last_Some in Hc as [q' ->].
    apply Forall_app in Hsp as [_ Hsp].
    rewrite Forall_singleton in Hsp.
    rewrite !elem_of_cons, elem_of_nil in Hsp. intuition discriminate.
  - by apply last_None in Hc.
Qed.

Lemma Unmarshal_trailing (b ws : bytes) (c : ascii) (r : bytes) :
  validSerialization b → blank ws → ¬ blank [c] →
  json.Unmarshal (b ++ ws ++ c :: r) = None.
Proof.
  intros Hb Hws Hc. destruct (valid_accepted _ Hb) as [t Ht].
  rewrite (Unmarshal_app _ _ _ Ht).
  by rewrite (skipSpace_blank ws _ Hws), (skipSpace_head c r Hc).
Qed.

Lemma Unmarshal_malformed (b : bytes) : malformed b → json.Unmarshal b = None.
Proof.
  destruct 1 as [ws Hws|ws c r Hws Hc H1 H2|b q Hfull Hq|b ws c r Hb Hws Hc].
  - by apply Unmarshal_blank.
  - by apply Unmarshal_head.
  - by apply (Unmarshal_truncated b q).
  - by apply Unmarshal_trailing.
Qed.

(** C6 (amended). [recoverFromSnapshot] never replaces the table in
    part: either it returns a decode error and the store is exactly as
    before the call, or it returns no error and the table of every store
    it is called on becomes the one decoded from the bytes alone, whole,
    nothing of the old table remaining.  On every valid serialization,
    the bytes [GetSnapshot] returns for a table, it returns no error and
    the store holds a table, which is the table serialized when its keys
    and values are well-formed UTF-8.  It returns a decode error on
    bytes that are blank, that start with anything but an opening brace
    or the letter n, that are a valid serialization cut short, or that
    are a valid serialization followed by more text. *)
Theorem C6_restore_all_or_nothing (s : store.KvStore) (b : bytes) :
  ((∃ err, store.recoverFromSnapshot s b = (Some err, s))
   ∨ (∃ table, ∀ s0, store.recoverFromSnapshot s0 b
                     = (None, store.set_kvStore s0 table)))
  ∧ (validSerialization b →
     ∃ t, store.recoverFromSnapshot s b = (None, store.set_kvStore s (Some t)))
  ∧ (∀ s1 m, store.kvStore s1 = Some m → utf8Table m →
       b = (store.GetSnapshot s1).1.1 →
       store.recoverFromSnapshot s b = (None, store.set_kvStore s (Some m)))
  ∧ (malformed b →
     ∃ err, store.recoverFromSnapshot s b = (Some err, s)).
Proof.
  unfold store.recoverFromSnapshot. split; [|split; [|split]].
  - destruct (json.Unmarshal b) as [table|]; [right|left]; eauto.
  - intros Hb. destruct (valid_accepted b Hb) as [t ->]. eauto.
  - intros s1 m Hm Hutf ->. unfold store.GetSnapshot. cbn [fst snd].
    by rewrite Hm, (Unmarshal_Marshal m Hutf).
  - intros Hb. rewrite (Unmarshal_malformed b Hb). eauto.
Qed.

Lemma C6_restore_all_or_nothing_witness :
  (∃ t, store.recoverFromSnapshot Sample.fresh
          (store.GetSnapshot Sample.binaryStore).1.1
        = (None, store.set_kvStore Sample.fresh (Some t)))
  ∧ store.recoverFromSnapshot Sample.fresh (store.GetSnapshot Sample.textStore).1.1
    = (None, store.set_kvStore Sample.fresh (Some Sample.textTable))
  ∧ ∃ err, store.recoverFromSnapshot Sample.textStore Damaged.truncated
           = (Some err, Sample.textStore).
Proof.
  split; [|split].
  - apply (C6_restore_all_or_nothing Sample.fresh
             (store.GetSnapshot Sample.binaryStore).1.1).
    exists Sample.binaryStore, Sample.binaryTable. by split.
  - apply (C6_restore_all_or_nothing Sample.fresh
             (store.GetSnapshot Sample.textStore).1.1)
      with (s1 := Sample.textStore).
    + reflexivity.
    + unfold utf8Table. apply (bool_decide_unpack _). vm_compute. exact I.
    + reflexivity.
  - apply (C6_restore_all_or_nothing Sample.textStore Damaged.truncated).
    apply (malformed_truncated Damaged.truncated ["}"%char]).
    + exists Sample.textStore, Sample.textTable. split; [reflexivity|].
      vm_compute. reflexivity.
    + discriminate.
Defined.

(** What the encoder writes between the quotes never starts with a
    quote, and never with the letter n before a quote. *)
Lemma string_go_head (fuel : nat) :
  ∀ (s out : bytes) (c : ascii),
    json.string_go fuel s = c :: out → c ≠ json.dquote.
Proof.
  induction fuel as [|fuel IH]; intros s out c; [done|].
  destruct s as [|b0 rest]; [done|]. cbn [json.string_go].
  destruct (code b0 <? utf8.RuneSelf) eqn:Hascii.
  - destruct (_ && _) eqn:Hplain.
    + intros [= <- _] ->. clear -Hplain. vm_compute in Hplain. done.
    + destruct (_ || _); [by intros [= <- _]|].
      destruct (code b0 =? 0x0A); [by intros [= <- _]|].
      destruct (code b0 =? 0x0D); [by intros [= <- _]|].
      destruct (code b0 =? 0x09); by intros [= <- _].
  - destruct (utf8.DecodeRune (b0 :: rest)) as [r size].
    destruct (_ && _); [by intros [= <- _]|].
    destruct (_ || _); [by intros [= <- _]|].
    destruct size as [|size]; [apply IH|].
    cbn [take app]. intros [= <- _] ->. clear -Hascii. vm_compute in Hascii. done.
Qed.

Lemma string_go_n_quote (fuel : nat) :
  ∀ (s out : bytes), json.string_go fuel s ≠ "n"%char :: json.dquote :: out.
Proof.
  induction fuel as [|fuel IH]; intros s out; [done|].
  destruct s as [|b0 rest]; [done|]. cbn [json.string_go].
  destruct (code b0 <? utf8.RuneSelf) eqn:Hascii.
  - destruct (_ && _) eqn:Hplain.
    + intros [= _ Hrest]. by apply string_go_head in Hrest.
    + destruct (_ || _); [done|].
      destruct (code b0 =? 0x0A); [done|].
      destruct (code b0 =? 0x0D); [done|].
      destruct (code b0 =? 0x09); done.
  - destruct (utf8.DecodeRune (b0 :: rest)) as [r size].
    destruct (_ && _); [done|].
    destruct (_ || _); [done|].
    destruct size as [|size]; [apply IH|].
    cbn [take app]. intros [= -> _]. clear -Hascii. vm_compute in Hascii. done.
Qed.

Lemma joinMembers_cons (x : bytes) (xs : list bytes) :
  ∃ tail, json.joinMembers (x :: xs) = x ++ tail.
Proof.
  destruct xs as [|y xs]; cbn [json.joinMembers]; [|by eauto].
  exists []. by rewrite app_nil_r.
Qed.

Lemma nullMember_not_valid : ¬ validSerialization Damaged.nullMember.
Proof.
  intros (s & m & Hm & Hb). unfold store.GetSnapshot in Hb. cbn [fst] in Hb.
  rewrite Hm in Hb. unfold json.Marshal, json.encodeMap in Hb.
  destruct (merge_sort String.le (json.MapKeys m)) as [|k ks]; [done|].
  rewrite fmap_cons in Hb.
  destruct (joinMembers_cons (json.encodeMember m k) (json.encodeMember m <$> ks))
    as [tail Htail].
  rewrite Htail in Hb. clear Htail.
  unfold json.encodeMember, json.encodeString in Hb.
  remember (json.string_go (length (bytes_of_string k)) (bytes_of_string k))
    as X eqn:HX.
  injection Hb as Hb. rewrite <- !app_assoc in Hb.
  cbn [app json.lit bytes_of_string String.list_ascii_of_string] in Hb.
  destruct X as [|x1 [|x2 X]].
  - discriminate Hb.
  - cbn [app] in Hb. injection Hb as _ _ _ Hb. discriminate Hb.
  - cbn [app] in Hb. injection Hb as <- <- _.
    symmetry in HX. by apply string_go_n_quote in HX.
Qed.

(** C6, as stated, fails in its first half.  The JSON text null is not
    the snapshot of any table, and restoring it succeeds and leaves the
    store without a table (a nil map).  The object whose member n is
    null is not the snapshot of any table either, and restoring it
    succeeds with the empty string under n, the old pairs gone. *)
Lemma C6_counterexample :
  ¬ restore_refuses_invalid
  ∧ ¬ validSerialization (json.lit "null")
  ∧ store.recoverFromSnapshot Sample.textStore (json.lit "null")
    = (None, store.set_kvStore Sample.textStore None)
  ∧ ¬ validSerialization Damaged.nullMember
  ∧ ∃ s', store.recoverFromSnapshot Sample.textStore Damaged.nullMember = (None, s')
          ∧ store.Lookup s' "n" = (EmptyString, true)
          ∧ store.Lookup s' "a" = (EmptyString, false).
Proof.
  split; [|split; [|split; [|split]]].
  - intros Hc.
    destruct (Hc Sample.textStore Damaged.nullMember) as [Hrefuse _].
    destruct (Hrefuse nullMember_not_valid) as [err Herr].
    vm_compute in Herr. discriminate Herr.
  - intros (s & m & Hm & Hb). unfold store.GetSnapshot in Hb. cbn [fst] in Hb.
    rewrite Hm in Hb. discriminate Hb.
  - reflexivity.
  - exact nullMember_not_valid.
  - eexists. split; [vm_compute; reflexivity|]. split; vm_compute; reflexivity.
Qed.

(** * Beyond the claims: the apply loop *)

(** X1. Reading is incremental: when the loop has taken the messages
    [l1] and waits for more, what it does on [l1] followed by [l2] is
    what it does on [l2] from the store it waited in.  So the messages
    may arrive in any number of batches. *)
Theorem readCommits_batches {codec : GobCodec} (l1 l2 : list (option string))
    (s s' : store.KvStore) (closed : bool) (errorC errorC' : errorChan) :
  store.readCommits s l1 false errorC' = store.Blocked s' →
  store.readCommits s (l1 ++ l2) closed errorC
  = store.readCommits s' l2 closed errorC.
Proof.
  revert s. induction l1 as [|[data|] l1 IH]; intros s Hrun.
  - cbn in Hrun. by injection Hrun as <-.
  - cbn [app store.readCommits] in *.
    destruct (gobDecode (bytes_of_string data)) as [e|]; [|done].
    destruct (store.applyEntry s e) as [s1|]; [|done].
    by apply IH.
  - cbn [app store.readCommits] in *.
    destruct (snap.Load (store.snapshotter s)) as [res sn].
    destruct res as [snapshot| |err]; [|done..].
    destruct (store.recoverFromSnapshot _ _) as [[err|] s1]; [done|].
    by apply IH.
Qed.

Lemma readCommits_batches_witness :
  store.readCommits (H:=Sample.codec) Sample.fresh
    ([Some (Sample.message Sample.setA1)] ++ [Some (Sample.message Sample.delA)])
    true ErrClosed
  = store.readCommits (H:=Sample.codec)
      (store.set_kvStore Sample.fresh (Some {[ "a"%string := "1"%string ]}))
      [Some (Sample.message Sample.delA)] true ErrClosed.
Proof.
  apply (readCommits_batches (codec:=Sample.codec)
           [Some (Sample.message Sample.setA1)] [Some (Sample.message Sample.delA)]
           Sample.fresh _ true ErrClosed ErrOpen).
  vm_compute. reflexivity.
Defined.

(** X2. Whatever the feed and however the loop ends, it sends no
    proposal, it leaves the answers of the snapshot directory alone, and
    it calls [Load] at most once for each nil message of the feed. *)
Theorem readCommits_frame {codec : GobCodec} (commitC : list (option string))
    (s : store.KvStore) (closed : bool) (errorC : errorChan) :
  let s' := finalStore (store.readCommits s commitC closed errorC) in
  store.proposeC s' = store.proposeC s
  ∧ snap.answers (store.snapshotter s') = snap.answers (store.snapshotter s)
  ∧ (snap.calls (store.snapshotter s) ≤ snap.calls (store.snapshotter s')
     ≤ snap.calls (store.snapshotter s) + sentinels commitC)%nat.
Proof.
  revert s. induction commitC as [|[data|] commitC IH]; intros s; cbv zeta.
  - cbn [store.readCommits]. unfold sentinels. cbn.
    destruct closed; [destruct errorC|]; cbn; repeat split; lia.
  - cbn [store.readCommits].
    replace (sentinels (Some data :: commitC)) with (sentinels commitC)
      by (unfold sentinels; by rewrite filter_cons_False).
    destruct (gobDecode (bytes_of_string data)) as [e|];
      [|cbn; repeat split; lia].
    destruct (store.applyEntry s e) as [s1|] eqn:Happ;
      [|cbn; repeat split; lia].
    assert (store.proposeC s1 = store.proposeC s
            ∧ store.snapshotter s1 = store.snapshotter s) as [Hp Hsn].
    { unfold store.applyEntry in Happ.
      destruct (String.eqb (Opt e) "SET").
      - destruct (store.kvStore s); [|done]. by injection Happ as <-.
      - destruct (String.eqb (Opt e) "DEL"); by injection Happ as <-. }
    specialize (IH s1). cbv zeta in IH.
    rewrite Hp, Hsn in IH. exact IH.
  - cbn [store.readCommits snap.Load].
    replace (sentinels (None :: commitC)) with (S (sentinels commitC))
      by (unfold sentinels; by rewrite filter_cons_True).
    destruct (snap.answers (store.snapshotter s) (snap.calls (store.snapshotter s)))
      as [snapshot| |err]; [|cbn; repeat split; lia..].
    unfold store.recoverFromSnapshot.
    destruct (json.Unmarshal (snap.Data snapshot)) as [table|];
      [|cbn; repeat split; lia].
    match goal with |- context [store.readCommits ?s1 _ _ _] =>
      specialize (IH s1) end.
    cbv zeta in IH. cbn [store.set_kvStore store.proposeC store.snapshotter
                         snap.answers snap.calls] in IH.
    destruct IH as (IH1 & IH2 & IH3). repeat split; [done|done|lia|lia].
Qed.

(** X3. With a table allocated and a snapshot directory in which every
    [Load] either finds no snapshot or finds one whose data
    [json.Unmarshal] decodes into a table, the loop never panics,
    whatever the feed: it ends waiting, returned or in [log.Fatal], and
    with a table still allocated. *)
Theorem readCommits_never_panics {codec : GobCodec}
    (commitC : list (option string)) (s : store.KvStore) (closed : bool)
    (errorC : errorChan) :
  is_Some (store.kvStore s) →
  soundSnapshots (store.snapshotter s) →
  is_Some (store.kvStore (finalStore (store.readCommits s commitC closed errorC)))
  ∧ ∀ s', store.readCommits s commitC closed errorC ≠ store.Panicked s'.
Proof.
  revert s. induction commitC as [|[data|] commitC IH]; intros s Hs Hsound.
  - cbn [store.readCommits].
    destruct closed; [destruct errorC|]; by split.
  - cbn [store.readCommits].
    destruct (gobDecode (bytes_of_string data)) as [e|]; [|by split].
    destruct Hs as [m Hm].
    rewrite (applyEntry_allocated s m e Hm).
    apply IH; [by eexists|done].
  - cbn [store.readCommits snap.Load].
    destruct (Hsound (snap.calls (store.snapshotter s)))
      as [->|(snapshot & m & -> & Hjson)]; [by split|].
    unfold store.recoverFromSnapshot. rewrite Hjson.
    apply IH; [by eexists|done].
Qed.

Lemma readCommits_never_panics_witness :
  is_Some (store.kvStore (finalStore
     (store.readCommits (H:=Sample.codec) (Scenario.over Scenario.restoring)
        [None; Some (Sample.message Sample.setA1); None] true ErrClosed)))
  ∧ ∀ s', store.readCommits (H:=Sample.codec) (Scenario.over Scenario.restoring)
            [None; Some (Sample.message Sample.setA1); None] true ErrClosed
          ≠ store.Panicked s'.
Proof.
  apply (readCommits_never_panics (codec:=Sample.codec)
           [None; Some (Sample.message Sample.setA1); None]
           (Scenario.over Scenario.restoring) true ErrClosed).
  - eexists. reflexivity.
  - intros [|n]; [right|left; reflexivity].
    exists Scenario.saved, Sample.textTable.
    split; [reflexivity|]. vm_compute. reflexivity.
Defined.

(** X4. A snapshot found at the nil message replaces the table: the
    entries applied before it are forgotten, the table becomes the one
    the snapshot holds, the entries after it are applied to that table,
    and the loop goes on reading. *)
Theorem readCommits_restore {codec : GobCodec} (msgs1 msgs2 : list string)
    (es1 es2 : list kv) (s : store.KvStore) (m0 m : gmap string string)
    (snapshot : snap.Snapshot) (errorC : errorChan) :
  decodesTo msgs1 es1 → decodesTo msgs2 es2 →
  store.kvStore s = Some m0 →
  snap.answers (store.snapshotter s) (snap.calls (store.snapshotter s))
    = snap.Loaded snapshot →
  json.Unmarshal (snap.Data snapshot) = Some (Some m) →
  ∃ s', store.readCommits s ((Some <$> msgs1) ++ None :: (Some <$> msgs2))
          false errorC = store.Blocked s'
        ∧ store.kvStore s' = Some (foldl applyOp m es2).
Proof.
  intros Hd1 Hd2 Hm0 Hload Hjson.
  rewrite (readCommits_entries msgs1 es1 Hd1 s m0) by done.
  cbn [store.readCommits snap.Load store.snapshotter store.set_kvStore].
  rewrite Hload. unfold store.recoverFromSnapshot. rewrite Hjson.
  rewrite <- (app_nil_r (Some <$> msgs2)).
  rewrite (readCommits_entries msgs2 es2 Hd2 _ m) by done.
  eexists. split; [reflexivity|done].
Qed.

Lemma readCommits_restore_witness :
  ∃ s', store.readCommits (H:=Sample.codec) (Scenario.over Scenario.restoring)
          ((Some <$> [Sample.message Scenario.setB2])
             ++ None :: (Some <$> [Sample.message Sample.delA]))
          false ErrOpen = store.Blocked s'
        ∧ store.kvStore s' = Some (foldl applyOp Sample.textTable [Sample.delA]).
Proof.
  apply (readCommits_restore (codec:=Sample.codec)
           [Sample.message Scenario.setB2] [Sample.message Sample.delA]
           [Scenario.setB2] [Sample.delA]
           (Scenario.over Scenario.restoring) ∅ Sample.textTable
           Scenario.saved ErrOpen).
  - repeat constructor; vm_compute; reflexivity.
  - repeat constructor; vm_compute; reflexivity.
  - reflexivity.
  - reflexivity.
  - vm_compute. reflexivity.
Defined.

(** X5. When [Load] fails with an error other than the absence of a
    snapshot, or the snapshot found is not the JSON of a table, the loop
    panics at the nil message, with the table as the entries before it
    left it; the messages behind are not read. *)
Theorem readCommits_snapshot_panics {codec : GobCodec} (msgs : list string)
    (es : list kv) (s : store.KvStore) (m0 : gmap string string)
    (rest : list (option string)) (closed : bool) (errorC : errorChan) :
  decodesTo msgs es →
  store.kvStore s = Some m0 →
  (∃ err, snap.answers (store.snapshotter s) (snap.calls (store.snapshotter s))
          = snap.LoadFailed err)
  ∨ (∃ snapshot,
       snap.answers (store.snapshotter s) (snap.calls (store.snapshotter s))
       = snap.Loaded snapshot
       ∧ json.Unmarshal (snap.Data snapshot) = None) →
  ∃ s', store.readCommits s ((Some <$> msgs) ++ None :: rest) closed errorC
        = store.Panicked s'
        ∧ store.kvStore s' = Some (foldl applyOp m0 es).
Proof.
  intros Hd Hm0 Hcase.
  rewrite (readCommits_entries msgs es Hd s m0) by done.
  cbn [store.readCommits snap.Load store.snapshotter store.set_kvStore].
  destruct Hcase as [[err ->]|(snapshot & -> & Hjson)].
  - eexists. split; [reflexivity|done].
  - unfold store.recoverFromSnapshot. rewrite Hjson.
    eexists. split; [reflexivity|done].
Qed.

Lemma readCommits_snapshot_panics_witness :
  ∃ s', store.readCommits (H:=Sample.codec) (Scenario.over Scenario.failing)
          ((Some <$> [Sample.message Sample.setA1])
             ++ None :: [Some (Sample.message Sample.delA)])
          false ErrOpen = store.Panicked s'
        ∧ store.kvStore s' = Some (foldl applyOp ∅ [Sample.setA1]).
Proof.
  apply (readCommits_snapshot_panics (codec:=Sample.codec)
           [Sample.message Sample.setA1] [Sample.setA1]
           (Scenario.over Scenario.failing) ∅
           [Some (Sample.message Sample.delA)] false ErrOpen).
  - repeat constructor; vm_compute; reflexivity.
  - reflexivity.
  - left. eexists. reflexivity.
Defined.

(** X6. When the commit channel is closed behind entries that decode,
    all of them are applied first; then an error waiting on the error
    channel is [log.Fatal], a closed error channel makes the loop return
    with nothing left to read, and an open, empty one makes it block. *)
Theorem readCommits_closed {codec : GobCodec} (msgs : list string) (es : list kv)
    (s : store.KvStore) (m0 : gmap string string) (errorC : errorChan) :
  decodesTo msgs es →
  store.kvStore s = Some m0 →
  store.readCommits s (Some <$> msgs) true errorC
  = let s' := store.set_kvStore s (Some (foldl applyOp m0 es)) in
    match errorC with
    | ErrValue _ => store.Fatal s'
    | ErrClosed => store.Returned s' []
    | ErrOpen => store.Blocked s'
    end.
Proof.
  intros Hd Hm0. rewrite <- (app_nil_r (Some <$> msgs)).
  by rewrite (readCommits_entries msgs es Hd s m0).
Qed.

Lemma readCommits_closed_witness :
  store.readCommits (H:=Sample.codec) Sample.fresh
    (Some <$> [Sample.message Sample.setA1]) true (ErrValue "raft: stopped")
  = store.Fatal (store.set_kvStore Sample.fresh
                   (Some (foldl applyOp ∅ [Sample.setA1]))).
Proof.
  apply (readCommits_closed (codec:=Sample.codec)
           [Sample.message Sample.setA1] [Sample.setA1] Sample.fresh ∅
           (ErrValue "raft: stopped")).
  - repeat constructor; vm_compute; reflexivity.
  - reflexivity.
Defined.

(** X7. Start-up: when the log is replayed up to the nil message and no
    snapshot exists, [NewKVStore] hands the rest of the feed to the
    second call of the loop; every entry before and after the nil
    message is applied once, in order, none is lost at the hand-over, no
    proposal is sent, and a lookup answers what the whole history says. *)
Theorem NewKVStore_replay_then_live {codec : GobCodec} (msgs1 msgs2 : list string)
    (es1 es2 : list kv) (sn : snap.Snapshotter) (proposeC : list string)
    (errorC : errorChan) :
  decodesTo msgs1 es1 → decodesTo msgs2 es2 →
  snap.answers sn (snap.calls sn) = snap.ErrNoSnapshot →
  ∃ s', store.NewKVStore sn proposeC
          ((Some <$> msgs1) ++ None :: (Some <$> msgs2)) false errorC
        = store.Blocked s'
        ∧ store.proposeC s' = proposeC
        ∧ store.kvStore s' = Some (foldl applyOp ∅ (es1 ++ es2))
        ∧ ∀ k, store.Lookup s' k = expectedLookup k (es1 ++ es2).
Proof.
  intros Hd1 Hd2 Hload. unfold store.NewKVStore.
  rewrite (readCommits_entries msgs1 es1 Hd1 _ ∅) by done.
  cbn [store.readCommits snap.Load store.snapshotter store.set_kvStore].
  rewrite Hload.
  rewrite <- (app_nil_r (Some <$> msgs2)).
  rewrite (readCommits_entries msgs2 es2 Hd2 _ (foldl applyOp ∅ es1)) by done.
  eexists. split; [reflexivity|]. split; [done|].
  rewrite <- foldl_app. split; [done|].
  intros k. apply Lookup_foldl_empty.
Qed.

Lemma NewKVStore_replay_then_live_witness :
  ∃ s', store.NewKVStore (H:=Sample.codec) Sample.noSnapshot []
          ((Some <$> [Sample.message Sample.setA1; Sample.message Scenario.setB2])
             ++ None :: (Some <$> [Sample.message Sample.delA]))
          false ErrOpen
        = store.Blocked s'
        ∧ store.proposeC s' = []
        ∧ store.kvStore s'
          = Some (foldl applyOp ∅ ([Sample.setA1; Scenario.setB2] ++ [Sample.delA]))
        ∧ ∀ k, store.Lookup s' k
               = expectedLookup k ([Sample.setA1; Scenario.setB2] ++ [Sample.delA]).
Proof.
  apply (NewKVStore_replay_then_live (codec:=Sample.codec)
           [Sample.message Sample.setA1; Sample.message Scenario.setB2]
           [Sample.message Sample.delA]
           [Sample.setA1; Scenario.setB2] [Sample.delA]
           Sample.noSnapshot [] ErrOpen).
  - repeat constructor; vm_compute; reflexivity.
  - repeat constructor; vm_compute; reflexivity.
  - reflexivity.
Defined.

(** X8. A snapshot whose data is the JSON text null is restored without
    error and leaves the store with a nil map: every lookup then answers
    not found, and the next entry makes the loop panic when it is a SET
    (an assignment to an entry of a nil map), while a DELETE or an entry
    with another tag is skipped over. *)
Theorem readCommits_null_snapshot {codec : GobCodec} (s : store.KvStore)
    (snapshot : snap.Snapshot) (msg : string) (e : kv)
    (rest : list (option string)) (closed : bool) (errorC : errorChan) :
  snap.answers (store.snapshotter s) (snap.calls (store.snapshotter s))
    = snap.Loaded snapshot →
  json.Unmarshal (snap.Data snapshot) = Some None →
  gobDecode (bytes_of_string msg) = Some e →
  ∃ s', store.kvStore s' = None
        ∧ (∀ k, store.Lookup s' k = (EmptyString, false))
        ∧ store.readCommits s (None :: Some msg :: rest) closed errorC
          = (if String.eqb (Opt e) Op.SET then store.Panicked s'
             else store.readCommits s' rest closed errorC).
Proof.
  intros Hload Hjson Hdec.
  cbn [store.readCommits snap.Load]. rewrite Hload.
  unfold store.recoverFromSnapshot. rewrite Hjson, Hdec.
  exists (store.Build_KvStore (store.proposeC s) None
            (snap.Build_Snapshotter (snap.answers (store.snapshotter s))
               (S (snap.calls (store.snapshotter s))))).
  split; [reflexivity|]. split; [done|].
  unfold store.applyEntry, Op.SET.
  cbn [store.kvStore store.set_kvStore store.proposeC store.snapshotter].
  destruct (String.eqb (Opt e) "SET"); [done|].
  by destruct (String.eqb (Opt e) "DEL").
Qed.

Lemma readCommits_null_snapshot_witness :
  ∃ s', store.kvStore s' = None
        ∧ (∀ k, store.Lookup s' k = (EmptyString, false))
        ∧ store.readCommits (H:=Sample.codec) (Scenario.over Scenario.null)
            (None :: Some (Sample.message Sample.setA1) :: []) false ErrOpen
          = (if String.eqb (Opt Sample.setA1) Op.SET then store.Panicked s'
             else store.readCommits (H:=Sample.codec) s' [] false ErrOpen).
Proof.
  apply (readCommits_null_snapshot (codec:=Sample.codec)
           (Scenario.over Scenario.null)
           (snap.Build_Snapshot 1 1 (bytes_of_string "null"))
           (Sample.message Sample.setA1) Sample.setA1 [] false ErrOpen).
  - reflexivity.
  - vm_compute. reflexivity.
  - vm_compute. reflexivity.
Defined.

(** X9. The loop returns in two cases only: at a nil message for which
    [Load] answered that no snapshot exists, leaving exactly the
    messages behind it unread, or at the end of a closed feed with the
    error channel closed too. *)
Theorem readCommits_returns {codec : GobCodec} (commitC rest : list (option string))
    (s s' : store.KvStore) (closed : bool) (errorC : errorChan) :
  store.readCommits s commitC closed errorC = store.Returned s' rest →
  (∃ read n, commitC = read ++ None :: rest
             ∧ snap.calls (store.snapshotter s') = S n
             ∧ snap.answers (store.snapshotter s') n = snap.ErrNoSnapshot)
  ∨ (rest = [] ∧ closed = true ∧ errorC = ErrClosed).
Proof.
  revert s. induction commitC as [|[data|] commitC IH]; intros s.
  - cbn [store.readCommits].
    destruct closed; [destruct errorC|]; try done.
    intros [= <- <-]. by right.
  - cbn [store.readCommits].
    destruct (gobDecode (bytes_of_string data)) as [e|]; [|done].
    destruct (store.applyEntry s e) as [s1|]; [|done].
    intros Hrun. destruct (IH _ Hrun) as [(read & n & -> & Hn)|Hend].
    + left. by exists (Some data :: read), n.
    + by right.
  - cbn [store.readCommits snap.Load].
    destruct (snap.answers (store.snapshotter s) (snap.calls (store.snapshotter s)))
      as [snapshot| |err] eqn:Hload; [| |done].
    + unfold store.recoverFromSnapshot.
      destruct (json.Unmarshal (snap.Data snapshot)) as [table|]; [|done].
      intros Hrun. destruct (IH _ Hrun) as [(read & n & -> & Hn)|Hend].
      * left. by exists (None :: read), n.
      * by right.
    + intros [= <- <-]. left.
      exists [], (snap.calls (store.snapshotter s)). by split.
Qed.

Lemma readCommits_returns_witness :
  (∃ read n,
     [Some (Sample.message Sample.setA1); None; Some (Sample.message Sample.delA)]
     = read ++ None :: [Some (Sample.message Sample.delA)]
     ∧ snap.calls (store.snapshotter
                     (store.Build_KvStore [] (Some {[ "a"%string := "1"%string ]})
                        (snap.Build_Snapshotter (snap.answers Sample.noSnapshot) 1)))
       = S n
     ∧ snap.answers (store.snapshotter
                       (store.Build_KvStore [] (Some {[ "a"%string := "1"%string ]})
                          (snap.Build_Snapshotter (snap.answers Sample.noSnapshot) 1)))
         n = snap.ErrNoSnapshot)
  ∨ ([Some (Sample.message Sample.delA)] = [] ∧ false = true ∧ ErrOpen = ErrClosed).
Proof.
  apply (readCommits_returns (codec:=Sample.codec)
           [Some (Sample.message Sample.setA1); None; Some (Sample.message Sample.delA)]
           [Some (Sample.message Sample.delA)]
           Sample.fresh
           (store.Build_KvStore [] (Some {[ "a"%string := "1"%string ]})
              (snap.Build_Snapshotter (snap.answers Sample.noSnapshot) 1))
           false ErrOpen).
  vm_compute. reflexivity.
Defined.

(** X10. Entries on different keys commute: applying two of them in
    either order gives the same store, or the same panic on a nil map. *)
Theorem applyEntry_commute (s : store.KvStore) (e1 e2 : kv) :
  Key e1 ≠ Key e2 →
  store.applyEntry s e1 ≫= (λ s1, store.applyEntry s1 e2)
  = store.applyEntry s e2 ≫= (λ s2, store.applyEntry s2 e1).
Proof.
  intros Hne. unfold store.applyEntry.
  destruct s as [pc [m|] sn]; cbn;
    destruct (String.eqb (Opt e1) "SET"), (String.eqb (Opt e1) "DEL"),
             (String.eqb (Opt e2) "SET"), (String.eqb (Opt e2) "DEL");
    cbn; try done; unfold store.set_kvStore; cbn; do 3 f_equal.
  all: first [ by apply insert_insert_ne
             | by rewrite delete_insert_ne
             | by rewrite delete_insert_ne by done
             | by apply delete_delete
             | idtac ].
Qed.

Lemma applyEntry_commute_witness :
  store.applyEntry Sample.textStore Sample.delA
    ≫= (λ s1, store.applyEntry s1 Scenario.setB2)
  = store.applyEntry Sample.textStore Scenario.setB2
    ≫= (λ s2, store.applyEntry s2 Sample.delA).
Proof.
  apply (applyEntry_commute Sample.textStore Sample.delA Scenario.setB2).
  discriminate.
Defined.

(** * Beyond the claims: snapshots between replicas *)

Lemma Unmarshal_GetSnapshot (s : store.KvStore) :
  utf8Store s →
  json.Unmarshal (store.GetSnapshot s).1.1 = Some (store.kvStore s).
Proof.
  unfold utf8Store, store.GetSnapshot. cbn [fst snd].
  destruct (store.kvStore s) as [m|]; intros Hutf.
  - by apply Unmarshal_Marshal.
  - reflexivity.
Qed.

(** X11. Snapshots tell tables apart: two stores whose keys and values
    are well-formed UTF-8 give the same snapshot bytes exactly when they
    hold the same table; neither the proposals sent nor the snapshot
    directory show in the bytes. *)
Theorem GetSnapshot_injective (s1 s2 : store.KvStore) :
  utf8Store s1 → utf8Store s2 →
  (store.GetSnapshot s1).1.1 = (store.GetSnapshot s2).1.1
  ↔ store.kvStore s1 = store.kvStore s2.
Proof.
  intros H1 H2. split.
  - intros Heq.
    pose proof (Unmarshal_GetSnapshot s1 H1) as Hu1.
    pose proof (Unmarshal_GetSnapshot s2 H2) as Hu2.
    rewrite Heq in Hu1. rewrite Hu1 in Hu2. by injection Hu2.
  - unfold store.GetSnapshot. cbn [fst]. by intros ->.
Qed.

Lemma GetSnapshot_injective_witness :
  (store.GetSnapshot Sample.textStore).1.1
  = (store.GetSnapshot (store.Build_KvStore ["sent"%string] (Some Sample.textTable)
                          Scenario.failing)).1.1
  ↔ store.kvStore Sample.textStore
    = store.kvStore (store.Build_KvStore ["sent"%string] (Some Sample.textTable)
                       Scenario.failing).
Proof.
  apply (GetSnapshot_injective Sample.textStore
           (store.Build_KvStore ["sent"%string] (Some Sample.textTable)
              Scenario.failing)).
  - unfold utf8Store, utf8Table. cbn [store.kvStore Sample.textStore].
    apply (bool_decide_unpack _). vm_compute. exact I.
  - unfold utf8Store, utf8Table. cbn [store.kvStore].
    apply (bool_decide_unpack _). vm_compute. exact I.
Defined.

(** X12. A replica catches up from a snapshot: a store that restores the
    snapshot of another and then applies the same entries ends with the
    same table, and answers every lookup alike, as the store that took
    the snapshot and applied them itself. *)
Theorem restore_then_apply {codec : GobCodec} (s r : store.KvStore)
    (m : gmap string string) (msgs : list string) (es : list kv)
    (errorC : errorChan) :
  store.kvStore s = Some m → utf8Table m →
  decodesTo msgs es →
  ∃ r1 r2 s2,
    store.recoverFromSnapshot r (store.GetSnapshot s).1.1 = (None, r1)
    ∧ store.readCommits r1 (Some <$> msgs) false errorC = store.Blocked r2
    ∧ store.readCommits s (Some <$> msgs) false errorC = store.Blocked s2
    ∧ store.kvStore r2 = store.kvStore s2
    ∧ ∀ k, store.Lookup r2 k = store.Lookup s2 k.
Proof.
  intros Hm Hutf Hd.
  exists (store.set_kvStore r (Some m)),
         (store.set_kvStore r (Some (foldl applyOp m es))),
         (store.set_kvStore s (Some (foldl applyOp m es))).
  split; [|split; [|split; [|split]]].
  - unfold store.recoverFromSnapshot, store.GetSnapshot. cbn [fst snd].
    rewrite Hm. by rewrite (Unmarshal_Marshal m Hutf).
  - rewrite <- (app_nil_r (Some <$> msgs)).
    by rewrite (readCommits_entries msgs es Hd _ m).
  - rewrite <- (app_nil_r (Some <$> msgs)).
    by rewrite (readCommits_entries msgs es Hd _ m).
  - done.
  - done.
Qed.

Lemma restore_then_apply_witness :
  ∃ r1 r2 s2,
    store.recoverFromSnapshot Sample.fresh (store.GetSnapshot Sample.textStore).1.1
    = (None, r1)
    ∧ store.readCommits (H:=Sample.codec) r1
        (Some <$> [Sample.message Sample.delA]) false ErrOpen = store.Blocked r2
    ∧ store.readCommits (H:=Sample.codec) Sample.textStore
        (Some <$> [Sample.message Sample.delA]) false ErrOpen = store.Blocked s2
    ∧ store.kvStore r2 = store.kvStore s2
    ∧ ∀ k, store.Lookup r2 k = store.Lookup s2 k.
Proof.
  apply (restore_then_apply (codec:=Sample.codec) Sample.textStore Sample.fresh
           Sample.textTable [Sample.message Sample.delA] [Sample.delA] ErrOpen).
  - reflexivity.
  - unfold utf8Table. apply (bool_decide_unpack _). vm_compute. exact I.
  - repeat constructor; vm_compute; reflexivity.
Defined.

(** * Beyond the claims: the HTTP handler *)

Lemma status_Error {sniffer : http.ContentSniffer} (w : http.ResponseWriter)
    (error : string) (code : nat) :
  http.wrote w = None → (http.response (http.Error w error code)).1 = code.
Proof. apply response_Error. Qed.

Ltac status_of Hw :=
  first [ rewrite response_WriteHeader by exact Hw
        | rewrite status_Error by exact Hw
        | rewrite (proj2 (Write_fresh _ _ Hw))
        | unfold http.response; rewrite Hw ];
  cbn; set_solver.

(** X13. GET answers from the table and changes nothing.  For a key the
    table holds, the answer has status 200 and the value as its body;
    its header is the caller's, with the content type sniffed from the
    value added when the caller set neither a Content-Type nor a
    Transfer-Encoding.  For a key the table does not hold, or a nil
    table, the answer has status 404, the line Failed to GET as its body
    and the content type of plain text.  The store and the configuration
    changes are as before. *)
Theorem ServeHTTP_GET {codec : GobCodec} {sniffer : http.ContentSniffer}
    (ParseUint : string → option N) (h : httpd.HttpKVAPI)
    (w : http.ResponseWriter) (key : string) (body : option bytes) :
  http.wrote w = None →
  ∃ w', httpd.ServeHTTP ParseUint h w (http.Build_Request "GET" key body)
        = httpd.Served h w'
        ∧ match store.kvStore (httpd.store_ h) ≫= (λ m, m !! key) with
          | Some v =>
              http.body w' = http.body w ++ bytes_of_string v
              ∧ http.response w'
                = (http.StatusOK,
                   if bool_decide
                        (http.Header w !! "Content-Type"%string = None
                         ∧ http.Get "Transfer-Encoding" (http.Header w)
                           = EmptyString)
                   then <["Content-Type"%string
                          := [http.DetectContentType (bytes_of_string v)]]>
                          (http.Header w)
                   else http.Header w)
          | None =>
              (http.response w').1 = http.StatusNotFound
              ∧ http.body w'
                = http.body w ++ bytes_of_string "Failed to GET" ++ [byte 0x0A]
              ∧ (http.response w').2 !! "Content-Type"%string
                = Some ["text/plain; charset=utf-8"%string]
          end.
Proof.
  intros Hw. unfold httpd.ServeHTTP, store.Lookup.
  cbn [http.Method http.RequestURI String.eqb Ascii.eqb Bool.eqb].
  assert (∀ w', w' = http.Error w "Failed to GET" http.StatusNotFound →
            (http.response w').1 = http.StatusNotFound
            ∧ http.body w'
              = http.body w ++ bytes_of_string "Failed to GET" ++ [byte 0x0A]
            ∧ (http.response w').2 !! "Content-Type"%string
              = Some ["text/plain; charset=utf-8"%string]) as Hmiss.
  { intros w' ->. rewrite (Error_fresh w _ _ Hw).
    unfold http.response. simpl. split; [done|]. split; [done|].
    rewrite lookup_insert_ne by done. by rewrite lookup_insert_eq. }
  destruct (store.kvStore (httpd.store_ h)) as [m|]; cbn [mbind option_bind].
  - destruct (m !! key) as [v|].
    + eexists. split; [reflexivity|]. by apply Write_fresh.
    + eexists. split; [reflexivity|]. by apply Hmiss.
  - eexists. split; [reflexivity|]. by apply Hmiss.
Qed.

Lemma ServeHTTP_GET_witness :
  ∃ w', httpd.ServeHTTP (H:=Sample.codec) (sniffer:=Scenario.plainText)
          Scenario.parseTwo Scenario.api http.newResponseWriter
          (http.Build_Request "GET" "b" None)
        = httpd.Served Scenario.api w'
        ∧ match store.kvStore (httpd.store_ Scenario.api)
                ≫= (λ m, m !! "b"%string) with
          | Some v =>
              http.body w' = http.body http.newResponseWriter ++ bytes_of_string v
              ∧ http.response w'
                = (http.StatusOK,
                   if bool_decide
                        (http.Header http.newResponseWriter !! "Content-Type"%string
                         = None
                         ∧ http.Get "Transfer-Encoding"
                             (http.Header http.newResponseWriter)
                           = EmptyString)
                   then <["Content-Type"%string
                          := [http.DetectContentType (ContentSniffer:=Scenario.plainText)
                                (bytes_of_string v)]]>
                          (http.Header http.newResponseWriter)
                   else http.Header http.newResponseWriter)
          | None =>
              (http.response w').1 = http.StatusNotFound
              ∧ http.body w'
                = http.body http.newResponseWriter
                    ++ bytes_of_string "Failed to GET" ++ [byte 0x0A]
              ∧ (http.response w').2 !! "Content-Type"%string
                = Some ["text/plain; charset=utf-8"%string]
          end.
Proof.
  apply (ServeHTTP_GET (codec:=Sample.codec) (sniffer:=Scenario.plainText)
           Scenario.parseTwo Scenario.api http.newResponseWriter "b" None).
  reflexivity.
Defined.

(** X14. A PUT or a POST whose body cannot be read is answered with
    status 400, and nothing is proposed and no configuration change is
    sent. *)
Theorem ServeHTTP_unreadable_body {codec : GobCodec} {sniffer : http.ContentSniffer}
    (ParseUint : string → option N) (h : httpd.HttpKVAPI)
    (w : http.ResponseWriter) (method key : string) :
  method = "PUT"%string ∨ method = "POST"%string →
  http.wrote w = None →
  ∃ w', httpd.ServeHTTP ParseUint h w (http.Build_Request method key None)
        = httpd.Served h w'
        ∧ (http.response w').1 = http.StatusBadRequest
        ∧ http.body w'
          = http.body w ++ bytes_of_string ("Failed on " +:+ method) ++ [byte 0x0A].
Proof.
  intros [-> | ->] Hw; unfold httpd.ServeHTTP;
    cbn [http.Method http.Body String.eqb Ascii.eqb Bool.eqb];
    (eexists; split; [reflexivity|]);
    by apply response_Error.
Qed.

Lemma ServeHTTP_unreadable_body_witness :
  ∃ w', httpd.ServeHTTP (sniffer:=Scenario.plainText) (H:=Sample.codec)
        Scenario.parseTwo Scenario.api
          http.newResponseWriter (http.Build_Request "PUT" "/a" None)
        = httpd.Served Scenario.api w'
        ∧ (http.response w').1 = http.StatusBadRequest
        ∧ http.body w'
          = http.body http.newResponseWriter
              ++ bytes_of_string ("Failed on " +:+ "PUT") ++ [byte 0x0A].
Proof.
  apply (ServeHTTP_unreadable_body (codec:=Sample.codec) (sniffer:=Scenario.plainText)
           Scenario.parseTwo
           Scenario.api http.newResponseWriter "PUT" "/a").
  - left. reflexivity.
  - reflexivity.
Defined.

(** X15. POST reads the node id from the request URI without its first
    byte.  When it parses, one change is sent, of type AddNode, with that
    id and the body as its context, and the answer is 204; when it does
    not, the answer is 400 and no change is sent.  The store is as before
    in both cases. *)
Theorem ServeHTTP_POST {codec : GobCodec} {sniffer : http.ContentSniffer}
    (ParseUint : string → option N)
    (h : httpd.HttpKVAPI) (w : http.ResponseWriter) (c : ascii) (id : string)
    (url : bytes) :
  http.wrote w = None →
  ∃ w', match ParseUint id with
        | Some nodeId =>
            httpd.ServeHTTP ParseUint h w
              (http.Build_Request "POST" (String c id) (Some url))
            = httpd.Served
                (httpd.Build_HttpKVAPI (httpd.store_ h)
                   (httpd.confChangeC h
                      ++ [raftpb.Build_ConfChange raftpb.ConfChangeAddNode nodeId url]))
                w'
            ∧ http.response w' = (http.StatusNoContent, http.Header w)
        | None =>
            httpd.ServeHTTP ParseUint h w
              (http.Build_Request "POST" (String c id) (Some url))
            = httpd.Served h w'
            ∧ (http.response w').1 = http.StatusBadRequest
        end.
Proof.
  intros Hw. unfold httpd.ServeHTTP.
  cbn [http.Method http.Body http.RequestURI String.eqb Ascii.eqb Bool.eqb].
  destruct (ParseUint id) as [nodeId|].
  - eexists. split; [reflexivity|]. by apply response_WriteHeader.
  - eexists. split; [reflexivity|]. by apply response_Error.
Qed.

Lemma ServeHTTP_POST_witness :
  ∃ w', match Scenario.parseTwo "2" with
        | Some nodeId =>
            httpd.ServeHTTP (sniffer:=Scenario.plainText) (H:=Sample.codec)
                  Scenario.parseTwo Scenario.api
              http.newResponseWriter
              (http.Build_Request "POST" (String "/" "2")
                 (Some (bytes_of_string "http://127.0.0.1:22379")))
            = httpd.Served
                (httpd.Build_HttpKVAPI (httpd.store_ Scenario.api)
                   (httpd.confChangeC Scenario.api
                      ++ [raftpb.Build_ConfChange raftpb.ConfChangeAddNode nodeId
                            (bytes_of_string "http://127.0.0.1:22379")]))
                w'
            ∧ http.response w'
              = (http.StatusNoContent, http.Header http.newResponseWriter)
        | None =>
            httpd.ServeHTTP (sniffer:=Scenario.plainText) (H:=Sample.codec)
                  Scenario.parseTwo Scenario.api
              http.newResponseWriter
              (http.Build_Request "POST" (String "/" "2")
                 (Some (bytes_of_string "http://127.0.0.1:22379")))
            = httpd.Served Scenario.api w'
            ∧ (http.response w').1 = http.StatusBadRequest
        end.
Proof.
  apply (ServeHTTP_POST (codec:=Sample.codec) (sniffer:=Scenario.plainText)
           Scenario.parseTwo Scenario.api
           http.newResponseWriter "/" "2" (bytes_of_string "http://127.0.0.1:22379")).
  reflexivity.
Defined.

(** X16. What no request does: whenever the handler returns, the table
    and the snapshot directory are as before; at most one proposal and
    at most one configuration change, of type AddNode, were sent; and on
    a response not yet started the status is one of 200, 204, 400, 404
    and 405. *)
Theorem ServeHTTP_frame {codec : GobCodec} {sniffer : http.ContentSniffer}
    (ParseUint : string → option N)
    (h h' : httpd.HttpKVAPI) (w w' : http.ResponseWriter) (r : http.Request) :
  httpd.ServeHTTP ParseUint h w r = httpd.Served h' w' →
  store.kvStore (httpd.store_ h') = store.kvStore (httpd.store_ h)
  ∧ store.snapshotter (httpd.store_ h') = store.snapshotter (httpd.store_ h)
  ∧ (store.proposeC (httpd.store_ h') = store.proposeC (httpd.store_ h)
     ∨ ∃ msg, store.proposeC (httpd.store_ h')
              = store.proposeC (httpd.store_ h) ++ [msg])
  ∧ (httpd.confChangeC h' = httpd.confChangeC h
     ∨ ∃ cc, httpd.confChangeC h' = httpd.confChangeC h ++ [cc]
             ∧ raftpb.Type_ cc = raftpb.ConfChangeAddNode)
  ∧ (http.wrote w = None →
     (http.response w').1 ∈ [http.StatusOK; http.StatusNoContent;
                             http.StatusBadRequest; http.StatusNotFound;
                             http.StatusMethodNotAllowed]).
Proof.
  unfold httpd.ServeHTTP, store.Propose.
  destruct (String.eqb (http.Method r) "PUT").
  { destruct (http.Body r) as [v|].
    - destruct (gobEncode _) as [buf|]; [|done]. intros [= <- <-].
      repeat split; eauto.
      intros Hw. status_of Hw.
    - intros [= <- <-]. repeat split; eauto.
      intros Hw. status_of Hw. }
  destruct (String.eqb (http.Method r) "GET").
  { destruct (store.Lookup (httpd.store_ h) (http.RequestURI r)) as [v [|]];
      intros [= <- <-]; repeat split; eauto; intros Hw.
    - status_of Hw.
    - status_of Hw. }
  destruct (String.eqb (http.Method r) "POST").
  { destruct (http.Body r) as [url|].
    - destruct (http.RequestURI r) as [|c key1]; [done|].
      destruct (ParseUint key1) as [nodeId|]; intros [= <- <-].
      + repeat split; eauto.
        intros Hw. status_of Hw.
      + repeat split; eauto.
        intros Hw. status_of Hw.
    - intros [= <- <-]. repeat split; eauto.
      intros Hw. status_of Hw. }
  destruct (String.eqb (http.Method r) "DELETE").
  { destruct (gobEncode _) as [buf|]; [|done]. intros [= <- <-].
    repeat split; eauto.
    intros Hw. status_of Hw. }
  intros [= <- <-]. repeat split; eauto.
  intros Hw. status_of Hw.
Qed.

Lemma ServeHTTP_frame_witness :
  store.kvStore (httpd.store_ Scenario.api) = store.kvStore (httpd.store_ Scenario.api)
  ∧ store.snapshotter (httpd.store_ Scenario.api)
    = store.snapshotter (httpd.store_ Scenario.api)
  ∧ (store.proposeC (httpd.store_ Scenario.api)
     = store.proposeC (httpd.store_ Scenario.api)
     ∨ ∃ msg, store.proposeC (httpd.store_ Scenario.api)
              = store.proposeC (httpd.store_ Scenario.api) ++ [msg])
  ∧ (httpd.confChangeC Scenario.api = httpd.confChangeC Scenario.api
     ∨ ∃ cc, httpd.confChangeC Scenario.api = httpd.confChangeC Scenario.api ++ [cc]
             ∧ raftpb.Type_ cc = raftpb.ConfChangeAddNode)
  ∧ (http.wrote http.newResponseWriter = None →
     (http.response (http.Write (sniffer:=Scenario.plainText)
           (bytes_of_string "x<y") http.newResponseWriter)).1
     ∈ [http.StatusOK; http.StatusNoContent; http.StatusBadRequest;
        http.StatusNotFound; http.StatusMethodNotAllowed]).
Proof.
  apply (ServeHTTP_frame (codec:=Sample.codec) (sniffer:=Scenario.plainText)
           Scenario.parseTwo Scenario.api
           Scenario.api http.newResponseWriter
           (http.Write (sniffer:=Scenario.plainText)
                 (bytes_of_string "x<y") http.newResponseWriter)
           (http.Build_Request "GET" "b" None)).
  vm_compute. reflexivity.
Defined.

Ltac settle :=
  repeat split; intros;
  repeat match goal with
    | H : _ ∧ _ |- _ => destruct H
    | H : _ ∨ _ |- _ => destruct H
    | H : ∃ _, _ |- _ => destruct H
    | H : is_Some _ |- _ => destruct H
    end;
  try congruence; eauto 6.

(** X17. The handler ends abnormally in two ways only.  It panics
    exactly on a POST with a readable body and an empty request URI (the
    slice of the URI from its second byte); and the process exits in
    [log.Fatal] exactly when the proposal of a PUT with a readable body,
    or of a DELETE, cannot be encoded.  GET never ends abnormally. *)
Theorem ServeHTTP_abnormal {codec : GobCodec} {sniffer : http.ContentSniffer}
    (ParseUint : string → option N)
    (h : httpd.HttpKVAPI) (w : http.ResponseWriter) (r : http.Request) :
  (httpd.ServeHTTP ParseUint h w r = httpd.HandlerPanic
   ↔ http.Method r = "POST"%string ∧ is_Some (http.Body r)
     ∧ http.RequestURI r = EmptyString)
  ∧ (httpd.ServeHTTP ParseUint h w r = httpd.HandlerFatal
     ↔ (http.Method r = "PUT"%string
        ∧ ∃ v, http.Body r = Some v
               ∧ gobEncode (Build_kv (http.RequestURI r) (string_of_bytes v) Op.SET)
                 = None)
       ∨ (http.Method r = "DELETE"%string
          ∧ gobEncode (Build_kv (http.RequestURI r) EmptyString Op.DELETE) = None)).
Proof.
  unfold httpd.ServeHTTP, store.Propose, Op.SET, Op.DELETE.
  destruct (String.eqb (http.Method r) "PUT") eqn:Hput.
  { apply eqb_string_true in Hput. rewrite Hput.
    destruct (http.Body r) as [v|]; [|settle].
    destruct (gobEncode _) as [buf|] eqn:Henc; settle. }
  destruct (String.eqb (http.Method r) "GET") eqn:Hget.
  { apply eqb_string_true in Hget. rewrite Hget.
    destruct (store.Lookup _ _) as [v [|]]; settle. }
  destruct (String.eqb (http.Method r) "POST") eqn:Hpost.
  { apply eqb_string_true in Hpost. rewrite Hpost.
    destruct (http.Body r) as [url|]; [|settle].
    destruct (http.RequestURI r) as [|c key1]; [settle|].
    destruct (ParseUint key1); settle. }
  apply eqb_string_false in Hput, Hget, Hpost.
  destruct (String.eqb (http.Method r) "DELETE") eqn:Hdel.
  { apply eqb_string_true in Hdel.
    destruct (gobEncode _) as [buf|] eqn:Henc; settle. }
  apply eqb_string_false in Hdel. settle.
Qed.

(** * Beyond the claims: from a request to the table *)

(** What [Propose] sends, in a process where gob gave [kv] the type id
    [tid]: one message, which decodes to the entry proposed. *)
Lemma Propose_gobWire (tid : Z) (s : store.KvStore) (k v op : string) :
  (64 ≤ tid < 2 ^ 31)%Z →
  N.of_nat (String.length k + String.length v + String.length op) < 2 ^ 32 →
  ∃ msg, store.Propose (H:=gobWire tid) s k v op
         = Some (store.Build_KvStore (store.proposeC s ++ [msg])
                   (store.kvStore s) (store.snapshotter s))
         ∧ gob.Decode (bytes_of_string msg) = Some (Build_kv k v op).
Proof.
  intros Htid Hlen. unfold store.Propose. cbn [gobEncode gobWire].
  destruct (Encode_is_Some tid (Build_kv k v op) Hlen) as [buf Hbuf].
  rewrite Hbuf. exists (string_of_bytes buf). split; [done|].
  rewrite bytes_of_string_of_bytes. by apply (Decode_Encode tid).
Qed.

Lemma length_string_of_bytes (b : bytes) :
  String.length (string_of_bytes b) = length b.
Proof.
  by rewrite <- (length_bytes_of_string (string_of_bytes b)),
       bytes_of_string_of_bytes.
Qed.

(** X18. A PUT with a readable body of less than 2 GiB together with
    the request URI never ends in [log.Fatal]: it proposes exactly one
    message, which decodes to the entry SET with the request URI as key
    and the body as value, answers 204 with the header as the caller
    left it, and leaves the table as it was: the new value is not
    visible before the proposal is committed. *)
Theorem ServeHTTP_PUT {sniffer : http.ContentSniffer} (tid : Z)
    (ParseUint : string → option N)
    (h : httpd.HttpKVAPI) (w : http.ResponseWriter) (key : string) (v : bytes) :
  (64 ≤ tid < 2 ^ 31)%Z →
  N.of_nat (String.length key + length v) < 2 ^ 31 →
  http.wrote w = None →
  ∃ msg,
    httpd.ServeHTTP (H:=gobWire tid) ParseUint h w
      (http.Build_Request "PUT" key (Some v))
    = httpd.Served
        (httpd.Build_HttpKVAPI
           (store.Build_KvStore (store.proposeC (httpd.store_ h) ++ [msg])
              (store.kvStore (httpd.store_ h)) (store.snapshotter (httpd.store_ h)))
           (httpd.confChangeC h))
        (http.WriteHeader http.StatusNoContent w)
    ∧ gob.Decode (bytes_of_string msg)
      = Some (Build_kv key (string_of_bytes v) Op.SET)
    ∧ http.response (http.WriteHeader http.StatusNoContent w)
      = (http.StatusNoContent, http.Header w).
Proof.
  intros Htid Hlen Hw.
  destruct (Propose_gobWire tid (httpd.store_ h) key (string_of_bytes v) Op.SET Htid)
    as (msg & Hprop & Hdec).
  { rewrite length_string_of_bytes. cbn [String.length Op.SET].
    change (2 ^ 31) with 2147483648 in Hlen. change (2 ^ 32) with 4294967296. lia. }
  exists msg. unfold httpd.ServeHTTP.
  cbn [http.Method http.Body http.RequestURI String.eqb Ascii.eqb Bool.eqb].
  unfold Op.SET in Hprop. rewrite Hprop. split; [done|]. split; [done|].
  unfold http.response, http.WriteHeader. by rewrite Hw.
Qed.

Lemma ServeHTTP_PUT_witness :
  ∃ msg,
    httpd.ServeHTTP (sniffer:=Scenario.plainText) (H:=gobWire 65)
          Scenario.parseTwo Scenario.api
      http.newResponseWriter
      (http.Build_Request "PUT" "/k" (Some (bytes_of_string "v")))
    = httpd.Served
        (httpd.Build_HttpKVAPI
           (store.Build_KvStore
              (store.proposeC (httpd.store_ Scenario.api) ++ [msg])
              (store.kvStore (httpd.store_ Scenario.api))
              (store.snapshotter (httpd.store_ Scenario.api)))
           (httpd.confChangeC Scenario.api))
        (http.WriteHeader http.StatusNoContent http.newResponseWriter)
    ∧ gob.Decode (bytes_of_string msg)
      = Some (Build_kv "/k" (string_of_bytes (bytes_of_string "v")) Op.SET)
    ∧ http.response (http.WriteHeader http.StatusNoContent http.newResponseWriter)
      = (http.StatusNoContent, http.Header http.newResponseWriter).
Proof.
  apply (ServeHTTP_PUT (sniffer:=Scenario.plainText) 65
        Scenario.parseTwo Scenario.api http.newResponseWriter
           "/k" (bytes_of_string "v")).
  - lia.
  - vm_compute. reflexivity.
  - reflexivity.
Defined.

(** X19. A DELETE never looks at the body and never writes a status or
    a body of its own: it proposes exactly one message, which decodes to
    the entry with the request URI as key, the empty value and the
    deleting tag, and returns with the response untouched, so that the
    server answers 200 with an empty body; the table is as it was. *)
Theorem ServeHTTP_DELETE {sniffer : http.ContentSniffer} (tid : Z)
    (ParseUint : string → option N)
    (h : httpd.HttpKVAPI) (w : http.ResponseWriter) (key : string)
    (body : option bytes) :
  (64 ≤ tid < 2 ^ 31)%Z →
  N.of_nat (String.length key) < 2 ^ 31 →
  ∃ msg,
    httpd.ServeHTTP (H:=gobWire tid) ParseUint h w
      (http.Build_Request "DELETE" key body)
    = httpd.Served
        (httpd.Build_HttpKVAPI
           (store.Build_KvStore (store.proposeC (httpd.store_ h) ++ [msg])
              (store.kvStore (httpd.store_ h)) (store.snapshotter (httpd.store_ h)))
           (httpd.confChangeC h))
        w
    ∧ gob.Decode (bytes_of_string msg) = Some (Build_kv key EmptyString Op.DELETE)
    ∧ (http.wrote w = None → http.response w = (http.StatusOK, http.Header w)).
Proof.
  intros Htid Hlen.
  destruct (Propose_gobWire tid (httpd.store_ h) key EmptyString Op.DELETE Htid)
    as (msg & Hprop & Hdec).
  { cbn [String.length Op.DELETE].
    change (2 ^ 31) with 2147483648 in Hlen. change (2 ^ 32) with 4294967296. lia. }
  exists msg. unfold httpd.ServeHTTP.
  cbn [http.Method http.Body http.RequestURI String.eqb Ascii.eqb Bool.eqb].
  unfold Op.DELETE in Hprop. rewrite Hprop. split; [done|]. split; [done|].
  intros Hw. unfold http.response. by rewrite Hw.
Qed.

Lemma ServeHTTP_DELETE_witness :
  ∃ msg,
    httpd.ServeHTTP (sniffer:=Scenario.plainText) (H:=gobWire 65)
          Scenario.parseTwo Scenario.api
      http.newResponseWriter (http.Build_Request "DELETE" "a" None)
    = httpd.Served
        (httpd.Build_HttpKVAPI
           (store.Build_KvStore
              (store.proposeC (httpd.store_ Scenario.api) ++ [msg])
              (store.kvStore (httpd.store_ Scenario.api))
              (store.snapshotter (httpd.store_ Scenario.api)))
           (httpd.confChangeC Scenario.api))
        http.newResponseWriter
    ∧ gob.Decode (bytes_of_string msg) = Some (Build_kv "a" EmptyString Op.DELETE)
    ∧ (http.wrote http.newResponseWriter = None →
       http.response http.newResponseWriter
       = (http.StatusOK, http.Header http.newResponseWriter)).
Proof.
  apply (ServeHTTP_DELETE (sniffer:=Scenario.plainText) 65
        Scenario.parseTwo Scenario.api http.newResponseWriter
           "a" None).
  - lia.
  - vm_compute. reflexivity.
Defined.

(** X20. From PUT to GET: the message a PUT proposes, once delivered on
    the commit channel of a store with an allocated table, makes the
    table hold the body under the request URI, and a GET of the same URI
    then writes exactly the bytes that were put, whatever bytes they are. *)
Theorem put_commit_get {sniffer : http.ContentSniffer} (tid : Z)
    (ParseUint : string → option N)
    (h : httpd.HttpKVAPI) (m : gmap string string) (w w' : http.ResponseWriter)
    (key : string) (v : bytes) (errorC : errorChan) :
  (64 ≤ tid < 2 ^ 31)%Z →
  N.of_nat (String.length key + length v) < 2 ^ 31 →
  store.kvStore (httpd.store_ h) = Some m →
  ∃ h1 msg s2,
    httpd.ServeHTTP (H:=gobWire tid) ParseUint h w
      (http.Build_Request "PUT" key (Some v))
    = httpd.Served h1 (http.WriteHeader http.StatusNoContent w)
    ∧ store.Lookup (httpd.store_ h1) key = store.Lookup (httpd.store_ h) key
    ∧ store.proposeC (httpd.store_ h1) = store.proposeC (httpd.store_ h) ++ [msg]
    ∧ store.readCommits (H:=gobWire tid) (httpd.store_ h1) [Some msg] false errorC
      = store.Blocked s2
    ∧ store.kvStore s2 = Some (<[key := string_of_bytes v]> m)
    ∧ httpd.ServeHTTP (H:=gobWire tid) ParseUint
        (httpd.Build_HttpKVAPI s2 (httpd.confChangeC h1)) w'
        (http.Build_Request "GET" key None)
      = httpd.Served (httpd.Build_HttpKVAPI s2 (httpd.confChangeC h1))
          (http.Write v w').
Proof.
  intros Htid Hlen Hm.
  destruct (Propose_gobWire tid (httpd.store_ h) key (string_of_bytes v) Op.SET Htid)
    as (msg & Hprop & Hdec).
  { rewrite length_string_of_bytes. cbn [String.length Op.SET].
    change (2 ^ 31) with 2147483648 in Hlen. change (2 ^ 32) with 4294967296. lia. }
  eexists _, msg, _. unfold httpd.ServeHTTP.
  cbn [http.Method http.Body http.RequestURI String.eqb Ascii.eqb Bool.eqb].
  unfold Op.SET in Hprop. rewrite Hprop.
  split; [reflexivity|]. cbn [httpd.store_ httpd.confChangeC store.proposeC].
  split; [reflexivity|]. split; [reflexivity|].
  cbn [store.readCommits gobDecode gobWire]. rewrite Hdec.
  rewrite (applyEntry_allocated _ m) by done.
  change (applyOp m (Build_kv key (string_of_bytes v) Op.SET))
    with (<[key := string_of_bytes v]> m).
  split; [reflexivity|]. cbn [store.kvStore store.set_kvStore].
  split; [reflexivity|].
  unfold store.Lookup. cbn [store.kvStore store.set_kvStore].
  rewrite lookup_insert_eq.
  by rewrite bytes_of_string_of_bytes.
Qed.

Lemma put_commit_get_witness :
  ∃ h1 msg s2,
    httpd.ServeHTTP (sniffer:=Scenario.plainText) (H:=gobWire 65)
          Scenario.parseTwo Scenario.api
      http.newResponseWriter
      (http.Build_Request "PUT" "a" (Some [byte 0xFF; byte 0x00]))
    = httpd.Served h1 (http.WriteHeader http.StatusNoContent http.newResponseWriter)
    ∧ store.Lookup (httpd.store_ h1) "a" = store.Lookup (httpd.store_ Scenario.api) "a"
    ∧ store.proposeC (httpd.store_ h1)
      = store.proposeC (httpd.store_ Scenario.api) ++ [msg]
    ∧ store.readCommits (H:=gobWire 65) (httpd.store_ h1) [Some msg] false ErrOpen
      = store.Blocked s2
    ∧ store.kvStore s2
      = Some (<["a"%string := string_of_bytes [byte 0xFF; byte 0x00]]> Sample.textTable)
    ∧ httpd.ServeHTTP (sniffer:=Scenario.plainText) (H:=gobWire 65) Scenario.parseTwo
        (httpd.Build_HttpKVAPI s2 (httpd.confChangeC h1)) http.newResponseWriter
        (http.Build_Request "GET" "a" None)
      = httpd.Served (httpd.Build_HttpKVAPI s2 (httpd.confChangeC h1))
          (http.Write (sniffer:=Scenario.plainText)
                [byte 0xFF; byte 0x00] http.newResponseWriter).
Proof.
  apply (put_commit_get (sniffer:=Scenario.plainText) 65
        Scenario.parseTwo Scenario.api Sample.textTable
           http.newResponseWriter http.newResponseWriter "a"
           [byte 0xFF; byte 0x00] ErrOpen).
  - lia.
  - vm_compute. reflexivity.
  - reflexivity.
Defined.

(** X21. From DELETE to GET: the message a DELETE proposes, once
    delivered on the commit channel of a store with an allocated table,
    removes the request URI from the table, and a GET of the same URI is
    then answered 404. *)
Theorem delete_commit_get {sniffer : http.ContentSniffer} (tid : Z)
    (ParseUint : string → option N)
    (h : httpd.HttpKVAPI) (m : gmap string string) (w w' : http.ResponseWriter)
    (key : string) (body : option bytes) (errorC : errorChan) :
  (64 ≤ tid < 2 ^ 31)%Z →
  N.of_nat (String.length key) < 2 ^ 31 →
  store.kvStore (httpd.store_ h) = Some m →
  ∃ h1 msg s2,
    httpd.ServeHTTP (H:=gobWire tid) ParseUint h w
      (http.Build_Request "DELETE" key body) = httpd.Served h1 w
    ∧ store.Lookup (httpd.store_ h1) key = store.Lookup (httpd.store_ h) key
    ∧ store.proposeC (httpd.store_ h1) = store.proposeC (httpd.store_ h) ++ [msg]
    ∧ store.readCommits (H:=gobWire tid) (httpd.store_ h1) [Some msg] false errorC
      = store.Blocked s2
    ∧ store.kvStore s2 = Some (delete key m)
    ∧ httpd.ServeHTTP (H:=gobWire tid) ParseUint
        (httpd.Build_HttpKVAPI s2 (httpd.confChangeC h1)) w'
        (http.Build_Request "GET" key None)
      = httpd.Served (httpd.Build_HttpKVAPI s2 (httpd.confChangeC h1))
          (http.Error w' "Failed to GET" http.StatusNotFound).
Proof.
  intros Htid Hlen Hm.
  destruct (Propose_gobWire tid (httpd.store_ h) key EmptyString Op.DELETE Htid)
    as (msg & Hprop & Hdec).
  { cbn [String.length Op.DELETE].
    change (2 ^ 31) with 2147483648 in Hlen. change (2 ^ 32) with 4294967296. lia. }
  eexists _, msg, _. unfold httpd.ServeHTTP.
  cbn [http.Method http.Body http.RequestURI String.eqb Ascii.eqb Bool.eqb].
  unfold Op.DELETE in Hprop. rewrite Hprop.
  split; [reflexivity|]. cbn [httpd.store_ httpd.confChangeC store.proposeC].
  split; [reflexivity|]. split; [reflexivity|].
  cbn [store.readCommits gobDecode gobWire]. rewrite Hdec.
  unfold store.applyEntry. cbn [Opt Key String.eqb Ascii.eqb Bool.eqb store.kvStore].
  rewrite Hm. cbn [fmap option_fmap option_map store.set_kvStore].
  split; [reflexivity|]. cbn [store.kvStore].
  split; [reflexivity|].
  unfold store.Lookup. cbn [store.kvStore store.set_kvStore].
  by rewrite lookup_delete_eq.
Qed.

Lemma delete_commit_get_witness :
  ∃ h1 msg s2,
    httpd.ServeHTTP (sniffer:=Scenario.plainText) (H:=gobWire 65)
          Scenario.parseTwo Scenario.api
      http.newResponseWriter (http.Build_Request "DELETE" "a" None)
    = httpd.Served h1 http.newResponseWriter
    ∧ store.Lookup (httpd.store_ h1) "a" = store.Lookup (httpd.store_ Scenario.api) "a"
    ∧ store.proposeC (httpd.store_ h1)
      = store.proposeC (httpd.store_ Scenario.api) ++ [msg]
    ∧ store.readCommits (H:=gobWire 65) (httpd.store_ h1) [Some msg] false ErrOpen
      = store.Blocked s2
    ∧ store.kvStore s2 = Some (delete "a"%string Sample.textTable)
    ∧ httpd.ServeHTTP (sniffer:=Scenario.plainText) (H:=gobWire 65) Scenario.parseTwo
        (httpd.Build_HttpKVAPI s2 (httpd.confChangeC h1)) http.newResponseWriter
        (http.Build_Request "GET" "a" None)
      = httpd.Served (httpd.Build_HttpKVAPI s2 (httpd.confChangeC h1))
          (http.Error (sniffer:=Scenario.plainText)
                http.newResponseWriter "Failed to GET" http.StatusNotFound).
Proof.
  apply (delete_commit_get (sniffer:=Scenario.plainText) 65
        Scenario.parseTwo Scenario.api Sample.textTable
           http.newResponseWriter http.newResponseWriter "a" None ErrOpen).
  - lia.
  - vm_compute. reflexivity.
  - reflexivity.
Defined.

(** X22. Proposals are unambiguous on the wire: the messages two calls
    of [Propose] send, on any two stores, are equal exactly when the
    key, the value and the operation proposed are. *)
Theorem Propose_injective (tid : Z) (s s' s1 s2 : store.KvStore)
    (k v op k' v' op' : string) :
  (64 ≤ tid < 2 ^ 31)%Z →
  store.Propose (H:=gobWire tid) s k v op = Some s1 →
  store.Propose (H:=gobWire tid) s' k' v' op' = Some s2 →
  last (store.proposeC s1) = last (store.proposeC s2)
  ↔ Build_kv k v op = Build_kv k' v' op'.
Proof.
  intros Htid. unfold store.Propose. cbn [gobEncode gobWire].
  destruct (gob.Encode tid (Build_kv k v op)) as [buf|] eqn:Henc; [|done].
  destruct (gob.Encode tid (Build_kv k' v' op')) as [buf'|] eqn:Henc'; [|done].
  intros [= <-] [= <-]. cbn [store.proposeC]. rewrite !last_snoc.
  split.
  - intros [= Heq].
    assert (buf = buf') as <-.
    { by rewrite <- (bytes_of_string_of_bytes buf), Heq, bytes_of_string_of_bytes. }
    pose proof (Decode_Encode tid _ _ Htid Henc) as Hd.
    rewrite (Decode_Encode tid _ _ Htid Henc') in Hd. congruence.
  - intros Heq. rewrite Heq in Henc. congruence.
Qed.

Lemma Propose_injective_witness :
  last (store.proposeC
          (store.Build_KvStore [Sample.message Sample.setA1] (Some ∅) Sample.noSnapshot))
  = last (store.proposeC
            (store.Build_KvStore [Sample.message Sample.setA1]
               (Some Sample.textTable) Sample.noSnapshot))
  ↔ Build_kv "a" "1" Op.SET = Build_kv "a" "1" Op.SET.
Proof.
  apply (Propose_injective 65 Sample.fresh Sample.textStore
           (store.Build_KvStore [Sample.message Sample.setA1] (Some ∅) Sample.noSnapshot)
           (store.Build_KvStore [Sample.message Sample.setA1]
              (Some Sample.textTable) Sample.noSnapshot)
           "a" "1" Op.SET "a" "1" Op.SET).
  - lia.
  - vm_compute. reflexivity.
  - vm_compute. reflexivity.
Defined.

(** * Beyond the claims: how the apply loop can end badly *)

(** X23. The loop ends in [log.Fatal] in two cases only: at a message
    that does not decode, every message before it having been read, or
    at the end of a closed feed with an error waiting on the error
    channel. *)
Theorem readCommits_fatal {codec : GobCodec} (commitC : list (option string))
    (s s' : store.KvStore) (closed : bool) (errorC : errorChan) :
  store.readCommits s commitC closed errorC = store.Fatal s' →
  (∃ read bad rest, commitC = read ++ Some bad :: rest
                    ∧ gobDecode (bytes_of_string bad) = None)
  ∨ (closed = true ∧ ∃ err, errorC = ErrValue err).
Proof.
  revert s. induction commitC as [|[data|] commitC IH]; intros s.
  - cbn [store.readCommits].
    destruct closed; [destruct errorC as [err| |]|]; try done.
    intros _. right. split; [done|]. by exists err.
  - cbn [store.readCommits].
    destruct (gobDecode (bytes_of_string data)) as [e|] eqn:Hdec.
    + destruct (store.applyEntry s e) as [s1|]; [|done].
      intros Hrun. destruct (IH _ Hrun) as [(read & bad & rest & -> & Hbad)|Hend].
      * left. by exists (Some data :: read), bad, rest.
      * by right.
    + intros _. left. by exists [], data, commitC.
  - cbn [store.readCommits snap.Load].
    destruct (snap.answers (store.snapshotter s) (snap.calls (store.snapshotter s)))
      as [snapshot| |err]; [|done..].
    unfold store.recoverFromSnapshot.
    destruct (json.Unmarshal (snap.Data snapshot)) as [table|]; [|done].
    intros Hrun. destruct (IH _ Hrun) as [(read & bad & rest & -> & Hbad)|Hend].
    + left. by exists (None :: read), bad, rest.
    + by right.
Qed.

Lemma readCommits_fatal_witness :
  (∃ read bad rest,
     [Some (Sample.message Sample.setA1); Some "not gob"%string; None]
     = read ++ Some bad :: rest
     ∧ gobDecode (GobCodec:=Sample.codec) (bytes_of_string bad) = None)
  ∨ (false = true ∧ ∃ err, ErrOpen = ErrValue err).
Proof.
  apply (readCommits_fatal (codec:=Sample.codec)
           [Some (Sample.message Sample.setA1); Some "not gob"%string; None]
           Sample.fresh
           (store.set_kvStore Sample.fresh (Some {[ "a"%string := "1"%string ]}))
           false ErrOpen).
  vm_compute. reflexivity.
Defined.

(** X24. The loop panics in two cases only: at a nil message for which
    [Load] failed with an error other than the absence of a snapshot or
    answered a snapshot that is not the JSON of a table, or at an entry
    SET met while the map is nil. *)
Theorem readCommits_panics {codec : GobCodec} (commitC : list (option string))
    (s s' : store.KvStore) (closed : bool) (errorC : errorChan) :
  store.readCommits s commitC closed errorC = store.Panicked s' →
  (∃ read rest n,
     commitC = read ++ None :: rest
     ∧ snap.calls (store.snapshotter s') = S n
     ∧ ((∃ err, snap.answers (store.snapshotter s') n = snap.LoadFailed err)
        ∨ ∃ snapshot, snap.answers (store.snapshotter s') n = snap.Loaded snapshot
                      ∧ json.Unmarshal (snap.Data snapshot) = None))
  ∨ (∃ read msg e rest,
       commitC = read ++ Some msg :: rest
       ∧ gobDecode (bytes_of_string msg) = Some e
       ∧ Opt e = Op.SET
       ∧ store.kvStore s' = None).
Proof.
  revert s. induction commitC as [|[data|] commitC IH]; intros s.
  - cbn [store.readCommits].
    destruct closed; [destruct errorC as [err| |]|]; done.
  - cbn [store.readCommits].
    destruct (gobDecode (bytes_of_string data)) as [e|] eqn:Hdec; [|done].
    destruct (store.applyEntry s e) as [s1|] eqn:Happ.
    + intros Hrun.
      destruct (IH _ Hrun) as [(read & rest & n & -> & Hn)
                              |(read & msg & e' & rest & -> & He')].
      * left. by exists (Some data :: read), rest, n.
      * right. by exists (Some data :: read), msg, e', rest.
    + intros [= <-]. right. exists [], data, e, commitC.
      unfold store.applyEntry in Happ.
      destruct (String.eqb (Opt e) "SET") eqn:Hset.
      * apply eqb_string_true in Hset.
        destruct (store.kvStore s); [done|]. by repeat split.
      * by destruct (String.eqb (Opt e) "DEL").
  - cbn [store.readCommits snap.Load].
    destruct (snap.answers (store.snapshotter s) (snap.calls (store.snapshotter s)))
      as [snapshot| |err] eqn:Hload; [|done|].
    + unfold store.recoverFromSnapshot.
      destruct (json.Unmarshal (snap.Data snapshot)) as [table|] eqn:Hjson.
      * intros Hrun.
        destruct (IH _ Hrun) as [(read & rest & n & -> & Hn)
                                |(read & msg & e' & rest & -> & He')].
        -- left. by exists (None :: read), rest, n.
        -- right. by exists (None :: read), msg, e', rest.
      * intros [= <-]. left.
        exists [], commitC, (snap.calls (store.snapshotter s)).
        split; [done|]. split; [done|]. right. by exists snapshot.
    + intros [= <-]. left.
      exists [], commitC, (snap.calls (store.snapshotter s)).
      split; [done|]. split; [done|]. left. by exists err.
Qed.

Lemma readCommits_panics_witness :
  (∃ read rest n,
     [None; Some (Sample.message Sample.setA1)] = read ++ None :: rest
     ∧ snap.calls (store.snapshotter
                     (store.Build_KvStore [] None
                        (snap.Build_Snapshotter (snap.answers Scenario.null) 1)))
       = S n
     ∧ ((∃ err, snap.answers
                  (store.snapshotter
                     (store.Build_KvStore [] None
                        (snap.Build_Snapshotter (snap.answers Scenario.null) 1)))
                  n = snap.LoadFailed err)
        ∨ ∃ snapshot,
            snap.answers
              (store.snapshotter
                 (store.Build_KvStore [] None
                    (snap.Build_Snapshotter (snap.answers Scenario.null) 1)))
              n = snap.Loaded snapshot
            ∧ json.Unmarshal (snap.Data snapshot) = None))
  ∨ (∃ read msg e rest,
       [None; Some (Sample.message Sample.setA1)] = read ++ Some msg :: rest
       ∧ gobDecode (GobCodec:=Sample.codec) (bytes_of_string msg) = Some e
       ∧ Opt e = Op.SET
       ∧ store.kvStore
           (store.Build_KvStore [] None
              (snap.Build_Snapshotter (snap.answers Scenario.null) 1))
         = None).
Proof.
  apply (readCommits_panics (codec:=Sample.codec)
           [None; Some (Sample.message Sample.setA1)]
           (Scenario.over Scenario.null)
           (store.Build_KvStore [] None
              (snap.Build_Snapshotter (snap.answers Scenario.null) 1))
           false ErrOpen).
  vm_compute. reflexivity.
Defined.
